(** * faxSim: the visual degradation pipeline

    A shallow embedding of the faxSim orchestrator (faxSim.js) and of its
    effect modules (rotate, warp, dropout, tile-shift, white noise, raster,
    black stripes, white stripes), with the properties of the pipeline that
    the specification states.  The brightness module is left out: it takes
    no batch probability and faxSim.js never calls it.

    Modelling conventions.
    - JavaScript numbers are exact rationals ([Q]); pixel sizes, counts and
      image dimensions are integers ([Z]).  IEEE rounding is not modelled.
    - The program's side effects go through a state-and-exception monad [M]
      over a [world]: the disk, the log of performed I/O, the random
      generator behind [Math.random], the clock, the two process-wide debug
      flags of faxSim.js, and the host routines whose results the source
      does not determine (bounding boxes, blur, transcendental functions).
    - A thrown exception (a failing [execFileSync], [unlinkSync] of a
      missing file, an out-of-range [Buffer.fill]) is [None].
    - The [IM] argument (path of the ImageMagick binary) is dropped: every
      engine call of the source uses the same binary. *)

From Stdlib Require Import ZArith QArith Qround Qminmax Qabs Lqa Ascii String.
From stdpp Require Import base option list gmap strings pretty.

Set Warnings "-register-all".

Local Open Scope string_scope.
Local Open Scope Z_scope.
Local Open Scope list_scope.

(** ** Numbers *)

Module Js.

Definition ltb (x y : Q) : bool := negb (Qle_bool y x).
Definition gtb (x y : Q) : bool := ltb y x.

(** [Math.floor], [Math.ceil], [Math.round]. *)
Definition floor (x : Q) : Z := Qfloor x.
Definition ceil (x : Q) : Z := Qceiling x.
Definition round (x : Q) : Z := Qfloor (x + (1 # 2))%Q.

(** [x || d] on numbers: [0] is falsy. *)
Definition or_default (x d : Q) : Q := if Qeq_bool x 0%Q then d else x.

(** The double nearest to pi, as [Math.PI] holds it. *)
Definition PI : Q := (884279719003555 # 281474976710656)%Q.

End Js.

(** ** Draw scripts, engine arguments, images *)

(** One line of an MVG draw script. *)
Inductive mvg_cmd :=
| MvgPush
| MvgViewbox (w h : Z)
| MvgFill (color : string)
| MvgStrokeNone
| MvgPoint (x y : Z)
| MvgRectangle (x0 y0 x1 y1 : Z)
| MvgPop.

(** A [WxH+X+Y] geometry. *)
Record geometry := Geometry { geo_w : Z; geo_h : Z; geo_x : Z; geo_y : Z }.

(** The command-line arguments the sources hand to the engine, one
    constructor per option they use. *)
Inductive marg :=
| Density (dpi : Q)
| Background (color : string)
| VirtualPixel (mode : string)
| DistortSRT (angle : Q)
| DistortShepards (ctrl : list (Q * Q * Q * Q))
| Gravity (g : string)
| Extent (w h : Z)
| Crop (g : geometry)
| Repage
| Resize (w h : Z)
| Draw (script : string)
| AlphaSet
| AlphaRemove
| AlphaOff
| Flatten
| ParenOpen
| ParenClose
| Clone
| GeometryAt (x y : Z)
| Compose (op : string)
| Composite
| Size (w h : Z)
| CanvasNone
| MotionBlur (len : Q) (angle : Q)
| Flip
| Flop
| Rotate (deg : Z)
| Colorspace (c : string)
| Blur (radius : Q)
| PlusDither
| OrderedDither (map : string)
| Dither (method : string)
| Colors (n : Q)
| Threshold (percent : Q)
| Monochrome
| Compress (scheme : string).

(** Pixel data is kept symbolically, as the history that produced it. *)
Inductive pixels :=
| PxPage (pdf : string) (dpi : Q)
| PxMagick (srcs : list pixels) (ops : list marg) (scripts : list (list mvg_cmd))
| PxSharpOver (src : pixels) (overlay : list Z).

Record image := Image { img_w : Z; img_h : Z; img_px : pixels }.

Inductive content :=
| FImage (i : image)
| FScript (s : list mvg_cmd)
| FPdf (id : string).

(** ** The world *)

Inductive io_event :=
| EvIdentify (p : string)
| EvMagick (ins : list string) (ops : list marg) (out : string)
| EvSharpRead (p : string)
| EvWrite (p : string)
| EvUnlink (p : string)
| EvCopy (src dst : string)
| EvConsole (line : string)
| EvDbgLog (stage : string)
| EvDbgSnap (stage : string) (snap : string).

(** Host routines: results that the JavaScript sources take from the
    raster engine, from sharp and from the runtime's floating-point
    library. *)
Record host := Host {
  page_size : string -> Q -> Z * Z;
  trim_box : image -> geometry;
  sharp_blur : list Z -> Z -> Z -> Q -> list Z;
  math_hypot : Q -> Q -> Q;
  box_muller : Q -> Q -> Q;
  frac_digits : Q -> string;
  os_tmpdir : string
}.

Record world := World {
  files : gmap string content;
  trace : list io_event;
  rng : nat -> Q;
  rng_pos : nat;
  clock : Z;
  isFirstPdf : bool;
  currentDebug : bool;
  env : host
}.

Definition set_files (f : gmap string content) (w : world) : world :=
  World f (trace w) (rng w) (rng_pos w) (clock w) (isFirstPdf w) (currentDebug w) (env w).
Definition set_trace (t : list io_event) (w : world) : world :=
  World (files w) t (rng w) (rng_pos w) (clock w) (isFirstPdf w) (currentDebug w) (env w).
Definition set_rng_pos (n : nat) (w : world) : world :=
  World (files w) (trace w) (rng w) n (clock w) (isFirstPdf w) (currentDebug w) (env w).
Definition set_flags (first dbg : bool) (w : world) : world :=
  World (files w) (trace w) (rng w) (rng_pos w) (clock w) first dbg (env w).

(** Every value [Math.random] returns lies in [0,1). *)
Definition rng_ok (w : world) : Prop :=
  forall n, (0 <= rng w n)%Q /\ (rng w n < 1)%Q.

(** ** The monad *)

Definition M (A : Type) : Type := world -> option (A * world).

#[global] Instance M_ret : MRet M := fun A a w => Some (a, w).
#[global] Instance M_bind : MBind M := fun A B f m w =>
  match m w with
  | Some (a, w') => f a w'
  | None => None
  end.

Definition throw {A} : M A := fun _ => None.
Definition get_world : M world := fun w => Some (w, w).
Definition put_world (w : world) : M unit := fun _ => Some (tt, w).
Definition emit (e : io_event) : M unit :=
  fun w => Some (tt, set_trace (trace w ++ [e]) w).

(** [for (let i = 0; i < n; i++) body(i)], threading an accumulator. *)
Fixpoint for_loop {A} (n : nat) (i : Z) (body : Z -> A -> M A) (a : A) : M A :=
  match n with
  | O => mret a
  | S n' => a' ← body i a; for_loop n' (i + 1) body a'
  end.

(** ** Primitive effects *)

Definition math_random : M Q :=
  fun w => Some (rng w (rng_pos w), set_rng_pos (S (rng_pos w)) w).

Definition date_now : M Z := fun w => Some (clock w, w).

(** A call into the host, which changes nothing. *)
Definition ask {A} (f : host -> A) : M A := fun w => Some (f (env w), w).

(** [batchPerc < 1 && Math.random() > batchPerc], the skip test that
    opens the dropout, tile-shift, white-noise, raster and black-stripes
    modules.  [&&] short-circuits: nothing is drawn when the probability
    is 1 or more. *)
Definition batch_skip (batchPerc : Q) : M bool :=
  if Js.ltb batchPerc 1 then r ← math_random; mret (Js.gtb r batchPerc)
  else mret false.

Definition path_join (dir file : string) : string := dir +:+ "/" +:+ file.

Definition read_image (p : string) : M image :=
  fun w => match files w !! p with
           | Some (FImage i) => Some (i, w)
           | _ => None
           end.

Definition read_script (p : string) : M (list mvg_cmd) :=
  fun w => match files w !! p with
           | Some (FScript s) => Some (s, w)
           | _ => None
           end.

Definition store (p : string) (c : content) : M unit :=
  fun w => Some (tt, set_files (<[p := c]> (files w)) w).

(** [fs.writeFileSync]. *)
Definition writeFileSync (p : string) (c : content) : M unit :=
  _ ← store p c; emit (EvWrite p).

(** [fs.unlinkSync]: throws when the file is missing. *)
Definition unlinkSync (p : string) : M unit :=
  fun w => match files w !! p with
           | Some _ => Some (tt, set_trace (trace w ++ [EvUnlink p])
                                   (set_files (delete p (files w)) w))
           | None => None
           end.

(** [fs.copyFileSync]. *)
Definition copyFileSync (src dst : string) : M unit :=
  fun w => match files w !! src with
           | Some c => Some (tt, set_trace (trace w ++ [EvCopy src dst])
                                   (set_files (<[dst := c]> (files w)) w))
           | None => None
           end.

(** The [identify -format '%w %h'] query (and its [info:] spelling). *)
Definition identify (p : string) : M (Z * Z) :=
  i ← read_image p;
  _ ← emit (EvIdentify p);
  mret (img_w i, img_h i).

(** ** The raster engine *)

Module Engine.

(** Size of the result of [-resize WxH]: the image is scaled to fit the
    box, keeping its aspect ratio. *)
Definition resize_dims (bw bh : Z) (d : Z * Z) : Z * Z :=
  let '(w, h) := d in
  let s := Qmin (inject_Z bw / inject_Z w) (inject_Z bh / inject_Z h) in
  (Z.max 1 (Js.round (inject_Z w * s)), Z.max 1 (Js.round (inject_Z h * s))).

(** Size of the result of [-crop g +repage]: the part of [g] inside the
    image. *)
Definition crop_dims (g : geometry) (d : Z * Z) : Z * Z :=
  let '(w, h) := d in
  (Z.max 0 (Z.min (geo_x g + geo_w g) w - Z.max (geo_x g) 0),
   Z.max 0 (Z.min (geo_y g + geo_h g) h - Z.max (geo_y g) 0)).

(** What one option does to the canvas size.  [-extent] and [-size] set
    it; crop and resize change it; every other option the sources use
    keeps it. *)
Definition op_dims (op : marg) (d : Z * Z) : Z * Z :=
  match op with
  | Extent w h => (w, h)
  | Size w h => (w, h)
  | Crop g => crop_dims g d
  | Resize w h => resize_dims w h d
  | _ => d
  end.

(** Options between parentheses work on a side image and leave the
    canvas alone. *)
Fixpoint cmd_dims (depth : nat) (ops : list marg) (d : Z * Z) : Z * Z :=
  match ops with
  | [] => d
  | ParenOpen :: r => cmd_dims (S depth) r d
  | ParenClose :: r => cmd_dims (Nat.pred depth) r d
  | op :: r => cmd_dims depth r (match depth with O => op_dims op d | _ => d end)
  end.

Fixpoint read_images (ps : list string) : M (list image) :=
  match ps with
  | [] => mret []
  | p :: r => i ← read_image p; rest ← read_images r; mret (i :: rest)
  end.

(** The scripts that the [-draw @file] options of a command read. *)
Fixpoint read_scripts (ops : list marg) : M (list (list mvg_cmd)) :=
  match ops with
  | [] => mret []
  | Draw p :: r => s ← read_script p; ss ← read_scripts r; mret (s :: ss)
  | _ :: r => read_scripts r
  end.

(** [execFileSync(IM, [in..., ops..., out])]: fails when an input is
    missing, writes exactly one file. *)
Definition magick (ins : list string) (ops : list marg) (out : string) : M unit :=
  imgs ← read_images ins;
  scripts ← read_scripts ops;
  let d0 := match imgs with i :: _ => (img_w i, img_h i) | [] => (0, 0) end in
  let d := cmd_dims 0 ops d0 in
  _ ← store out (FImage (Image (fst d) (snd d) (PxMagick (img_px <$> imgs) ops scripts)));
  emit (EvMagick ins ops out).

(** [execFileSync(IM, ['-density', dpi, input, out])] on a PDF. *)
Definition render (dpi : Q) (input out : string) : M unit :=
  fun w => match files w !! input with
           | Some (FPdf id) =>
               let d := page_size (env w) id dpi in
               (_ ← store out (FImage (Image (fst d) (snd d) (PxPage id dpi)));
                emit (EvMagick [input] [Density dpi] out)) w
           | _ => None
           end.

(** The ['%@'] query: bounding box of the non-background content. *)
Definition bounding_box (p : string) : M geometry :=
  i ← read_image p;
  _ ← emit (EvIdentify p);
  ask (fun e => trim_box e i).

End Engine.

(** ** faxSim_effect_rotate.js *)

Definition rotated_path (name tmpDir : string) : string :=
  path_join tmpDir (name +:+ "_rotated.png").

Definition rotate_ops (angle : Q) (w h : Z) : list marg :=
  [Background "white"; VirtualPixel "background"; DistortSRT angle;
   Gravity "center"; Extent w h].

Definition applyRotateEffect (cur name tmpDir : string) (applyRotate : bool)
    (rotateBatchPerc rotateMin rotateMax : Q) : M string :=
  if negb applyRotate then mret cur else
  r ← math_random;
  if Js.gtb r rotateBatchPerc then mret cur else
  '(w, h) ← identify cur;
  r' ← math_random;
  let angle := (rotateMin + r' * (rotateMax - rotateMin))%Q in
  let outPath := rotated_path name tmpDir in
  _ ← Engine.magick [cur] (rotate_ops angle w h) outPath;
  _ ← unlinkSync cur;
  mret outPath.

(** ** faxSim_effect_warp.js *)

Definition warp_pad_path (name tmpDir : string) : string :=
  path_join tmpDir (name +:+ "_warp_pad.png").
Definition warp_path (name tmpDir : string) : string :=
  path_join tmpDir (name +:+ "_warp.png").

(** The four control points on the padded canvas (TL, TR, BL, BR). *)
Definition warp_ctrl (pad w h : Z) (off : Q) : list (Q * Q * Q * Q) :=
  let p := inject_Z pad in
  let pw := inject_Z (pad + w) in
  let ph := inject_Z (pad + h) in
  [ (p, p, p + off, p + off);
    (pw, p, pw - off, p + off);
    (p, ph, p + off, ph - off);
    (pw, ph, pw - off, ph - off) ]%Q.

Definition warp_pad_ops (pw ph : Z) (ctrl : list (Q * Q * Q * Q)) : list marg :=
  [Background "transparent"; Extent pw ph; VirtualPixel "transparent";
   DistortShepards ctrl].

Definition warp_fit_ops (geom : geometry) (tw2 th2 w h : Z) : list marg :=
  [Crop geom; Repage; Resize tw2 th2; Background "white"; Gravity "center";
   Extent w h].

Definition applyWarpEffect (cur name tmpDir : string) (applyWarp : bool)
    (warpBatchPerc warpOffsetPx warpFinalScale : Q) : M string :=
  if negb applyWarp then mret cur else
  r ← math_random;
  if Js.gtb r warpBatchPerc then mret cur else
  '(w, h) ← identify cur;
  let rawOff := Js.or_default warpOffsetPx 0 in
  let limit := (inject_Z (Z.min w h) / 2 - 1)%Q in
  let off := Qmax (- limit) (Qmin limit rawOff) in
  hyp ← ask (fun e => math_hypot e (inject_Z w) (inject_Z h));
  let diag := Js.ceil hyp in
  let pad := diag in
  let pw := w + 2 * pad in
  let ph := h + 2 * pad in
  let ctrl := warp_ctrl pad w h off in
  let padPath := warp_pad_path name tmpDir in
  let outPath := warp_path name tmpDir in
  _ ← Engine.magick [cur] (warp_pad_ops pw ph ctrl) padPath;
  geom ← Engine.bounding_box padPath;
  let TW := geo_w geom in
  let TH := geo_h geom in
  (* a degenerate box makes the scale infinite or NaN: the engine rejects
     the resize geometry *)
  if (TW <=? 0) || (TH <=? 0) then throw else
  let fitScale := Qmin (inject_Z w / inject_Z TW) (inject_Z h / inject_Z TH) in
  let finalScale := (fitScale * Js.or_default warpFinalScale 1)%Q in
  let TW2 := Js.round (inject_Z TW * finalScale) in
  let TH2 := Js.round (inject_Z TH * finalScale) in
  _ ← Engine.magick [padPath] (warp_fit_ops geom TW2 TH2 w h) outPath;
  _ ← unlinkSync cur;
  _ ← unlinkSync padPath;
  mret outPath.

(** ** faxSim_effect_dropout.js *)

Definition mvg_header (w h : Z) (color : string) : list mvg_cmd :=
  [MvgPush; MvgViewbox w h; MvgFill color; MvgStrokeNone].

(** The name of a scratch script in [os.tmpdir()]:
    [<prefix><Date.now()>_<Math.random() digits>.mvg]. *)
Definition scratch_mvg (prefix : string) : M string :=
  now ← date_now;
  r ← math_random;
  digits ← ask (fun e => frac_digits e r);
  dir ← ask os_tmpdir;
  mret (path_join dir (prefix +:+ pretty now +:+ "_" +:+ digits +:+ ".mvg")).

Definition dropout_blockSize (dropoutSize : Q) : Z :=
  if Js.ltb dropoutSize 1 then 1 else Js.floor dropoutSize.

Definition dropout_count (w h : Z) (dropoutAmount dropoutSize : Q) : Z :=
  let blockSize := dropout_blockSize dropoutSize in
  let totalArea := w * h in
  let blockArea := blockSize * blockSize in
  Js.floor (inject_Z totalArea * dropoutAmount / inject_Z blockArea).

Definition dropout_block (w h blockSize : Z) (_ : Z) (lines : list mvg_cmd)
    : M (list mvg_cmd) :=
  rx ← math_random;
  let x := Js.floor (rx * inject_Z (w - blockSize)) in
  ry ← math_random;
  let y := Js.floor (ry * inject_Z (h - blockSize)) in
  mret (lines ++ [MvgRectangle x y (x + blockSize - 1) (y + blockSize - 1)]).

(** [createMVG]: [None] is the [null] of "nothing to draw". *)
Definition createMVG (w h : Z) (dropoutAmount dropoutSize : Q) : M (option string) :=
  let blockSize := dropout_blockSize dropoutSize in
  let count := dropout_count w h dropoutAmount dropoutSize in
  if count <? 1 then mret None else
  lines ← for_loop (Z.to_nat count) 0 (dropout_block w h blockSize)
            (mvg_header w h "white");
  let lines := lines ++ [MvgPop] in
  mvgPath ← scratch_mvg "mvg_dropout_";
  _ ← writeFileSync mvgPath (FScript lines);
  mret (Some mvgPath).

Definition dropout_path (name tmpDir : string) : string :=
  path_join tmpDir (name +:+ "_rb.png").

Definition applyDropoutEffect (cur name tmpDir : string)
    (dropoutAmount dropoutSize dropoutBatchPerc : Q) : M string :=
  skip ← batch_skip dropoutBatchPerc;
  if (skip : bool) then mret cur else
  '(w, h) ← identify cur;
  mvgFile ← createMVG w h dropoutAmount dropoutSize;
  match mvgFile with
  | None => mret cur
  | Some mvgFile =>
      let outPath := dropout_path name tmpDir in
      _ ← Engine.magick [cur] [Draw mvgFile] outPath;
      _ ← unlinkSync cur;
      _ ← unlinkSync mvgFile;
      mret outPath
  end.

(** ** faxSim_effect_noiseW.js *)

Definition speckle_count (w h : Z) (density : Q) : Z :=
  let total := w * h in
  Js.floor (inject_Z total * density).

Definition speckle_point (w h : Z) (_ : Z) (lines : list mvg_cmd) : M (list mvg_cmd) :=
  rx ← math_random;
  let x := Js.floor (rx * inject_Z w) in
  ry ← math_random;
  let y := Js.floor (ry * inject_Z h) in
  mret (lines ++ [MvgPoint x y]).

Definition createSpeckleMVG (w h : Z) (density : Q) (color : string) : M (option string) :=
  let count := speckle_count w h density in
  if count <? 1 then mret None else
  lines ← for_loop (Z.to_nat count) 0 (speckle_point w h) (mvg_header w h color);
  let lines := lines ++ [MvgPop] in
  mvg ← scratch_mvg "noiseW_";
  _ ← writeFileSync mvg (FScript lines);
  mret (Some mvg).

Definition noiseW_path (name tmpDir : string) : string :=
  path_join tmpDir (name +:+ "_noiseW.png").

Definition applyNoiseWEffect (cur name tmpDir : string) (batchPerc density : Q)
    : M string :=
  skip ← batch_skip batchPerc;
  if (skip : bool) then mret cur else
  '(w, h) ← identify cur;
  mvg ← createSpeckleMVG w h density "white";
  match mvg with
  | None => mret cur
  | Some mvg =>
      let out := noiseW_path name tmpDir in
      _ ← Engine.magick [cur] [Draw mvg] out;
      _ ← unlinkSync cur;
      _ ← unlinkSync mvg;
      mret out
  end.

(** ** faxSim_effect_raster.js *)

Definition raster_path (name tmpDir : string) : string :=
  path_join tmpDir (name +:+ "_raster.png").

Definition applyRasterEffect (cur name tmpDir : string) (batchPerc : Q)
    (rasterMap : string) : M string :=
  skip ← batch_skip batchPerc;
  if (skip : bool) then mret cur else
  let out := raster_path name tmpDir in
  _ ← Engine.magick [cur] [PlusDither; OrderedDither rasterMap] out;
  _ ← unlinkSync cur;
  mret out.

(** ** faxSim_effect_tileshift.js *)

Module Tileshift.

(** Random integer between [min] and [max] inclusive. *)
Definition randInt (min max : Z) : M Z :=
  r ← math_random;
  mret (Js.floor (r * inject_Z (max - min + 1)) + min).

(** One tile: its size, where it is cut and where it is pasted. *)
Record tile := Tile { t_ts : Z; t_x : Z; t_y : Z; t_px : Z; t_py : Z }.

(** The body of the tile loop, up to the clamped paste position. *)
Definition place_tile (w h tilesSize tilesVariation tilesOffsetX tilesOffsetY
    offsetVariation : Z) : M tile :=
  extra ← randInt 0 tilesVariation;
  let ts := tilesSize + extra in
  x ← randInt 0 (w - ts);
  y ← randInt 0 (h - ts);
  jx ← randInt 0 offsetVariation;
  let dx := tilesOffsetX + jx in
  jy ← randInt 0 offsetVariation;
  let dy := tilesOffsetY + jy in
  let px := x + dx in
  let py := y + dy in
  let px := if px + ts >? w then w - ts else px in
  let py := if py + ts >? h then h - ts else py in
  mret (Tile ts x y px py).

Definition tile_args (t : tile) : list marg :=
  [ParenOpen; Clone; Crop (Geometry (t_ts t) (t_ts t) (t_x t) (t_y t)); Repage;
   ParenClose; GeometryAt (t_px t) (t_py t); Compose "Over"; Composite].

Definition tile_step (w h tilesSize tilesVariation tilesOffsetX tilesOffsetY
    offsetVariation : Z) (_ : Z) (targs : list marg) : M (list marg) :=
  t ← place_tile w h tilesSize tilesVariation tilesOffsetX tilesOffsetY
        offsetVariation;
  mret (targs ++ tile_args t).

Definition tiles_path (name tmpDir : string) : string :=
  path_join tmpDir (name +:+ "_tiles.png").

Definition applyTileshiftEffect (cur name tmpDir : string) (batchPerc : Q)
    (amountTiles tilesSize tilesVariation tilesOffsetX tilesOffsetY
     offsetVariation : Z) : M string :=
  skip ← batch_skip batchPerc;
  if (skip : bool) then mret cur else
  '(w, h) ← identify cur;
  targs ← for_loop (Z.to_nat amountTiles) 0
             (tile_step w h tilesSize tilesVariation tilesOffsetX tilesOffsetY
                offsetVariation) [AlphaSet];
  let outPath := tiles_path name tmpDir in
  _ ← Engine.magick [cur] targs outPath;
  _ ← unlinkSync cur;
  mret outPath.

End Tileshift.

(** ** faxSim_effect_stripes.js *)

Module Stripes.

(** Random integer in [[min, max)]. *)
Definition randInt (min max : Z) : M Z :=
  r ← math_random;
  mret (Js.floor (r * inject_Z (max - min)) + min).

(** [while (u === 0) u = Math.random()].  The loop of the source runs
    until a draw is not zero; with [fuel] zero draws in a row the model
    gives no result. *)
Fixpoint draw_nonzero (fuel : nat) : M Q :=
  match fuel with
  | O => throw
  | S fuel' => r ← math_random;
               if Qeq_bool r 0 then draw_nonzero fuel' else mret r
  end.

(** Box-Muller: the two uniform draws are the source's, the
    transcendental part is the host's. *)
Definition randGaussian (fuel : nat) : M Q :=
  u ← draw_nonzero fuel;
  v ← draw_nonzero fuel;
  ask (fun e => box_muller e u v).

Definition clamp (val min max : Q) : Q :=
  if Js.ltb val min then min else if Js.gtb val max then max else val.

Definition clampZ (val min max : Z) : Z :=
  if val <? min then min else if val >? max then max else val.

Definition blob (name tmpDir : string) (a : Z) (suffix : string) : string :=
  path_join tmpDir (name +:+ "_stripes_blob" +:+ pretty a +:+ suffix).

Definition pixelCount (areaWidthPx areaHeightPx : Z) (density : Q) : Z :=
  let halfW := Js.floor (inject_Z areaWidthPx / 2) in
  let halfH := Js.floor (inject_Z areaHeightPx / 2) in
  Js.floor (Js.PI * inject_Z halfW * inject_Z halfH * density).

(** One candidate speckle; each [continue] of the source returns the
    script unchanged.  The loop only runs when [pixelCount >= 1], so
    [halfW] and [halfH] are not 0 where the body divides by them. *)
Definition speckle (fuel : nat) (halfW halfH bw bh : Z) (sigmaX sigmaY : Q)
    (lineSpacing : Z) (_ : Z) (mvgLines : list mvg_cmd) : M (list mvg_cmd) :=
  gx ← randGaussian fuel;
  let xi := clampZ (Js.round (inject_Z halfW + gx * sigmaX)) 0 (bw - 1) in
  gy ← randGaussian fuel;
  let yi := clampZ (Js.round (inject_Z halfH + gy * sigmaY)) 0 (bh - 1) in
  if (lineSpacing >? 1) && negb (Z.rem yi lineSpacing =? 0) then mret mvgLines else
  let dx := (Qabs (inject_Z (xi - halfW)) / inject_Z halfW)%Q in
  let dy := (Qabs (inject_Z (yi - halfH)) / inject_Z halfH)%Q in
  let fade := ((1 - Qmax dx dy) * (1 - Qmax dx dy))%Q in
  if Js.ltb fade (5 # 100) then mret mvgLines else
  gj ← randGaussian fuel;
  let jitter := (gj * (1 # 10))%Q in
  let weight := clamp (fade + jitter) 0 1 in
  r ← math_random;
  if Js.gtb r weight then mret mvgLines else
  mret (mvgLines ++ [MvgPoint xi yi]).

(** [blurLen.toFixed(1)]. *)
Definition toFixed1 (x : Q) : Q := (inject_Z (Js.round (x * 10)) / 10)%Q.

(** The body of the cluster loop.  [areaDir] is [None] for ['random']. *)
Definition cluster (fuel : nat) (name tmpDir : string) (w h : Z) (maxDist : Q)
    (areaWidthPx areaHeightPx : Z) (density : Q) (applySmear : bool)
    (smearLMin smearLMax : Q) (areaDir : option Q) (lineSpacing : Z)
    (color : string) (a : Z) (composite : string) : M string :=
  let cxPage := (inject_Z w / 2)%Q in
  let cyPage := (inject_Z h / 2)%Q in
  cx ← randInt (Js.floor (inject_Z areaWidthPx / 2))
               (w - Js.ceil (inject_Z areaWidthPx / 2));
  cy ← randInt (Js.floor (inject_Z areaHeightPx / 2))
               (h - Js.ceil (inject_Z areaHeightPx / 2));
  let halfW := Js.floor (inject_Z areaWidthPx / 2) in
  let halfH := Js.floor (inject_Z areaHeightPx / 2) in
  let x0 := cx - halfW in
  let y0 := cy - halfH in
  let bw := areaWidthPx in
  let bh := areaHeightPx in
  let count := pixelCount areaWidthPx areaHeightPx density in
  if count <? 1 then mret composite else
  let regionFrac := (8 # 10)%Q in
  let sigmaX := (inject_Z bw * regionFrac / 2)%Q in
  let sigmaY := (inject_Z bh * regionFrac / 2)%Q in
  mvgLines ← for_loop (Z.to_nat count) 0
               (speckle fuel halfW halfH bw bh sigmaX sigmaY lineSpacing)
               (mvg_header bw bh color);
  let mvgLines := mvgLines ++ [MvgPop] in
  let mvgPath := blob name tmpDir a ".mvg" in
  _ ← writeFileSync mvgPath (FScript mvgLines);
  let base := blob name tmpDir a "_base.png" in
  _ ← Engine.magick [] [Size bw bh; CanvasNone] base;
  let speck := blob name tmpDir a "_speck.png" in
  _ ← Engine.magick [base] [Draw mvgPath] speck;
  _ ← unlinkSync base;
  _ ← unlinkSync mvgPath;
  layer ← (if applySmear then
             dist ← ask (fun e => math_hypot e (inject_Z cx - cxPage) (inject_Z cy - cyPage));
             let rawLen := (smearLMin + (smearLMax - smearLMin) * (1 - dist / maxDist))%Q in
             let blurLen := clamp rawLen smearLMin smearLMax in
             angle ← match areaDir with
                     | None => r ← math_random; mret (r * 360)%Q
                     | Some d => mret d
                     end;
             let smeared := blob name tmpDir a "_smear.png" in
             _ ← Engine.magick [speck]
                   [VirtualPixel "transparent"; MotionBlur (toFixed1 blurLen) angle]
                   smeared;
             _ ← unlinkSync speck;
             mret smeared
           else mret speck);
  let next := blob name tmpDir a "_comp.png" in
  _ ← Engine.magick [composite; layer]
        [GeometryAt x0 y0; Compose "Over"; Composite] next;
  _ ← unlinkSync composite;
  _ ← unlinkSync layer;
  mret next.

Definition applyStripesEffect (fuel : nat) (cur name tmpDir : string)
    (batchPerc : Q) (areasAmount areaWidthPx areaHeightPx : Z) (density : Q)
    (applySmear : bool) (smearLMin smearLMax : Q) (areaDir : option Q)
    (lineSpacing : Z) (color : string) : M string :=
  skip ← batch_skip batchPerc;
  if (skip : bool) then mret cur else
  '(w, h) ← identify cur;
  let cxPage := (inject_Z w / 2)%Q in
  let cyPage := (inject_Z h / 2)%Q in
  maxDist ← ask (fun e => math_hypot e cxPage cyPage);
  for_loop (Z.to_nat areasAmount) 0
    (cluster fuel name tmpDir w h maxDist areaWidthPx areaHeightPx density
       applySmear smearLMin smearLMax areaDir lineSpacing color)
    cur.

End Stripes.

(** ** faxSim_effect_stripesW.js *)

(** Node [Buffer]s as lists of bytes. *)
Module Buf.

Definition alloc (n : Z) : list Z := replicate (Z.to_nat n) 0.

(** [buf.fill(v, offset, end)]: both offsets are validated (a negative
    one, or an [end] past the buffer, throws); an empty range leaves the
    buffer alone. *)
Definition fill (buf : list Z) (v offset end_ : Z) : M (list Z) :=
  if (offset <? 0) || (end_ <? 0) || (Z.of_nat (length buf) <? end_) then throw
  else if end_ <=? offset then mret buf
  else mret (list_inserts (Z.to_nat offset)
               (replicate (Z.to_nat (end_ - offset)) v) buf).

(** [buf[i]] of an index inside the buffer. *)
Definition get (buf : list Z) (i : nat) : Z := default 0 (buf !! i).

End Buf.

(** A loop without effects: [for (let i = 0; i < n; i++) a = body(i, a)]. *)
Fixpoint for_pure {A} (n i : nat) (body : nat -> A -> A) (a : A) : A :=
  match n with
  | O => a
  | S n' => for_pure n' (S i) body (body i a)
  end.

Module StripesW.

Record masks := Masks {
  stripeMask : list Z;
  noiseMask : list Z;
  finalMask : list Z;
  overlay : list Z
}.

(** One stripe: the loop state is the mask and the running offset. *)
Definition stripe_step (horizontal : bool) (width height amount thickMin thickMax
    spacingMin spacingMax : Z) (i : Z) (st : list Z * Z) : M (list Z * Z) :=
  let '(mask, offset) := st in
  r1 ← math_random;
  let thickness := thickMin + Js.floor (r1 * inject_Z (thickMax - thickMin + 1)) in
  spacing ← (if i <? amount - 1
             then r2 ← math_random;
                  mret (spacingMin + Js.floor (r2 * inject_Z (spacingMax - spacingMin + 1)))
             else mret 0);
  let offset := offset + spacing in
  r3 ← math_random;
  let jitter := Js.floor ((r3 * 2 - 1) * inject_Z spacing) in
  let maxPos := (if horizontal then height else width) - thickness in
  let pos := Z.max 0 (Z.min maxPos (offset + jitter)) in
  mask ← (if horizontal
          then for_loop (Z.to_nat thickness) pos
                 (fun y m => Buf.fill m 255 (y * width) (y * width + width)) mask
          else for_loop (Z.to_nat height) 0
                 (fun y m => Buf.fill m 255 (y * width + pos)
                               (y * width + pos + thickness)) mask);
  mret (mask, offset + thickness).

Definition build_stripeMask (dir : string) (width height amount thickMin thickMax
    spacingMin spacingMax : Z) : M (list Z) :=
  let horizontal := bool_decide (dir = "horizontal") in
  r ← math_random;
  let offset := Js.floor (r * inject_Z (if horizontal then height else width)) in
  st ← for_loop (Z.to_nat amount) 0
         (stripe_step horizontal width height amount thickMin thickMax
            spacingMin spacingMax)
         (Buf.alloc (width * height), offset);
  mret (fst st).

(** 0 = erase, 255 = keep. *)
Definition build_noiseRaw (width height : Z) (distort : Q) : M (list Z) :=
  let noiseRaw := Buf.alloc (width * height) in
  for_loop (length noiseRaw) 0
    (fun i buf => r ← math_random;
                  mret (<[Z.to_nat i := if Js.ltb r distort then 0 else 255]> buf))
    noiseRaw.

Definition thresh : Z := 128.

Definition threshold_noise (width height : Z) (blurred : list Z) : list Z :=
  for_pure (length blurred) 0
    (fun i m => <[i := if Buf.get blurred i >? thresh then 255 else 0]> m)
    (Buf.alloc (width * height)).

Definition and_masks (width height : Z) (stripes noise : list Z) : list Z :=
  let final := Buf.alloc (width * height) in
  for_pure (length final) 0
    (fun i m => <[i := if bool_decide (stripes !! i = Some 255)
                          && bool_decide (noise !! i = Some 255)
                       then 255 else 0]> m)
    final.

(** One round of the overlay loop: white, with [final[i]] as alpha. *)
Definition paint (final : list Z) (i : nat) (o : list Z) : list Z :=
  let v := Buf.get final i in
  <[(4 * i + 3)%nat := v]> (<[(4 * i + 2)%nat := 255]>
    (<[(4 * i + 1)%nat := 255]> (<[(4 * i + 0)%nat := 255]> o))).

Definition build_overlay (width height : Z) (final : list Z) : list Z :=
  for_pure (length final) 0 (paint final) (Buf.alloc (width * height * 4)).

Definition build_masks (width height amount thickMin thickMax spacingMin
    spacingMax : Z) (dir : string) (noiseSize distort : Q) : M masks :=
  stripes ← build_stripeMask dir width height amount thickMin thickMax
              spacingMin spacingMax;
  noiseRaw ← build_noiseRaw width height distort;
  blurred ← ask (fun e => sharp_blur e noiseRaw width height
                            (if Js.gtb noiseSize 1 then noiseSize / 2 else 1)%Q);
  let noise := threshold_noise width height blurred in
  let final := and_masks width height stripes noise in
  mret (Masks stripes noise final (build_overlay width height final)).

(** [batchPerc] is received and never read: the caller checks it. *)
Definition applyStripesWEffect (curPath name tmpdir : string) (batchPerc : Q)
    (amount thickMin thickMax spacingMin spacingMax : Z) (dir : string)
    (noiseSize distort : Q) : M string :=
  img ← read_image curPath;
  _ ← emit (EvSharpRead curPath);
  let width := img_w img in
  let height := img_h img in
  ms ← build_masks width height amount thickMin thickMax spacingMin spacingMax
         dir noiseSize distort;
  let outputBuffer := Image width height (PxSharpOver (img_px img) (overlay ms)) in
  _ ← writeFileSync curPath (FImage outputBuffer);
  mret curPath.

End StripesW.

(** ** faxSim.js: configuration and text helpers *)

Module Text.

Fixpoint split_on (c : ascii) (s : string) : list string :=
  match s with
  | EmptyString => [""]
  | String a r =>
      if bool_decide (a = c) then "" :: split_on c r
      else match split_on c r with
           | h :: t => String a h :: t
           | [] => [String a ""]
           end
  end.

Fixpoint trim_left (s : string) : string :=
  match s with
  | String a r => if Ascii.is_space a then trim_left r else s
  | EmptyString => s
  end.

Definition trim (s : string) : string :=
  String.rev (trim_left (String.rev (trim_left s))).

Definition lower_ascii (a : ascii) : ascii :=
  let n := nat_of_ascii a in
  if (65 <=? n)%nat && (n <=? 90)%nat then ascii_of_nat (n + 32) else a.

Fixpoint toLowerCase (s : string) : string :=
  match s with
  | EmptyString => EmptyString
  | String a r => String (lower_ascii a) (toLowerCase r)
  end.

Definition nonempty (s : string) : bool := negb (bool_decide (s = "")).

Definition includes (l : list string) (key : string) : bool :=
  bool_decide (key ∈ l).

(** The suffix from the last dot on, if there is a dot. *)
Fixpoint last_dot (s : string) : option string :=
  match s with
  | EmptyString => None
  | String a r =>
      match last_dot r with
      | Some e => Some e
      | None => if bool_decide (a = "."%char) then Some s else None
      end
  end.

(** [path.extname] of a file name without directories: a leading dot
    does not start an extension. *)
Definition extname (file : string) : string :=
  match last_dot file with
  | Some e => if bool_decide (e = file) then "" else e
  | None => ""
  end.

(** [path.parse(file).name]. *)
Definition parse_name (file : string) : string :=
  substring 0 (String.length file - String.length (extname file)) file.

End Text.

(** The recognised options of faxSim.ini, after [parseIniFile].  A key the
    file may leave out ([!== undefined] in the source) is an [option]. *)
Module Cfg.

Record t := Make {
  debugPipeline : bool;
  debugExcludeEffects : string;
  renderResolution : Q;
  applyWarp : bool;
  warpBatchPerc : Q;
  warpOffsetPx : Q;
  warpOffsetMinPx : Q;
  warpOffsetMaxPx : Q;
  warpFinalScale : Q;
  applyRotate : bool;
  rotateBatchPerc : Q;
  rotateMin : Q;
  rotateMax : Q;
  rotateMirror : bool;
  rotateMirrorBatchPerc : Q;
  rotateMirrorArray : string;
  applyStripesW : bool;
  stripesWBatchPerc : Q;
  stripesWAmount : Z;
  stripesWThickMin : Z;
  stripesWThickMax : Z;
  stripesWSpacingMin : Z;
  stripesWSpacingMax : Z;
  stripesWDir : string;
  stripesWDistortSize : Q;
  stripesWDistort : Q;
  applyAlpha : bool;
  applyGray : bool;
  applyBlur : bool;
  blurRadius : Q;
  blurRadMin : Q;
  blurRadMax : Q;
  blurRadBatchPerc : Q;
  applyStripes : bool;
  stripesBatchPerc : Q;
  stripesAreasAmount : Z;
  stripesAreaWidthPx : Z;
  stripesAreaHeightPx : Z;
  stripesDensity : Q;
  stripesDensityMin : option Q;
  stripesDensityMax : option Q;
  applyStripesSmear : bool;
  stripesSmearLMin : Q;
  stripesSmearLMax : Q;
  stripesAreaDir : option Q;
  stripesLineSpacing : Z;
  applyRasterization : bool;
  rasterMap : string;
  applyDither : bool;
  ditherMethod : string;
  ditherColors : Q;
  applyNoiseW : bool;
  noiseWBatchPerc : Q;
  noiseWDensity : Q;
  noiseWDensityMin : option Q;
  noiseWDensityMax : option Q;
  applyRasterEffect : bool;
  rasterBatchPerc : Q;
  applyFinalThreshold : bool;
  finalThresholdValue : Q;
  applyDropout : bool;
  dropoutBatchPerc : Q;
  dropoutAmount : Q;
  dropoutAmountMin : option Q;
  dropoutAmountMax : option Q;
  dropoutSize : Q;
  applyTileshift : bool;
  tileshiftBatchPerc : Q;
  amountTiles : Z;
  amountTilesMin : option Z;
  amountTilesMax : option Z;
  tilesSize : Z;
  tilesVariation : Z;
  tilesOffsetX : Z;
  tilesOffsetY : Z;
  offsetVariation : Z
}.

End Cfg.

(** [debugSkip]: the comma-separated list of effect keys to skip in debug,
    trimmed and lower-cased, empty tokens dropped. *)
Definition debugSkip (cfg : Cfg.t) : list string :=
  filter (fun s => Is_true (Text.nonempty s))
    ((fun s => Text.toLowerCase (Text.trim s))
       <$> Text.split_on ","%char (Cfg.debugExcludeEffects cfg)).

Definition srcDir : string := "../output/pdf".
Definition dstDir : string := "../output/tiff".
Definition debugDir : string := path_join dstDir "debugPic".

(** ** faxSim.js: debug instrumentation *)

Definition dbgLog (stage : string) : M unit :=
  w ← get_world;
  if currentDebug w then emit (EvDbgLog stage) else mret tt.

Definition dbgSnap (stage curPath name : string) : M unit :=
  w ← get_world;
  if negb (currentDebug w) then mret tt else
  let snap := path_join debugDir (name +:+ "_" +:+ stage +:+ ".png") in
  _ ← copyFileSync curPath snap;
  emit (EvDbgSnap stage snap).

(** ** faxSim.js: the pipeline *)

(** What the loop body fixes per document before the first stage. *)
Record doc := Doc {
  d_name : string;
  d_input : string;
  d_output : string;
  isDebugRun : bool
}.

(** The blocks of the loop body that an effect key guards. *)
Inductive block :=
| BWarp | BRotate | BRotateMirror | BStripesW | BAlpha | BGray | BBlur
| BStripes | BRasterization | BDither | BNoiseW | BRasterEffect
| BFinalThreshold | BDropout | BTileshift.

Definition block_key (b : block) : string :=
  match b with
  | BWarp => "warp"
  | BRotate => "rotate"
  | BRotateMirror => "rotatemirror"
  | BStripesW => "stripesw"
  | BAlpha => "alpha"
  | BGray => "gray"
  | BBlur => "blur"
  | BStripes => "stripes"
  | BRasterization => "rasterization"
  | BDither => "dither"
  | BNoiseW => "noisew"
  | BRasterEffect => "rastereffect"
  | BFinalThreshold => "finalthreshold"
  | BDropout => "dropout"
  | BTileshift => "tileshift"
  end.

Definition block_flag (cfg : Cfg.t) (b : block) : bool :=
  match b with
  | BWarp => Cfg.applyWarp cfg
  | BRotate => Cfg.applyRotate cfg
  | BRotateMirror => Cfg.rotateMirror cfg
  | BStripesW => Cfg.applyStripesW cfg
  | BAlpha => Cfg.applyAlpha cfg
  | BGray => Cfg.applyGray cfg
  | BBlur => Cfg.applyBlur cfg
  | BStripes => Cfg.applyStripes cfg
  | BRasterization => Cfg.applyRasterization cfg
  | BDither => Cfg.applyDither cfg
  | BNoiseW => Cfg.applyNoiseW cfg
  | BRasterEffect => Cfg.applyRasterEffect cfg
  | BFinalThreshold => Cfg.applyFinalThreshold cfg
  | BDropout => Cfg.applyDropout cfg
  | BTileshift => Cfg.applyTileshift cfg
  end.

(** [cfg.applyX && (!isDebugRun || !debugSkip.includes(key))]: the switch
    each block computes first. *)
Definition enabled (cfg : Cfg.t) (d : doc) (b : block) : bool :=
  block_flag cfg b && (negb (isDebugRun d) || negb (Text.includes (debugSkip cfg) (block_key b))).

(** [isDebugRun ? 1 : cfg.xBatchPerc]. *)
Definition stage_perc (d : doc) (perc : Q) : Q :=
  if isDebugRun d then 1%Q else perc.

(** [apply && Math.random() < perc]: nothing is drawn when the switch is
    off. *)
Definition stage_gate (apply : bool) (perc : Q) : M bool :=
  if apply then r ← math_random; mret (Js.ltb r perc) else mret false.

(** [min + Math.random() * (max - min)] when the run is not the debug run
    and both bounds are configured. *)
Definition vary (d : doc) (fixed : Q) (min max : option Q) : M Q :=
  match isDebugRun d, min, max with
  | false, Some lo, Some hi => r ← math_random; mret (lo + r * (hi - lo))%Q
  | _, _, _ => mret fixed
  end.

Definition mirror_modes (cfg : Cfg.t) : list string :=
  filter (fun s => Is_true (Text.nonempty s))
    (Text.trim <$> Text.split_on ","%char (Cfg.rotateMirrorArray cfg)).

Definition mirror_ops (mode : option string) : option (list marg) :=
  match mode with
  | Some m =>
      if bool_decide (m = "vertical") then Some [Flip]
      else if bool_decide (m = "horizontal") then Some [Flop]
      else if bool_decide (m = "horizontal+vertical") then Some [Flip; Flop]
      else if bool_decide (m = "180") then Some [Rotate 180]
      else None
  | None => None
  end.

Definition run_mirror (cfg : Cfg.t) (d : doc) (cur : string) : M string :=
  let applyMirror := enabled cfg d BRotateMirror in
  let mirrorPerc := stage_perc d (Cfg.rotateMirrorBatchPerc cfg) in
  go ← stage_gate applyMirror mirrorPerc;
  if (go : bool) then
    let modes := mirror_modes cfg in
    r ← math_random;
    let mode := modes !! Z.to_nat (Js.floor (r * inject_Z (Z.of_nat (length modes)))) in
    _ ← dbgLog "rotateMirror";
    _ ← match mirror_ops mode with
        | Some ops => Engine.magick [cur] ops cur
        | None => mret tt
        end;
    _ ← dbgSnap "rotateMirror" cur (d_name d);
    mret cur
  else mret cur.

(** An in-place engine pass of the orchestrator: log, run, snapshot. *)
Definition in_place (d : doc) (stage : string) (ops : list marg) (cur : string)
    : M string :=
  _ ← dbgLog stage;
  _ ← Engine.magick [cur] ops cur;
  _ ← dbgSnap stage cur (d_name d);
  mret cur.

Definition run_block (fuel : nat) (cfg : Cfg.t) (d : doc) (b : block)
    (cur : string) : M string :=
  let name := d_name d in
  match b with
  | BWarp =>
      let warpPerc := stage_perc d (Cfg.warpBatchPerc cfg) in
      go ← stage_gate (enabled cfg d b) warpPerc;
      if (go : bool) then
        offsetPx ← (if isDebugRun d then mret (Cfg.warpOffsetPx cfg)
                    else r ← math_random;
                         mret (Cfg.warpOffsetMinPx cfg
                               + r * (Cfg.warpOffsetMaxPx cfg - Cfg.warpOffsetMinPx cfg))%Q);
        _ ← dbgLog "warp";
        tmp ← ask os_tmpdir;
        cur ← applyWarpEffect cur name tmp true 1 offsetPx (Cfg.warpFinalScale cfg);
        _ ← dbgSnap "warp" cur name;
        mret cur
      else mret cur
  | BRotate =>
      let rotatePerc := stage_perc d (Cfg.rotateBatchPerc cfg) in
      go ← stage_gate (enabled cfg d b) rotatePerc;
      if (go : bool) then
        _ ← dbgLog "rotate";
        tmp ← ask os_tmpdir;
        cur ← applyRotateEffect cur name tmp true rotatePerc
                (Cfg.rotateMin cfg) (Cfg.rotateMax cfg);
        _ ← dbgSnap "rotate" cur name;
        run_mirror cfg d cur
      else mret cur
  | BRotateMirror => run_mirror cfg d cur
  | BStripesW =>
      let stripesWPerc := stage_perc d (Cfg.stripesWBatchPerc cfg) in
      go ← stage_gate (enabled cfg d b) stripesWPerc;
      if (go : bool) then
        _ ← dbgLog "stripesW";
        tmp ← ask os_tmpdir;
        cur ← StripesW.applyStripesWEffect cur name tmp 1
                (Cfg.stripesWAmount cfg) (Cfg.stripesWThickMin cfg)
                (Cfg.stripesWThickMax cfg) (Cfg.stripesWSpacingMin cfg)
                (Cfg.stripesWSpacingMax cfg) (Cfg.stripesWDir cfg)
                (Cfg.stripesWDistortSize cfg) (Cfg.stripesWDistort cfg);
        _ ← dbgSnap "stripesW" cur name;
        mret cur
      else mret cur
  | BAlpha =>
      if enabled cfg d b
      then in_place d "alpha" [AlphaRemove; AlphaOff; Background "white"; Flatten] cur
      else mret cur
  | BGray =>
      if enabled cfg d b then in_place d "gray" [Colorspace "gray"] cur else mret cur
  | BBlur =>
      let blurPerc := stage_perc d (Cfg.blurRadBatchPerc cfg) in
      if enabled cfg d b then
        radius ← (if isDebugRun d then mret (Cfg.blurRadius cfg)
                  else r ← math_random;
                       if Js.ltb r blurPerc
                       then r' ← math_random;
                            mret (Cfg.blurRadMin cfg
                                  + r' * (Cfg.blurRadMax cfg - Cfg.blurRadMin cfg))%Q
                       else mret (Cfg.blurRadius cfg));
        in_place d "blur" [Blur radius] cur
      else mret cur
  | BStripes =>
      let stripePerc := stage_perc d (Cfg.stripesBatchPerc cfg) in
      go ← stage_gate (enabled cfg d b) stripePerc;
      if (go : bool) then
        density ← vary d (Cfg.stripesDensity cfg) (Cfg.stripesDensityMin cfg)
                    (Cfg.stripesDensityMax cfg);
        _ ← dbgLog "stripes";
        tmp ← ask os_tmpdir;
        cur ← Stripes.applyStripesEffect fuel cur name tmp 1
                (Cfg.stripesAreasAmount cfg) (Cfg.stripesAreaWidthPx cfg)
                (Cfg.stripesAreaHeightPx cfg) density (Cfg.applyStripesSmear cfg)
                (Cfg.stripesSmearLMin cfg) (Cfg.stripesSmearLMax cfg)
                (Cfg.stripesAreaDir cfg) (Cfg.stripesLineSpacing cfg) "black";
        _ ← dbgSnap "stripes" cur name;
        mret cur
      else mret cur
  | BRasterization =>
      if enabled cfg d b
      then in_place d "raster"
             [PlusDither; OrderedDither (Cfg.rasterMap cfg); Colors 2] cur
      else mret cur
  | BDither =>
      if enabled cfg d b
      then in_place d "dither"
             [Dither (Cfg.ditherMethod cfg); Colors (Cfg.ditherColors cfg)] cur
      else mret cur
  | BNoiseW =>
      let noisePerc := stage_perc d (Cfg.noiseWBatchPerc cfg) in
      go ← stage_gate (enabled cfg d b) noisePerc;
      if (go : bool) then
        density ← vary d (Cfg.noiseWDensity cfg) (Cfg.noiseWDensityMin cfg)
                    (Cfg.noiseWDensityMax cfg);
        _ ← dbgLog "noiseW";
        tmp ← ask os_tmpdir;
        cur ← applyNoiseWEffect cur name tmp 1 density;
        _ ← dbgSnap "noiseW" cur name;
        mret cur
      else mret cur
  | BRasterEffect =>
      let rasterPerc := stage_perc d (Cfg.rasterBatchPerc cfg) in
      if enabled cfg d b then
        _ ← dbgLog "rasterEffect";
        tmp ← ask os_tmpdir;
        cur ← applyRasterEffect cur name tmp rasterPerc (Cfg.rasterMap cfg);
        _ ← dbgSnap "rasterEffect" cur name;
        mret cur
      else mret cur
  | BFinalThreshold =>
      if enabled cfg d b
      then in_place d "finalThreshold" [Threshold (Cfg.finalThresholdValue cfg)] cur
      else mret cur
  | BDropout =>
      let dropPerc := stage_perc d (Cfg.dropoutBatchPerc cfg) in
      go ← stage_gate (enabled cfg d b) dropPerc;
      if (go : bool) then
        amount ← vary d (Cfg.dropoutAmount cfg) (Cfg.dropoutAmountMin cfg)
                   (Cfg.dropoutAmountMax cfg);
        _ ← dbgLog "dropout";
        tmp ← ask os_tmpdir;
        cur ← applyDropoutEffect cur name tmp amount (Cfg.dropoutSize cfg) 1;
        _ ← dbgSnap "dropout" cur name;
        mret cur
      else mret cur
  | BTileshift =>
      let tilePerc := stage_perc d (Cfg.tileshiftBatchPerc cfg) in
      go ← stage_gate (enabled cfg d b) tilePerc;
      if (go : bool) then
        amt ← match isDebugRun d, Cfg.amountTilesMin cfg, Cfg.amountTilesMax cfg with
              | false, Some lo, Some hi =>
                  r ← math_random;
                  mret (lo + Js.floor (r * inject_Z (hi - lo + 1)))
              | _, _, _ => mret (Cfg.amountTiles cfg)
              end;
        _ ← dbgLog "tileshift";
        tmp ← ask os_tmpdir;
        cur ← Tileshift.applyTileshiftEffect cur name tmp 1 amt (Cfg.tilesSize cfg)
                (Cfg.tilesVariation cfg) (Cfg.tilesOffsetX cfg) (Cfg.tilesOffsetY cfg)
                (Cfg.offsetVariation cfg);
        _ ← dbgSnap "tileshift" cur name;
        mret cur
      else mret cur
  end.

(** The stages of one document, in the order of the loop body. *)
Inductive stage :=
| SRender
| SBlock (b : block)
| SCompress
| SCleanup.

Definition pipeline : list stage :=
  [SRender; SBlock BWarp; SBlock BRotate; SBlock BStripesW; SBlock BAlpha;
   SBlock BGray; SBlock BBlur; SBlock BStripes; SBlock BRasterization;
   SBlock BDither; SBlock BNoiseW; SBlock BRasterEffect; SBlock BFinalThreshold;
   SBlock BDropout; SBlock BTileshift; SCompress; SCleanup].

Definition run_stage (fuel : nat) (cfg : Cfg.t) (d : doc) (s : stage) (cur : string)
    : M string :=
  match s with
  | SRender =>
      _ ← dbgLog "render";
      _ ← Engine.render (Cfg.renderResolution cfg) (d_input d) cur;
      _ ← dbgSnap "render" cur (d_name d);
      mret cur
  | SBlock b => run_block fuel cfg d b cur
  | SCompress =>
      _ ← dbgLog "compress";
      _ ← Engine.magick [cur] [Monochrome; Compress "Group4"] (d_output d);
      w ← get_world;
      _ ← (if currentDebug w then
             let snap := path_join debugDir (d_name d +:+ "_compress.tif") in
             _ ← copyFileSync (d_output d) snap;
             emit (EvDbgSnap "compress" snap)
           else mret tt);
      mret cur
  | SCleanup =>
      _ ← dbgLog "cleanup";
      _ ← unlinkSync cur;
      mret cur
  end.

Fixpoint run_stages (fuel : nat) (cfg : Cfg.t) (d : doc) (ss : list stage)
    (cur : string) : M string :=
  match ss with
  | [] => mret cur
  | s :: rest => cur' ← run_stage fuel cfg d s cur; run_stages fuel cfg d rest cur'
  end.

(** [currentDebug = DEBUG_PIPELINE && isFirstPdf], and the constants of
    the loop body. *)
Definition begin_doc (cfg : Cfg.t) (file : string) : M (doc * string) :=
  fun w =>
    let dbg := Cfg.debugPipeline cfg && isFirstPdf w in
    let name := Text.parse_name file in
    Some ((Doc name (path_join srcDir file) (path_join dstDir (name +:+ ".tif")) dbg,
           path_join (os_tmpdir (env w)) (name +:+ "_base.png")),
          set_flags (isFirstPdf w) dbg w).

(** After the first PDF, disable debug for subsequent files. *)
Definition end_doc (file : string) : M unit :=
  _ ← emit (EvConsole ("Converted " +:+ file));
  w ← get_world;
  if isFirstPdf w then put_world (set_flags false false w) else mret tt.

Definition is_pdf (file : string) : bool :=
  bool_decide (Text.toLowerCase (Text.extname file) = ".pdf").

Definition process_pdf (fuel : nat) (cfg : Cfg.t) (file : string) : M unit :=
  '(d, cur) ← begin_doc cfg file;
  _ ← run_stages fuel cfg d pipeline cur;
  end_doc file.

(** The loop over [fs.readdirSync(srcDir)]; [listing] is what the
    directory holds. *)
Fixpoint main_loop (fuel : nat) (cfg : Cfg.t) (listing : list string) : M unit :=
  match listing with
  | [] => mret tt
  | file :: rest =>
      _ ← (if is_pdf file then process_pdf fuel cfg file else mret tt);
      main_loop fuel cfg rest
  end.

(** The state the script sets up before the loop:
    [isFirstPdf = true], [currentDebug = false]. *)
Definition boot (w : world) : world := set_flags true false w.

Definition faxSim (fuel : nat) (cfg : Cfg.t) (listing : list string) : M unit :=
  fun w => main_loop fuel cfg listing (boot w).

(** ** The effect modules behind one interface *)

(** A call of an effect module: the module and the arguments after
    [cur, name, tmpDir, IM]. *)
Inductive effect_call :=
| CallRotate (applyRotate : bool) (rotateBatchPerc rotateMin rotateMax : Q)
| CallWarp (applyWarp : bool) (warpBatchPerc warpOffsetPx warpFinalScale : Q)
| CallDropout (dropoutAmount dropoutSize dropoutBatchPerc : Q)
| CallTileshift (batchPerc : Q) (amountTiles tilesSize tilesVariation
    tilesOffsetX tilesOffsetY offsetVariation : Z)
| CallNoiseW (batchPerc density : Q)
| CallRaster (batchPerc : Q) (rasterMap : string)
| CallStripes (fuel : nat) (batchPerc : Q) (areasAmount areaWidthPx areaHeightPx : Z)
    (density : Q) (applySmear : bool) (smearLMin smearLMax : Q)
    (areaDir : option Q) (lineSpacing : Z) (color : string)
| CallStripesW (batchPerc : Q) (amount thickMin thickMax spacingMin spacingMax : Z)
    (dir : string) (noiseSize distort : Q).

Definition apply_effect (c : effect_call) (cur name tmpDir : string) : M string :=
  match c with
  | CallRotate a p lo hi => applyRotateEffect cur name tmpDir a p lo hi
  | CallWarp a p off sc => applyWarpEffect cur name tmpDir a p off sc
  | CallDropout amt sz p => applyDropoutEffect cur name tmpDir amt sz p
  | CallTileshift p n ts tv ox oy ov =>
      Tileshift.applyTileshiftEffect cur name tmpDir p n ts tv ox oy ov
  | CallNoiseW p dens => applyNoiseWEffect cur name tmpDir p dens
  | CallRaster p map => applyRasterEffect cur name tmpDir p map
  | CallStripes fuel p n aw ah dens sm lo hi dir ls col =>
      Stripes.applyStripesEffect fuel cur name tmpDir p n aw ah dens sm lo hi dir ls col
  | CallStripesW p n tmin tmax smin smax dir ns dist =>
      StripesW.applyStripesWEffect cur name tmpDir p n tmin tmax smin smax dir ns dist
  end.

Definition batch_probability (c : effect_call) : Q :=
  match c with
  | CallRotate _ p _ _ => p
  | CallWarp _ p _ _ => p
  | CallDropout _ _ p => p
  | CallTileshift p _ _ _ _ _ _ => p
  | CallNoiseW p _ => p
  | CallRaster p _ => p
  | CallStripes _ p _ _ _ _ _ _ _ _ _ _ => p
  | CallStripesW p _ _ _ _ _ _ _ _ => p
  end.

(** The modules that read their batch probability: all but white
    stripes, whose header leaves the check to the caller. *)
Definition reads_batch_probability (c : effect_call) : bool :=
  match c with
  | CallStripesW _ _ _ _ _ _ _ _ _ => false
  | _ => true
  end.


(** ** Observations on a run *)

Definition is_debug_event (e : io_event) : bool :=
  match e with
  | EvDbgLog _ | EvDbgSnap _ _ => true
  | _ => false
  end.

(** The debug lines and snapshots of a log. *)
Definition debug_events (t : list io_event) : list io_event :=
  filter (fun e => Is_true (is_debug_event e)) t.

Definition is_engine_event (e : io_event) : bool :=
  match e with
  | EvMagick _ _ _ => true
  | _ => false
  end.

(** The worlds at the stage boundaries of one document. *)
Fixpoint stage_worlds (fuel : nat) (cfg : Cfg.t) (d : doc) (ss : list stage)
    (cur : string) (w : world) : list world :=
  match ss with
  | [] => []
  | s :: rest =>
      match run_stage fuel cfg d s cur w with
      | Some (cur', w') => w' :: stage_worlds fuel cfg d rest cur' w'
      | None => []
      end
  end.

(** The worlds a batch run goes through: for each PDF, the world after
    the loop body has set [currentDebug], the stage boundaries, and the
    world at the end of the body. *)
Fixpoint loop_worlds (fuel : nat) (cfg : Cfg.t) (listing : list string)
    (w : world) : list world :=
  match listing with
  | [] => []
  | file :: rest =>
      if is_pdf file then
        match begin_doc cfg file w, process_pdf fuel cfg file w with
        | Some ((d, cur), w0), Some (_, w1) =>
            (w0 :: stage_worlds fuel cfg d pipeline cur w0)
            ++ w1 :: loop_worlds fuel cfg rest w1
        | Some ((d, cur), w0), None =>
            w0 :: stage_worlds fuel cfg d pipeline cur w0
        | None, _ => []
        end
      else loop_worlds fuel cfg rest w
  end.

(** [quiet w w']: going from [w] to [w'] left the two debug flags alone
    and, if debugging was off, added no debug line or snapshot. *)
Definition quiet (w w' : world) : Prop :=
  isFirstPdf w' = isFirstPdf w
  /\ currentDebug w' = currentDebug w
  /\ (currentDebug w = false -> debug_events (trace w') = debug_events (trace w)).

Definition keeps_quiet {A} (m : M A) : Prop :=
  forall w a w', m w = Some (a, w') -> quiet w w'.

Definition set_rng (r : nat -> Q) (w : world) : world :=
  World (files w) (trace w) r (rng_pos w) (clock w) (isFirstPdf w) (currentDebug w) (env w).

(** ** Sample data *)

Module Sample.

Definition sample_host : host :=
  {| page_size := fun _ _ => (8, 6);
     trim_box := fun i => Geometry 4 3 2 2;
     sharp_blur := fun buf _ _ _ => buf;
     math_hypot := fun x y => (Qabs x + Qabs y)%Q;
     box_muller := fun u v => (u - v)%Q;
     frac_digits := fun _ => "5";
     os_tmpdir := "/tmp" |}.

Definition page : image := Image 8 6 (PxPage "doc" 200).

Definition rng_of (l : list Q) : nat -> Q := fun n => nth n l (1 # 2)%Q.

(** A disk holding one source document and its rendered page. *)
Definition disk : gmap string content :=
  <["/tmp/doc_base.png" := FImage page]>
    (<["../output/pdf/doc.pdf" := FPdf "doc"]> ∅).

Definition world_with (draws : list Q) (first dbg : bool) : world :=
  World disk [] (rng_of draws) 0 1700000000000 first dbg sample_host.

Definition quiet_world : world := world_with [] true false.

(** The values of the shipped faxSim.ini, with the debug switch, the
    exclusion list, the block switches and the rotate probability left
    open. *)
Definition ini (debug : bool) (exclude : string) (on : block -> bool)
    (rotatePerc : Q) : Cfg.t :=
  {| Cfg.debugPipeline := debug;
     Cfg.debugExcludeEffects := exclude;
     Cfg.renderResolution := 200;
     Cfg.applyWarp := on BWarp;
     Cfg.warpBatchPerc := 1 # 10;
     Cfg.warpOffsetPx := - 100;
     Cfg.warpOffsetMinPx := - 200;
     Cfg.warpOffsetMaxPx := 200;
     Cfg.warpFinalScale := 9 # 10;
     Cfg.applyRotate := on BRotate;
     Cfg.rotateBatchPerc := rotatePerc;
     Cfg.rotateMin := - 2;
     Cfg.rotateMax := 5;
     Cfg.rotateMirror := on BRotateMirror;
     Cfg.rotateMirrorBatchPerc := 2 # 10;
     Cfg.rotateMirrorArray := "180";
     Cfg.applyStripesW := on BStripesW;
     Cfg.stripesWBatchPerc := 1;
     Cfg.stripesWAmount := 10;
     Cfg.stripesWThickMin := 1;
     Cfg.stripesWThickMax := 5;
     Cfg.stripesWSpacingMin := 1;
     Cfg.stripesWSpacingMax := 2;
     Cfg.stripesWDir := "vertical";
     Cfg.stripesWDistortSize := 5;
     Cfg.stripesWDistort := 1 # 2;
     Cfg.applyAlpha := on BAlpha;
     Cfg.applyGray := on BGray;
     Cfg.applyBlur := on BBlur;
     Cfg.blurRadius := 1 # 10;
     Cfg.blurRadMin := 1 # 10;
     Cfg.blurRadMax := 1;
     Cfg.blurRadBatchPerc := 1;
     Cfg.applyStripes := on BStripes;
     Cfg.stripesBatchPerc := 1 # 10;
     Cfg.stripesAreasAmount := 4;
     Cfg.stripesAreaWidthPx := 200;
     Cfg.stripesAreaHeightPx := 2000;
     Cfg.stripesDensity := 75 # 100;
     Cfg.stripesDensityMin := Some (1 # 10);
     Cfg.stripesDensityMax := Some 1;
     Cfg.applyStripesSmear := true;
     Cfg.stripesSmearLMin := 1;
     Cfg.stripesSmearLMax := 15;
     Cfg.stripesAreaDir := Some 180;
     Cfg.stripesLineSpacing := 2;
     Cfg.applyRasterization := on BRasterization;
     Cfg.rasterMap := "o4x4";
     Cfg.applyDither := on BDither;
     Cfg.ditherMethod := "FloydSteinberg";
     Cfg.ditherColors := 2;
     Cfg.applyNoiseW := on BNoiseW;
     Cfg.noiseWBatchPerc := 7 # 10;
     Cfg.noiseWDensity := 1 # 100;
     Cfg.noiseWDensityMin := Some (1 # 100);
     Cfg.noiseWDensityMax := Some (5 # 100);
     Cfg.applyRasterEffect := on BRasterEffect;
     Cfg.rasterBatchPerc := 1 # 10;
     Cfg.applyFinalThreshold := on BFinalThreshold;
     Cfg.finalThresholdValue := 80;
     Cfg.applyDropout := on BDropout;
     Cfg.dropoutBatchPerc := 4 # 10;
     Cfg.dropoutAmount := 1 # 100;
     Cfg.dropoutAmountMin := Some (1 # 100);
     Cfg.dropoutAmountMax := Some (1 # 10);
     Cfg.dropoutSize := 2;
     Cfg.applyTileshift := on BTileshift;
     Cfg.tileshiftBatchPerc := 4 # 10;
     Cfg.amountTiles := 10;
     Cfg.amountTilesMin := Some 1%Z;
     Cfg.amountTilesMax := Some 20%Z;
     Cfg.tilesSize := 100;
     Cfg.tilesVariation := 200;
     Cfg.tilesOffsetX := 1;
     Cfg.tilesOffsetY := 1;
     Cfg.offsetVariation := 1 |}%Q.

Definition all_on (_ : block) : bool := true.

Definition the_doc (debug : bool) : doc :=
  Doc "doc" "../output/pdf/doc.pdf" "../output/tiff/doc.tif" debug.

(** A source directory with a text file and two PDFs, nothing rendered
    yet. *)
Definition batch_disk : gmap string content :=
  <["../output/pdf/b.PDF" := FPdf "b"]>
    (<["../output/pdf/doc.pdf" := FPdf "doc"]> ∅).

Definition batch_listing : list string := ["notes.txt"; "doc.pdf"; "b.PDF"].

Definition batch_world : world :=
  World batch_disk [] (rng_of []) 0 1700000000000 false true sample_host.

Definition without_stripes (b : block) : bool :=
  match b with BStripes => false | _ => true end.

(** A 100x100 canvas, as in the end-to-end scenario of the
    specification. *)
Definition square : image := Image 100 100 (PxPage "c" 200).

Definition square_world : world :=
  World (<["/tmp/c_base.png" := FImage square]> ∅) [] (rng_of []) 0
    1700000000000 true false sample_host.

End Sample.

(** ** Preconditions of an effect call *)

Definition has_suffix (suffix p : string) : Prop := exists s, p = s +:+ suffix.

Definition is_png (p : string) : Prop := has_suffix ".png" p.

(** The input handle is not one of the names the module itself writes. *)
Definition input_ok (c : effect_call) (cur name tmpDir : string) : Prop :=
  match c with
  | CallRotate _ _ _ _ => cur <> rotated_path name tmpDir
  | CallWarp _ _ _ _ =>
      cur <> warp_pad_path name tmpDir /\ cur <> warp_path name tmpDir
  | CallDropout _ _ _ => is_png cur /\ cur <> dropout_path name tmpDir
  | CallTileshift _ _ _ _ _ _ _ => cur <> Tileshift.tiles_path name tmpDir
  | CallNoiseW _ _ => is_png cur /\ cur <> noiseW_path name tmpDir
  | CallRaster _ _ => cur <> raster_path name tmpDir
  | CallStripes _ _ _ _ _ _ _ _ _ _ _ _ =>
      forall a suffix, cur <> Stripes.blob name tmpDir a suffix
  | CallStripesW _ _ _ _ _ _ _ _ _ => True
  end.

(** The parameters ask for a visible operation on an image of the size
    of [i]: the module is switched on and has something to draw. *)
Definition nontrivial (c : effect_call) (i : image) : Prop :=
  match c with
  | CallRotate a _ _ _ => a = true
  | CallWarp a _ _ _ => a = true
  | CallDropout amt sz _ => 1 <= dropout_count (img_w i) (img_h i) amt sz
  | CallTileshift _ _ _ _ _ _ _ => True
  | CallNoiseW _ dens => 1 <= speckle_count (img_w i) (img_h i) dens
  | CallRaster _ _ => True
  | CallStripes fuel _ n aw ah dens _ _ _ _ _ _ =>
      (1 <= fuel)%nat /\ 1 <= n /\ 1 <= Stripes.pixelCount aw ah dens
  | CallStripesW _ _ _ _ _ _ _ _ _ => True
  end.

(** The host reports bounding boxes that are not empty. *)
Definition boxes_ok (w : world) : Prop :=
  forall i, 0 < geo_w (trim_box (env w) i) /\ 0 < geo_h (trim_box (env w) i).

(** Every draw lies strictly between 0 and 1. *)
Definition rng_positive (w : world) : Prop :=
  forall n, (0 < rng w n)%Q /\ (rng w n < 1)%Q.

(** The test that opens rotate and warp,
    [!apply || Math.random() > batchPerc], lets the call through. *)
Definition gate_passes (a : bool) (p : Q) (w : world) : Prop :=
  a = true /\ Js.gtb (rng w (rng_pos w)) p = false.

(** A rotate or warp call that gets past its opening test (for warp, on a
    host whose bounding boxes are not empty). *)
Definition rotate_or_warp_applies (c : effect_call) (w : world) : Prop :=
  match c with
  | CallRotate a p _ _ => gate_passes a p w
  | CallWarp a p _ _ => gate_passes a p w /\ boxes_ok w
  | _ => False
  end.

(** ** Counting the marks of a draw script *)

Definition is_point (c : mvg_cmd) : bool :=
  match c with MvgPoint _ _ => true | _ => false end.

Definition is_rectangle (c : mvg_cmd) : bool :=
  match c with MvgRectangle _ _ _ _ => true | _ => false end.

Definition count_points (s : list mvg_cmd) : nat :=
  length (filter (fun c => Is_true (is_point c)) s).

Definition count_rectangles (s : list mvg_cmd) : nat :=
  length (filter (fun c => Is_true (is_rectangle c)) s).


(** The name [scratch_mvg] picks in a given world. *)
Definition scratch_name (prefix : string) (w : world) : string :=
  path_join (os_tmpdir (env w))
    (prefix +:+ pretty (clock w) +:+ "_"
       +:+ frac_digits (env w) (rng w (rng_pos w)) +:+ ".mvg").

(** What the host must grant a module: bounding boxes for warp, draws
    other than 0 for the rejection loops of black stripes. *)
Definition host_ok (c : effect_call) (w : world) : Prop :=
  match c with
  | CallWarp _ _ _ _ => boxes_ok w
  | CallStripes _ _ _ _ _ _ _ _ _ _ _ _ => rng_positive w
  | _ => True
  end.

(** What a module that applied leaves behind: the new handle is an
    image, the old one is gone. *)
Definition replaced (cur out : string) (w' : world) : Prop :=
  out <> cur /\ files w' !! cur = None /\ exists i', files w' !! out = Some (FImage i').

(** The alpha bytes of an RGBA buffer. *)
Fixpoint alpha_channel (rgba : list Z) : list Z :=
  match rgba with
  | _ :: _ :: _ :: a :: rest => a :: alpha_channel rest
  | _ => []
  end.

(** ** Auxiliary notions for the proofs *)

(** Both debug flags are off. *)
Definition flags_off (w : world) : Prop :=
  isFirstPdf w = false /\ currentDebug w = false.

(** A generator whose draw at position [pos] is [first] and whose other
    draws are [other]. *)
Definition two_draws (pos : nat) (first other : Q) : nat -> Q :=
  fun n => if Nat.eqb n pos then first else other.

(** The image an engine command leaves at its output path. *)
Definition magick_result (ins : list image) (ops : list marg)
    (scripts : list (list mvg_cmd)) : image :=
  let d0 := match ins with i :: _ => (img_w i, img_h i) | [] => (0, 0) end in
  let d := Engine.cmd_dims 0 ops d0 in
  Image (fst d) (snd d) (PxMagick (img_px <$> ins) ops scripts).

(** The option reads a draw script. *)
Definition is_draw (op : marg) : bool :=
  match op with Draw _ => true | _ => false end.

(** The file-name endings of one round of the cluster loop. *)
Definition blob_suffixes : list string :=
  [".mvg"; "_base.png"; "_speck.png"; "_smear.png"; "_comp.png"].

(** ** Marks of a draw script and the canvas *)

(** A point lies on a [W]x[H] canvas. *)
Definition point_on_canvas (W H : Z) (c : mvg_cmd) : bool :=
  match c with
  | MvgPoint x y => (0 <=? x) && (x <? W) && (0 <=? y) && (y <? H)
  | _ => true
  end.


(** The [applyRotate] / [applyWarp] switch of a call; the other modules
    have none. *)
Definition switched_on (c : effect_call) : bool :=
  match c with
  | CallRotate a _ _ _ => a
  | CallWarp a _ _ _ => a
  | _ => true
  end.

(** A point of a cluster script lies in the [bw]x[bh] box of the cluster
    and, when only every [lineSpacing]-th scanline is striped, on such a
    scanline. *)
Definition speckle_in_box (bw bh lineSpacing : Z) (c : mvg_cmd) : bool :=
  match c with
  | MvgPoint x y =>
      (0 <=? x) && (x <=? bw - 1) && (0 <=? y) && (y <=? bh - 1)
      && ((lineSpacing <=? 1) || (Z.rem y lineSpacing =? 0))
  | _ => false
  end.

(** ** Which files a computation may touch *)

(** The names the pipeline writes: images, draw scripts, and the final
    TIFF. *)
Definition scratch_file (p : string) : Prop :=
  is_png p \/ has_suffix ".mvg" p \/ has_suffix ".tif" p.

(** Every file that is not such a name is as it was. *)
Definition same_elsewhere (w w' : world) : Prop :=
  forall p, ~ scratch_file p -> files w' !! p = files w !! p.

(** Whenever [m] returns, its result satisfies [Q] and it has left
    every other file alone. *)
Definition confined {A} (m : M A) (Q : A -> Prop) : Prop :=
  forall w a w', m w = Some (a, w') -> Q a /\ same_elsewhere w w'.

(** [suffix] ends [p], as a test. *)
Definition ends_with (suffix p : string) : bool :=
  bool_decide (substring (String.length p - String.length suffix)
                 (String.length suffix) p = suffix)
  && (String.length suffix <=? String.length p)%nat.

(** ** faxSim.js: the INI parser *)

(** [s] contains the character [c]. *)
Fixpoint has_char (c : ascii) (s : string) : bool :=
  match s with
  | EmptyString => false
  | String a r => bool_decide (a = c) || has_char c r
  end.

Module Ini.

(** A value of the parsed configuration: [parseIniFile] stores a
    boolean, a number or the text itself. *)
Inductive value (N : Type) :=
| VBool (b : bool)
| VNumber (n : N)
| VString (s : string).

Arguments VBool {N} b.
Arguments VNumber {N} n.
Arguments VString {N} s.

Definition cons_head (a : ascii) (l : list string) : list string :=
  match l with
  | h :: t => String a h :: t
  | [] => [String a ""]
  end.

(** [text.split(/\r?\n/)]: a line ends at a line feed, which takes a
    carriage return just before it along. *)
Fixpoint split_lines (s : string) : list string :=
  match s with
  | EmptyString => [""]
  | String a r =>
      if bool_decide (a = "010"%char) then "" :: split_lines r
      else match r with
           | String b r' =>
               if bool_decide (a = "013"%char) && bool_decide (b = "010"%char)
               then "" :: split_lines r'
               else cons_head a (split_lines r)
           | EmptyString => cons_head a (split_lines r)
           end
  end.

(** [!line || line.startsWith(';') || line.startsWith('#') ||
    line.startsWith('[')], on the trimmed line. *)
Definition skipped (line : string) : bool :=
  match line with
  | EmptyString => true
  | String a _ =>
      bool_decide (a = ";"%char) || bool_decide (a = "#"%char)
      || bool_decide (a = "["%char)
  end.

Section Parser.

(** [Number(val)] of the runtime, [None] when it is [NaN]. *)
Context {N : Type} (to_number : string -> option N).

(** The three-way test on a value: [/^(true|false)$/i], then
    [!isNaN(val)], else the text. *)
Definition classify (val : string) : value N :=
  let low := Text.toLowerCase val in
  if bool_decide (low = "true") || bool_decide (low = "false")
  then VBool (bool_decide (low = "true"))
  else match to_number val with
       | Some n => VNumber n
       | None => VString val
       end.

(** The key and the value one line of the file defines, if it defines
    one: the text before the first [=], and the text after it up to the
    first [;]. *)
Definition entry (line : string) : option (string * value N) :=
  let line := Text.trim line in
  if skipped line then None else
  match Text.split_on "="%char line with
  | k :: rest =>
      let key := Text.trim k in
      let val := Text.trim (hd "" (Text.split_on ";"%char (String.concat "=" rest))) in
      Some (key, classify val)
  | [] => None
  end.

(** [cfg[key] = v].  On a plain object the key [__proto__] is the
    prototype accessor, which ignores booleans, numbers and strings. *)
Definition assign (cfg : gmap string (value N)) (line : string)
    : gmap string (value N) :=
  match entry line with
  | Some (key, v) => if bool_decide (key = "__proto__") then cfg else <[key := v]> cfg
  | None => cfg
  end.

(** [parseIniFile], on the text of the file. *)
Definition parseIniFile (text : string) : gmap string (value N) :=
  foldl assign ∅ (split_lines text).

End Parser.

End Ini.

(** A number parser for the examples: the empty text is 0 (as
    [Number('')] is), a single digit is that digit. *)
Definition sample_number (s : string) : option Z :=
  match s with
  | EmptyString => Some 0
  | String a EmptyString => Z.of_nat <$> Ascii.is_nat a
  | _ => None
  end.

(** ** What a computation leaves on the disk *)

(** [m] leaves the disk as it is. *)
Definition keeps_files {A} (m : M A) : Prop :=
  forall w a w', m w = Some (a, w') -> files w' = files w.

(** The handle [cur] went in and [out] came back: unless they are one
    name, [cur] is gone; and no other name holds anything it did not hold
    before. *)
Definition hands_over (cur out : string) (w w' : world) : Prop :=
  (out = cur \/ files w' !! cur = None)
  /\ forall p, p <> out -> p <> cur ->
               files w' !! p = None \/ files w' !! p = files w !! p.

(** With debugging off, [m] hands over whatever it returns, and leaves
    debugging off. *)
Definition tidy (cur : string) (m : M string) : Prop :=
  forall w out w',
    currentDebug w = false -> m w = Some (out, w') ->
    hands_over cur out w w' /\ currentDebug w' = false.

(** * Properties *)

(** ** Comparisons *)

Lemma ltb_lt x y : Js.ltb x y = true <-> (x < y)%Q.
Proof.
  unfold Js.ltb. rewrite negb_true_iff.
  split; intros H.
  - apply Qnot_le_lt. intros Hle. apply Qle_bool_iff in Hle. congruence.
  - destruct (Qle_bool y x) eqn:E; [|reflexivity].
    apply Qle_bool_iff in E. exfalso. apply (Qlt_not_le _ _ H E).
Qed.

Lemma ltb_ge x y : Js.ltb x y = false <-> (y <= x)%Q.
Proof.
  unfold Js.ltb. rewrite negb_false_iff. apply Qle_bool_iff.
Qed.

(** ** Running the monad *)

Lemma bind_run {A B} (m : M A) (f : A -> M B) w a w' :
  m w = Some (a, w') -> (m ≫= f) w = f a w'.
Proof. intros H. unfold mbind, M_bind. rewrite H. reflexivity. Qed.

Lemma bind_inv {A B} (m : M A) (f : A -> M B) w b w'' :
  (m ≫= f) w = Some (b, w'') ->
  exists a w', m w = Some (a, w') /\ f a w' = Some (b, w'').
Proof.
  unfold mbind, M_bind. destruct (m w) as [[a w']|] eqn:E; [|discriminate].
  intros H. exists a, w'. split; [reflexivity | exact H].
Qed.

Lemma ret_run {A} (a : A) w : (mret a : M A) w = Some (a, w).
Proof. reflexivity. Qed.

Lemma bind_assoc {A B C} (m : M A) (f : A -> M B) (g : B -> M C) w :
  ((m ≫= f) ≫= g) w = (m ≫= fun a => f a ≫= g) w.
Proof. unfold mbind, M_bind. destruct (m w) as [[a w']|]; reflexivity. Qed.

Lemma set_rng_pos_fields n w :
  files (set_rng_pos n w) = files w /\ trace (set_rng_pos n w) = trace w
  /\ isFirstPdf (set_rng_pos n w) = isFirstPdf w
  /\ currentDebug (set_rng_pos n w) = currentDebug w.
Proof. destruct w; repeat split. Qed.

(** ** The batch gate *)

Lemma batch_skip_zero (p : Q) w :
  (p == 0)%Q -> (0 < rng w (rng_pos w))%Q ->
  batch_skip p w = Some (true, set_rng_pos (S (rng_pos w)) w).
Proof.
  intros Hp Hr. unfold batch_skip.
  assert (Js.ltb p 1 = true) as -> by (apply ltb_lt; rewrite Hp; reflexivity).
  unfold mbind, M_bind, math_random, mret, M_ret.
  assert (Js.gtb (rng w (rng_pos w)) p = true) as ->
    by (apply ltb_lt; rewrite Hp; exact Hr).
  reflexivity.
Qed.

Lemma batch_skip_one (p : Q) w :
  (p == 1)%Q -> batch_skip p w = Some (false, w).
Proof.
  intros Hp. unfold batch_skip.
  assert (Js.ltb p 1 = false) as ->
    by (apply ltb_ge; rewrite Hp; apply Qle_refl).
  reflexivity.
Qed.

(** At probability 0 the skip test [Math.random() > batchPerc] still lets
    a draw of exactly 0 through. *)
Lemma batch_skip_zero_draw (p : Q) w :
  (p == 0)%Q -> (rng w (rng_pos w) == 0)%Q ->
  batch_skip p w = Some (false, set_rng_pos (S (rng_pos w)) w).
Proof.
  intros Hp Hr. unfold batch_skip.
  assert (Js.ltb p 1 = true) as -> by (apply ltb_lt; rewrite Hp; reflexivity).
  unfold mbind, M_bind, math_random, mret, M_ret.
  assert (Js.gtb (rng w (rng_pos w)) p = false) as ->
    by (apply ltb_ge; rewrite Hp, Hr; apply Qle_refl).
  reflexivity.
Qed.

(** The [!apply || Math.random() > perc] test of rotate and warp passes
    every draw when the probability is 1. *)
Lemma gtb_one (r p : Q) : (p == 1)%Q -> (r < 1)%Q -> Js.gtb r p = false.
Proof.
  intros Hp Hr. apply ltb_ge. rewrite Hp. apply Qlt_le_weak, Hr.
Qed.

Lemma gtb_zero (r p : Q) : (p == 0)%Q -> (0 < r)%Q -> Js.gtb r p = true.
Proof. intros Hp Hr. apply ltb_lt. rewrite Hp. exact Hr. Qed.

(** ** Batch probability 0 *)

(** C3, amended.  A module that reads its batch probability, called with
    probability 0 and a draw other than 0, returns the handle it was
    given; the disk and the I/O log are what they were. *)
Theorem batch_probability_zero_skips (c : effect_call) (cur name tmpDir : string)
    (w : world) :
  reads_batch_probability c = true ->
  (batch_probability c == 0)%Q ->
  (0 < rng w (rng_pos w))%Q ->
  exists w', apply_effect c cur name tmpDir w = Some (cur, w')
             /\ files w' = files w /\ trace w' = trace w.
Proof.
  intros Hg Hp Hr.
  destruct c as [a ? ? ? | a ? ? ? | | | | | |];
    simpl in Hg, Hp; try discriminate; simpl apply_effect.
  - unfold applyRotateEffect. destruct a; simpl.
    + exists (set_rng_pos (S (rng_pos w)) w). split; [|split; reflexivity].
      unfold mbind, M_bind, math_random. rewrite (gtb_zero _ _ Hp Hr). reflexivity.
    + exists w. repeat split.
  - unfold applyWarpEffect. destruct a; simpl.
    + exists (set_rng_pos (S (rng_pos w)) w). split; [|split; reflexivity].
      unfold mbind, M_bind, math_random. rewrite (gtb_zero _ _ Hp Hr). reflexivity.
    + exists w. repeat split.
  - exists (set_rng_pos (S (rng_pos w)) w). split; [|split; reflexivity].
    unfold applyDropoutEffect. rewrite (bind_run _ _ _ _ _ (batch_skip_zero _ _ Hp Hr)).
    reflexivity.
  - exists (set_rng_pos (S (rng_pos w)) w). split; [|split; reflexivity].
    unfold Tileshift.applyTileshiftEffect.
    rewrite (bind_run _ _ _ _ _ (batch_skip_zero _ _ Hp Hr)). reflexivity.
  - exists (set_rng_pos (S (rng_pos w)) w). split; [|split; reflexivity].
    unfold applyNoiseWEffect. rewrite (bind_run _ _ _ _ _ (batch_skip_zero _ _ Hp Hr)).
    reflexivity.
  - exists (set_rng_pos (S (rng_pos w)) w). split; [|split; reflexivity].
    unfold applyRasterEffect. rewrite (bind_run _ _ _ _ _ (batch_skip_zero _ _ Hp Hr)).
    reflexivity.
  - exists (set_rng_pos (S (rng_pos w)) w). split; [|split; reflexivity].
    unfold Stripes.applyStripesEffect.
    rewrite (bind_run _ _ _ _ _ (batch_skip_zero _ _ Hp Hr)). reflexivity.
Qed.

Lemma batch_probability_zero_skips_witness :
  exists w', apply_effect (CallDropout (1 # 10) 2 0) "/tmp/doc_base.png" "doc" "/tmp"
               Sample.quiet_world = Some ("/tmp/doc_base.png", w')
             /\ files w' = files Sample.quiet_world
             /\ trace w' = trace Sample.quiet_world.
Proof.
  apply batch_probability_zero_skips; reflexivity.
Defined.

(** C3 as stated fails on the white-stripes module: called with batch
    probability 0 (and a draw that is not 0) it reads the input and
    writes it back. *)
Lemma batch_probability_zero_counterexample :
  let c := CallStripesW 0 1 1 1 1 1 "horizontal" 5 (1 # 2) in
  let w := Sample.quiet_world in
  (batch_probability c == 0)%Q
  /\ (0 < rng w (rng_pos w))%Q
  /\ ~ (exists w', apply_effect c "/tmp/doc_base.png" "doc" "/tmp" w
                     = Some ("/tmp/doc_base.png", w')
                   /\ files w' = files w /\ trace w' = trace w).
Proof.
  split; [reflexivity|]. split; [reflexivity|].
  intros (w' & Hrun & _ & Htrace).
  assert (trace w' = [EvSharpRead "/tmp/doc_base.png"; EvWrite "/tmp/doc_base.png"])
    as Ht.
  { vm_compute in Hrun. injection Hrun as <-. reflexivity. }
  rewrite Ht in Htrace. discriminate Htrace.
Qed.

(** ** The debug exclusion list *)

Lemma excluded_not_enabled (cfg : Cfg.t) (d : doc) (b : block) :
  isDebugRun d = true -> block_key b ∈ debugSkip cfg -> enabled cfg d b = false.
Proof.
  intros Hd Hin. unfold enabled, Text.includes.
  rewrite Hd, (bool_decide_eq_true_2 _ Hin). simpl.
  apply andb_false_r.
Qed.

Lemma stage_gate_off (perc : Q) (w : world) :
  stage_gate false perc w = Some (false, w).
Proof. reflexivity. Qed.

(** C1, amended.  In the debug run a block whose key is on the exclusion
    list does nothing at all: the handle and the world (disk, I/O log,
    random generator) come back as they went in, so neither the transform
    nor a snapshot or log line happens. *)
Theorem excluded_block_is_skipped (fuel : nat) (cfg : Cfg.t) (d : doc) (b : block)
    (cur : string) (w : world) :
  isDebugRun d = true ->
  block_key b ∈ debugSkip cfg ->
  run_block fuel cfg d b cur w = Some (cur, w).
Proof.
  intros Hd Hin.
  pose proof (excluded_not_enabled cfg d b Hd Hin) as Hoff.
  destruct b; unfold run_block, run_mirror; rewrite Hoff; reflexivity.
Qed.

Lemma excluded_block_is_skipped_witness :
  run_block 1 (Sample.ini true "rotate, Warp" Sample.all_on (2 # 10))
    (Sample.the_doc true) BWarp "/tmp/doc_base.png" (Sample.world_with [] true true)
  = Some ("/tmp/doc_base.png", Sample.world_with [] true true).
Proof.
  apply excluded_block_is_skipped.
  - reflexivity.
  - apply (bool_decide_eq_true_1 _). vm_compute. reflexivity.
Defined.

(** C1 as stated fails: with warp switched on and "warp" on the exclusion
    list, the warp block of the debug run calls the engine not once. *)
Lemma excluded_block_counterexample :
  let cfg := Sample.ini true "rotate, Warp" Sample.all_on (2 # 10) in
  let w := Sample.world_with [] true true in
  block_key BWarp ∈ debugSkip cfg
  /\ Cfg.applyWarp cfg = true
  /\ ~ (exists cur' w', run_block 1 cfg (Sample.the_doc true) BWarp
                          "/tmp/doc_base.png" w = Some (cur', w')
                        /\ exists e, e ∈ trace w' /\ is_engine_event e = true).
Proof.
  split; [apply (bool_decide_eq_true_1 _); vm_compute; reflexivity|].
  split; [reflexivity|].
  intros (cur' & w' & Hrun & e & Hin & _).
  assert (trace w' = []) as Ht.
  { vm_compute in Hrun. injection Hrun as _ <-. reflexivity. }
  rewrite Ht in Hin. inversion Hin.
Qed.

(** ** Debug instrumentation: what every stage leaves alone *)

Lemma quiet_refl w : quiet w w.
Proof. repeat split. Qed.

Lemma quiet_trans w1 w2 w3 : quiet w1 w2 -> quiet w2 w3 -> quiet w1 w3.
Proof.
  intros (Hf & Hd & He) (Hf' & Hd' & He'). repeat split.
  - congruence.
  - congruence.
  - intros Hoff. rewrite He' by congruence. apply He, Hoff.
Qed.

Lemma debug_events_snoc t e :
  debug_events (t ++ [e]) = debug_events t ++ (if is_debug_event e then [e] else []).
Proof.
  unfold debug_events. rewrite filter_app. f_equal.
  destruct e; reflexivity.
Qed.

Lemma kq_ret {A} (a : A) : keeps_quiet (mret a).
Proof. intros w a' w' H. injection H as <- <-. apply quiet_refl. Qed.

Lemma kq_bind {A B} (m : M A) (f : A -> M B) :
  keeps_quiet m -> (forall a, keeps_quiet (f a)) -> keeps_quiet (m ≫= f).
Proof.
  intros Hm Hf w b w'' H.
  apply bind_inv in H as (a & w' & H1 & H2).
  eapply quiet_trans; [eapply Hm | eapply Hf]; eassumption.
Qed.

Lemma kq_throw {A} : keeps_quiet (@throw A).
Proof. intros w a w' H. discriminate H. Qed.

Lemma kq_for_loop {A} (body : Z -> A -> M A) :
  (forall i a, keeps_quiet (body i a)) ->
  forall n i a, keeps_quiet (for_loop n i body a).
Proof.
  intros Hb n. induction n as [|n IH]; intros i a; simpl.
  - apply kq_ret.
  - apply kq_bind; [apply Hb | intros a'; apply IH].
Qed.

Lemma kq_get_world : keeps_quiet get_world.
Proof. intros w a w' H. injection H as _ <-. apply quiet_refl. Qed.

Lemma kq_ask {A} (f : host -> A) : keeps_quiet (ask f).
Proof. intros w a w' H. injection H as _ <-. apply quiet_refl. Qed.

Lemma kq_date_now : keeps_quiet date_now.
Proof. intros w a w' H. injection H as _ <-. apply quiet_refl. Qed.

Lemma kq_math_random : keeps_quiet math_random.
Proof. intros w a w' H. injection H as _ <-. repeat split. Qed.

Lemma kq_emit e : is_debug_event e = false -> keeps_quiet (emit e).
Proof.
  intros He w a w' H. injection H as _ <-. repeat split.
  simpl. rewrite debug_events_snoc, He. intros _. apply app_nil_r.
Qed.

Lemma kq_store p c : keeps_quiet (store p c).
Proof. intros w a w' H. injection H as _ <-. repeat split. Qed.

Lemma kq_read_image p : keeps_quiet (read_image p).
Proof.
  intros w a w' H. unfold read_image in H.
  destruct (files w !! p) as [[]|]; try discriminate.
  injection H as _ <-. apply quiet_refl.
Qed.

Lemma kq_read_script p : keeps_quiet (read_script p).
Proof.
  intros w a w' H. unfold read_script in H.
  destruct (files w !! p) as [[]|]; try discriminate.
  injection H as _ <-. apply quiet_refl.
Qed.

Lemma kq_unlinkSync p : keeps_quiet (unlinkSync p).
Proof.
  intros w a w' H. unfold unlinkSync in H.
  destruct (files w !! p); [|discriminate].
  injection H as _ <-. repeat split.
  simpl. rewrite debug_events_snoc. intros _. apply app_nil_r.
Qed.

Lemma kq_copyFileSync src dst : keeps_quiet (copyFileSync src dst).
Proof.
  intros w a w' H. unfold copyFileSync in H.
  destruct (files w !! src); [|discriminate].
  injection H as _ <-. repeat split.
  simpl. rewrite debug_events_snoc. intros _. apply app_nil_r.
Qed.

Create HintDb quiet.

#[local] Hint Resolve kq_ret kq_throw kq_get_world kq_ask kq_date_now
  kq_math_random kq_store kq_read_image kq_read_script kq_unlinkSync
  kq_copyFileSync : quiet.
#[local] Hint Extern 1 (keeps_quiet (emit _)) => (apply kq_emit; reflexivity) : quiet.

(** Takes a computation apart along its binds, loops and branches. *)
Ltac quiet_steps :=
  repeat (intros; cbv zeta; first
    [ solve [auto with quiet]
    | apply kq_bind
    | apply kq_for_loop
    | match goal with
      | |- keeps_quiet (if ?b then _ else _) => destruct b
      | |- keeps_quiet (match ?x with _ => _ end) => destruct x
      end ]).

Lemma kq_writeFileSync p c : keeps_quiet (writeFileSync p c).
Proof. unfold writeFileSync. quiet_steps. Qed.

Lemma kq_identify p : keeps_quiet (identify p).
Proof. unfold identify. quiet_steps. Qed.

Lemma kq_batch_skip p : keeps_quiet (batch_skip p).
Proof. unfold batch_skip. quiet_steps. Qed.

Lemma kq_read_images ps : keeps_quiet (Engine.read_images ps).
Proof. induction ps; simpl; quiet_steps. Qed.

Lemma kq_read_scripts ops : keeps_quiet (Engine.read_scripts ops).
Proof. induction ops as [|op ops IH]; simpl; [|destruct op]; quiet_steps. Qed.

#[local] Hint Resolve kq_writeFileSync kq_identify kq_batch_skip kq_read_images
  kq_read_scripts : quiet.

Lemma kq_magick ins ops out : keeps_quiet (Engine.magick ins ops out).
Proof. unfold Engine.magick. quiet_steps. Qed.

Lemma kq_render dpi input out : keeps_quiet (Engine.render dpi input out).
Proof.
  intros w a w' H. unfold Engine.render in H.
  destruct (files w !! input) as [[]|]; try discriminate.
  match type of H with
  | ?m w = _ => assert (keeps_quiet m) as Hk by quiet_steps
  end.
  exact (Hk _ _ _ H).
Qed.

Lemma kq_bounding_box p : keeps_quiet (Engine.bounding_box p).
Proof. unfold Engine.bounding_box. quiet_steps. Qed.

#[local] Hint Resolve kq_magick kq_render kq_bounding_box : quiet.

Lemma kq_dbgLog stage : keeps_quiet (dbgLog stage).
Proof.
  intros w a w' H. unfold dbgLog in H.
  apply bind_inv in H as (w0 & w1 & Hg & H). injection Hg as <- <-.
  destruct (currentDebug w) eqn:Hd.
  - injection H as _ <-. repeat split; simpl. congruence.
  - injection H as _ <-. apply quiet_refl.
Qed.

Lemma kq_dbgSnap stage cur name : keeps_quiet (dbgSnap stage cur name).
Proof.
  intros w a w' H. unfold dbgSnap in H.
  apply bind_inv in H as (w0 & w1 & Hg & H). injection Hg as <- <-.
  destruct (currentDebug w) eqn:Hd; simpl in H.
  - apply bind_inv in H as (u & w1 & Hc & H).
    pose proof (kq_copyFileSync _ _ _ _ _ Hc) as (Hf & Hd' & _).
    injection H as _ <-. repeat split; simpl; congruence.
  - injection H as _ <-. apply quiet_refl.
Qed.

#[local] Hint Resolve kq_dbgLog kq_dbgSnap : quiet.

Lemma kq_applyRotateEffect cur name tmp a p lo hi :
  keeps_quiet (applyRotateEffect cur name tmp a p lo hi).
Proof. unfold applyRotateEffect. quiet_steps. Qed.

Lemma kq_applyWarpEffect cur name tmp a p off sc :
  keeps_quiet (applyWarpEffect cur name tmp a p off sc).
Proof. unfold applyWarpEffect. quiet_steps. Qed.

Lemma kq_scratch_mvg prefix : keeps_quiet (scratch_mvg prefix).
Proof. unfold scratch_mvg. quiet_steps. Qed.

#[local] Hint Resolve kq_scratch_mvg : quiet.

Lemma kq_applyDropoutEffect cur name tmp amt sz p :
  keeps_quiet (applyDropoutEffect cur name tmp amt sz p).
Proof.
  unfold applyDropoutEffect, createMVG, dropout_block. quiet_steps.
Qed.

Lemma kq_applyNoiseWEffect cur name tmp p dens :
  keeps_quiet (applyNoiseWEffect cur name tmp p dens).
Proof.
  unfold applyNoiseWEffect, createSpeckleMVG, speckle_point. quiet_steps.
Qed.

Lemma kq_applyRasterEffect cur name tmp p map :
  keeps_quiet (applyRasterEffect cur name tmp p map).
Proof. unfold applyRasterEffect. quiet_steps. Qed.

Lemma kq_applyTileshiftEffect cur name tmp p n ts tv ox oy ov :
  keeps_quiet (Tileshift.applyTileshiftEffect cur name tmp p n ts tv ox oy ov).
Proof.
  unfold Tileshift.applyTileshiftEffect, Tileshift.tile_step,
    Tileshift.place_tile, Tileshift.randInt.
  quiet_steps.
Qed.

Lemma kq_draw_nonzero fuel : keeps_quiet (Stripes.draw_nonzero fuel).
Proof. induction fuel; simpl; quiet_steps. Qed.

#[local] Hint Resolve kq_draw_nonzero : quiet.

Lemma kq_randGaussian fuel : keeps_quiet (Stripes.randGaussian fuel).
Proof. unfold Stripes.randGaussian. quiet_steps. Qed.

#[local] Hint Resolve kq_randGaussian : quiet.

Lemma kq_applyStripesEffect fuel cur name tmp p n aw ah dens sm lo hi dir ls col :
  keeps_quiet
    (Stripes.applyStripesEffect fuel cur name tmp p n aw ah dens sm lo hi dir ls col).
Proof.
  unfold Stripes.applyStripesEffect, Stripes.cluster, Stripes.speckle,
    Stripes.randInt.
  quiet_steps.
Qed.

Lemma kq_fill buf v o e : keeps_quiet (Buf.fill buf v o e).
Proof. unfold Buf.fill. quiet_steps. Qed.

#[local] Hint Resolve kq_fill : quiet.

Lemma kq_applyStripesWEffect cur name tmp p n tmin tmax smin smax dir ns dist :
  keeps_quiet
    (StripesW.applyStripesWEffect cur name tmp p n tmin tmax smin smax dir ns dist).
Proof.
  unfold StripesW.applyStripesWEffect, StripesW.build_masks,
    StripesW.build_stripeMask, StripesW.stripe_step, StripesW.build_noiseRaw.
  quiet_steps.
Qed.

#[local] Hint Resolve kq_applyRotateEffect kq_applyWarpEffect kq_applyDropoutEffect
  kq_applyNoiseWEffect kq_applyRasterEffect kq_applyTileshiftEffect
  kq_applyStripesEffect kq_applyStripesWEffect : quiet.

Lemma kq_stage_gate a p : keeps_quiet (stage_gate a p).
Proof. unfold stage_gate. quiet_steps. Qed.

Lemma kq_vary d fixed lo hi : keeps_quiet (vary d fixed lo hi).
Proof. unfold vary. quiet_steps. Qed.

#[local] Hint Resolve kq_stage_gate kq_vary : quiet.

Lemma kq_run_mirror cfg d cur : keeps_quiet (run_mirror cfg d cur).
Proof. unfold run_mirror. quiet_steps. Qed.

Lemma kq_in_place d stage ops cur : keeps_quiet (in_place d stage ops cur).
Proof. unfold in_place. quiet_steps. Qed.

#[local] Hint Resolve kq_run_mirror kq_in_place : quiet.

Lemma kq_run_block fuel cfg d b cur : keeps_quiet (run_block fuel cfg d b cur).
Proof. destruct b; unfold run_block; quiet_steps. Qed.

Lemma kq_run_stage fuel cfg d s cur : keeps_quiet (run_stage fuel cfg d s cur).
Proof.
  destruct s; unfold run_stage.
  - quiet_steps.
  - apply kq_run_block.
  - apply kq_bind; [auto with quiet|]. intros _.
    apply kq_bind; [auto with quiet|]. intros _.
    intros w a w' H.
    apply bind_inv in H as (w0 & w1 & Hg & H). injection Hg as <- <-.
    apply bind_inv in H as (u & w1 & Hs & H). injection H as _ <-.
    destruct (currentDebug w) eqn:Hd.
    + apply bind_inv in Hs as (u' & w2 & Hc & H).
      pose proof (kq_copyFileSync _ _ _ _ _ Hc) as (Hf & Hd' & _).
      injection H as _ <-. repeat split; simpl; congruence.
    + injection Hs as _ <-. apply quiet_refl.
  - quiet_steps.
Qed.

Lemma kq_run_stages fuel cfg d ss :
  forall cur, keeps_quiet (run_stages fuel cfg d ss cur).
Proof.
  induction ss as [|s ss IH]; intros cur; simpl.
  - apply kq_ret.
  - apply kq_bind; [apply kq_run_stage | intros cur'; apply IH].
Qed.

(** ** The debug session: first document only *)

Lemma main_loop_cons fuel cfg file rest :
  main_loop fuel cfg (file :: rest)
  = ((if is_pdf file then process_pdf fuel cfg file else mret tt)
       ≫= fun _ => main_loop fuel cfg rest).
Proof. reflexivity. Qed.

Lemma loop_worlds_cons fuel cfg file rest w :
  loop_worlds fuel cfg (file :: rest) w
  = if is_pdf file then
      match begin_doc cfg file w, process_pdf fuel cfg file w with
      | Some ((d, cur), w0), Some (_, w1) =>
          (w0 :: stage_worlds fuel cfg d pipeline cur w0)
          ++ w1 :: loop_worlds fuel cfg rest w1
      | Some ((d, cur), w0), None =>
          w0 :: stage_worlds fuel cfg d pipeline cur w0
      | None, _ => []
      end
    else loop_worlds fuel cfg rest w.
Proof. reflexivity. Qed.

Lemma stage_worlds_quiet fuel cfg d ss :
  forall cur w, Forall (quiet w) (stage_worlds fuel cfg d ss cur w).
Proof.
  induction ss as [|s ss IH]; intros cur w; simpl; [constructor|].
  destruct (run_stage fuel cfg d s cur w) as [[cur' w']|] eqn:E; [|constructor].
  pose proof (kq_run_stage _ _ _ _ _ _ _ _ E) as Hq.
  constructor; [exact Hq|].
  eapply Forall_impl; [apply IH|].
  intros wi Hi. eapply quiet_trans; eassumption.
Qed.

Lemma begin_doc_inv cfg file w d cur w0 :
  begin_doc cfg file w = Some ((d, cur), w0) ->
  isFirstPdf w0 = isFirstPdf w
  /\ currentDebug w0 = Cfg.debugPipeline cfg && isFirstPdf w
  /\ trace w0 = trace w.
Proof. intros H. injection H as _ _ <-. repeat split. Qed.

(** What one run of the loop body does to the flags and to the debug
    output. *)
Lemma process_pdf_inv fuel cfg file w w1 :
  process_pdf fuel cfg file w = Some (tt, w1) ->
  exists d cur w0,
    begin_doc cfg file w = Some ((d, cur), w0)
    /\ Forall (quiet w0) (stage_worlds fuel cfg d pipeline cur w0)
    /\ isFirstPdf w1 = false
    /\ (isFirstPdf w = true -> currentDebug w1 = false)
    /\ (isFirstPdf w = false ->
        currentDebug w1 = false
        /\ debug_events (trace w1) = debug_events (trace w)).
Proof.
  intros H. unfold process_pdf in H.
  apply bind_inv in H as ([d cur] & w0 & Hb & H).
  apply bind_inv in H as (cur' & w' & Hs & He).
  exists d, cur, w0. split; [exact Hb|]. split; [apply stage_worlds_quiet|].
  pose proof (begin_doc_inv _ _ _ _ _ _ Hb) as (Hf0 & Hd0 & Ht0).
  pose proof (kq_run_stages _ _ _ _ _ _ _ _ Hs) as (Hf & Hd & Hev).
  unfold end_doc in He.
  apply bind_inv in He as (u & w2 & Hc & He). injection Hc as _ <-.
  apply bind_inv in He as (w3 & w4 & Hg & He). injection Hg as <- <-.
  simpl in He. rewrite Hf, Hf0 in He.
  destruct (isFirstPdf w) eqn:Hfirst.
  - injection He as <-. repeat split; try reflexivity. discriminate.
  - injection He as <-. simpl.
    rewrite andb_false_r in Hd0.
    repeat split; try congruence.
    rewrite debug_events_snoc, app_nil_r. simpl.
    rewrite Hev by exact Hd0. unfold debug_events. rewrite Ht0. reflexivity.
Qed.

Lemma main_loop_skips_others fuel cfg pre rest w :
  Forall (fun f => is_pdf f = false) pre ->
  main_loop fuel cfg (pre ++ rest) w = main_loop fuel cfg rest w.
Proof.
  induction 1 as [|f pre Hf _ IH]; [reflexivity|].
  rewrite <- app_comm_cons, main_loop_cons, Hf. exact IH.
Qed.


(** Once both flags are off they stay off, and the rest of the batch adds
    nothing to the debug output. *)
Lemma main_loop_after_first fuel cfg listing :
  forall w w_end,
    flags_off w ->
    main_loop fuel cfg listing w = Some (tt, w_end) ->
    flags_off w_end
    /\ debug_events (trace w_end) = debug_events (trace w)
    /\ Forall flags_off (loop_worlds fuel cfg listing w).
Proof.
  induction listing as [|file rest IH]; intros w w_end [Hf Hd] H.
  - injection H as <-. repeat split; auto.
  - rewrite main_loop_cons in H. rewrite loop_worlds_cons.
    destruct (is_pdf file).
    + apply bind_inv in H as ([] & w1 & Hp & H).
      pose proof (process_pdf_inv _ _ _ _ _ Hp)
        as (d & cur & w0 & Hb & Hst & Hf1 & _ & Hoff).
      destruct (Hoff Hf) as [Hd1 Hev1].
      destruct (IH w1 w_end (conj Hf1 Hd1) H) as (Hend & Hev & Hall).
      split; [exact Hend|]. split; [congruence|].
      rewrite Hb, Hp.
      pose proof (begin_doc_inv _ _ _ _ _ _ Hb) as (Hf0 & Hd0 & _).
      rewrite Hf, andb_false_r in Hd0. rewrite Hf in Hf0.
      apply Forall_app. split.
      * constructor; [split; assumption|].
        eapply Forall_impl; [exact Hst|].
        intros wi (Hfi & Hdi & _). split; congruence.
      * constructor; [split; assumption | exact Hall].
    + apply (IH w w_end (conj Hf Hd) H).
Qed.

(** C9.  In a batch run that completes, let [file] be the first PDF of
    the listing.  The flag [isFirstPdf] is true when the loop reaches it
    and at every stage boundary of that document (and [currentDebug] is
    then the configured debug switch); when the document completes both
    flags are false; they are false in every world the rest of the batch
    goes through; and the debug lines and snapshots of the final log are
    those already written when the first document completed. *)
Theorem debug_first_document_only (fuel : nat) (cfg : Cfg.t)
    (pre : list string) (file : string) (post : list string) (w w_end : world) :
  Forall (fun f => is_pdf f = false) pre ->
  is_pdf file = true ->
  faxSim fuel cfg (pre ++ file :: post) w = Some (tt, w_end) ->
  exists d cur w0 w1,
    begin_doc cfg file (boot w) = Some ((d, cur), w0)
    /\ process_pdf fuel cfg file (boot w) = Some (tt, w1)
    /\ main_loop fuel cfg post w1 = Some (tt, w_end)
    /\ isFirstPdf (boot w) = true
    /\ Forall (fun wi => isFirstPdf wi = true
                         /\ currentDebug wi = Cfg.debugPipeline cfg)
         (w0 :: stage_worlds fuel cfg d pipeline cur w0)
    /\ flags_off w1
    /\ Forall flags_off (loop_worlds fuel cfg post w1)
    /\ flags_off w_end
    /\ debug_events (trace w_end) = debug_events (trace w1).
Proof.
  intros Hpre Hpdf H. unfold faxSim in H.
  rewrite main_loop_skips_others in H by exact Hpre.
  rewrite main_loop_cons, Hpdf in H.
  apply bind_inv in H as ([] & w1 & Hp & H).
  pose proof (process_pdf_inv _ _ _ _ _ Hp)
    as (d & cur & w0 & Hb & Hst & Hf1 & Hon & _).
  specialize (Hon eq_refl).
  destruct (main_loop_after_first _ _ _ _ _ (conj Hf1 Hon) H) as (Hend & Hev & Hall).
  exists d, cur, w0, w1.
  pose proof (begin_doc_inv _ _ _ _ _ _ Hb) as (Hf0 & Hd0 & _).
  simpl in Hf0, Hd0. rewrite andb_true_r in Hd0.
  repeat split; try assumption; try reflexivity.
  - constructor; [split; assumption|].
    eapply Forall_impl; [exact Hst|].
    intros wi (Hfi & Hdi & _). split; congruence.
  - apply Hend.
  - apply Hend.
Qed.

Lemma debug_first_document_only_witness :
  match faxSim 2 (Sample.ini true "rotate" Sample.without_stripes (2 # 10))
          Sample.batch_listing Sample.batch_world with
  | Some (_, w_end) => flags_off w_end
  | None => False
  end.
Proof.
  destruct (faxSim 2 (Sample.ini true "rotate" Sample.without_stripes (2 # 10))
              Sample.batch_listing Sample.batch_world) as [[[] w_end]|] eqn:E.
  - destruct (debug_first_document_only 2
                (Sample.ini true "rotate" Sample.without_stripes (2 # 10))
                ["notes.txt"] "doc.pdf" ["b.PDF"] Sample.batch_world w_end)
      as (d & cur & w0 & w1 & _ & _ & _ & _ & _ & _ & _ & Hoff & _).
    + constructor; [vm_compute; reflexivity | constructor].
    + vm_compute. reflexivity.
    + exact E.
    + exact Hoff.
  - vm_compute in E. discriminate E.
Defined.

(** ** The rotate probability is consumed twice *)


Lemma midpoint_above (q : Q) :
  (0 < q)%Q -> (q < 1)%Q ->
  (q < (1 # 2) * (q + 1))%Q /\ (0 <= (1 # 2) * (q + 1))%Q /\ ((1 # 2) * (q + 1) < 1)%Q.
Proof. intros H0 H1. repeat split; lra. Qed.

(** C10.  Outside the debug run, with rotation switched on and a
    probability [p] strictly between 0 and 1, some random stream makes
    the gate of the orchestrator pass and the gate inside
    [applyRotateEffect], which receives the same [p] and draws again,
    fail: the effect hands back its input, disk and I/O log untouched,
    and the block goes on to the mirror step with the unrotated image. *)
Theorem rotate_gated_twice (fuel : nat) (cfg : Cfg.t) (d : doc) (cur : string)
    (w : world) :
  let p := Cfg.rotateBatchPerc cfg in
  (0 < p)%Q -> (p < 1)%Q ->
  Cfg.applyRotate cfg = true ->
  isDebugRun d = false ->
  currentDebug w = false ->
  exists draws : nat -> Q,
    (forall n, (0 <= draws n)%Q /\ (draws n < 1)%Q)
    /\ exists w1 w2,
         stage_gate (enabled cfg d BRotate) (stage_perc d p) (set_rng draws w)
         = Some (true, w1)
         /\ applyRotateEffect cur (d_name d) (os_tmpdir (env w)) true (stage_perc d p)
              (Cfg.rotateMin cfg) (Cfg.rotateMax cfg) w1
            = Some (cur, w2)
         /\ files w2 = files w /\ trace w2 = trace w
         /\ run_block fuel cfg d BRotate cur (set_rng draws w)
            = run_mirror cfg d cur w2.
Proof.
  intros p Hp0 Hp1 Hon Hnd Hdbg.
  set (hi := ((1 # 2) * (p + 1))%Q).
  destruct (midpoint_above p Hp0 Hp1) as (Hhi & Hhi0 & Hhi1). fold hi in Hhi, Hhi0, Hhi1.
  exists (two_draws (rng_pos w) 0 hi). split.
  { intros n. unfold two_draws. destruct (Nat.eqb n (rng_pos w)).
    - split; [apply Qle_refl | reflexivity].
    - split; assumption. }
  assert (enabled cfg d BRotate = true) as Hen
    by (unfold enabled; simpl; rewrite Hon, Hnd; reflexivity).
  assert (stage_perc d p = p) as Hperc by (unfold stage_perc; rewrite Hnd; reflexivity).
  set (w0 := set_rng (two_draws (rng_pos w) 0 hi) w).
  set (w1 := set_rng_pos (S (rng_pos w)) w0).
  set (w2 := set_rng_pos (S (S (rng_pos w))) w0).
  assert (stage_gate true p w0 = Some (true, w1)) as Hgate.
  { unfold stage_gate, mbind, M_bind, math_random, mret, M_ret. simpl.
    unfold two_draws. rewrite Nat.eqb_refl.
    assert (Js.ltb 0 p = true) as -> by (apply ltb_lt; exact Hp0).
    reflexivity. }
  assert (applyRotateEffect cur (d_name d) (os_tmpdir (env w)) true p
            (Cfg.rotateMin cfg) (Cfg.rotateMax cfg) w1 = Some (cur, w2)) as Heff.
  { unfold applyRotateEffect, mbind, M_bind, math_random, mret, M_ret. simpl.
    unfold two_draws.
    assert (Nat.eqb (S (rng_pos w)) (rng_pos w) = false) as ->
      by (apply Nat.eqb_neq; lia).
    assert (Js.gtb hi p = true) as -> by (apply ltb_lt; exact Hhi).
    reflexivity. }
  exists w1, w2. rewrite Hen, Hperc.
  split; [exact Hgate|]. split; [exact Heff|].
  split; [reflexivity|]. split; [reflexivity|].
  unfold run_block. fold p. rewrite Hen, Hperc.
  rewrite (bind_run _ _ _ _ _ Hgate).
  assert (dbgLog "rotate" w1 = Some (tt, w1)) as Hlog
    by (unfold dbgLog, mbind, M_bind, get_world; simpl; rewrite Hdbg; reflexivity).
  rewrite (bind_run _ _ _ _ _ Hlog).
  assert (ask os_tmpdir w1 = Some (os_tmpdir (env w), w1)) as Hask by reflexivity.
  rewrite (bind_run _ _ _ _ _ Hask).
  rewrite (bind_run _ _ _ _ _ Heff).
  assert (dbgSnap "rotate" cur (d_name d) w2 = Some (tt, w2)) as Hsnap
    by (unfold dbgSnap, mbind, M_bind, get_world; simpl; rewrite Hdbg; reflexivity).
  rewrite (bind_run _ _ _ _ _ Hsnap).
  reflexivity.
Qed.

Lemma rotate_gated_twice_witness :
  exists draws : nat -> Q,
    (forall n, (0 <= draws n)%Q /\ (draws n < 1)%Q)
    /\ exists w1 w2,
         stage_gate true (2 # 10) (set_rng draws Sample.quiet_world) = Some (true, w1)
         /\ applyRotateEffect "/tmp/doc_base.png" "doc" "/tmp" true (2 # 10) (- 2) 5 w1
            = Some ("/tmp/doc_base.png", w2)
         /\ files w2 = files Sample.quiet_world
         /\ trace w2 = trace Sample.quiet_world
         /\ run_block 1 (Sample.ini false "" Sample.all_on (2 # 10))
              (Sample.the_doc false) BRotate "/tmp/doc_base.png"
              (set_rng draws Sample.quiet_world)
            = run_mirror (Sample.ini false "" Sample.all_on (2 # 10))
                (Sample.the_doc false) "/tmp/doc_base.png" w2.
Proof.
  apply (rotate_gated_twice 1 (Sample.ini false "" Sample.all_on (2 # 10))
           (Sample.the_doc false) "/tmp/doc_base.png" Sample.quiet_world);
    reflexivity.
Defined.

(** ** Stepping through a computation *)

Lemma math_random_run w :
  math_random w = Some (rng w (rng_pos w), set_rng_pos (S (rng_pos w)) w).
Proof. reflexivity. Qed.

Lemma ask_run {A} (f : host -> A) w : ask f w = Some (f (env w), w).
Proof. reflexivity. Qed.

Lemma identify_run p w i :
  files w !! p = Some (FImage i) ->
  identify p w = Some ((img_w i, img_h i), set_trace (trace w ++ [EvIdentify p]) w).
Proof.
  intros H. unfold identify, mbind, M_bind, read_image. rewrite H. reflexivity.
Qed.

Lemma bounding_box_run p w i :
  files w !! p = Some (FImage i) ->
  Engine.bounding_box p w
  = Some (trim_box (env w) i, set_trace (trace w ++ [EvIdentify p]) w).
Proof.
  intros H. unfold Engine.bounding_box, mbind, M_bind, read_image.
  rewrite H. reflexivity.
Qed.


Lemma magick_run ins ops out w imgs ss :
  Engine.read_images ins w = Some (imgs, w) ->
  Engine.read_scripts ops w = Some (ss, w) ->
  Engine.magick ins ops out w
  = Some (tt, set_trace (trace w ++ [EvMagick ins ops out])
                (set_files (<[out := FImage (magick_result imgs ops ss)]> (files w)) w)).
Proof.
  intros Hr Hs. unfold Engine.magick.
  rewrite (bind_run _ _ _ _ _ Hr), (bind_run _ _ _ _ _ Hs).
  reflexivity.
Qed.

Lemma read_images_one p w i :
  files w !! p = Some (FImage i) -> Engine.read_images [p] w = Some ([i], w).
Proof.
  intros H. simpl. unfold mbind, M_bind, read_image. rewrite H. reflexivity.
Qed.

Lemma read_images_two p q w i j :
  files w !! p = Some (FImage i) -> files w !! q = Some (FImage j) ->
  Engine.read_images [p; q] w = Some ([i; j], w).
Proof.
  intros Hp Hq. simpl. unfold mbind, M_bind, read_image. rewrite Hp, Hq. reflexivity.
Qed.

Lemma read_scripts_draw p w s :
  files w !! p = Some (FScript s) -> Engine.read_scripts [Draw p] w = Some ([s], w).
Proof.
  intros H. simpl. unfold mbind, M_bind, read_script. rewrite H. reflexivity.
Qed.

Lemma unlink_run p w c :
  files w !! p = Some c ->
  unlinkSync p w
  = Some (tt, set_trace (trace w ++ [EvUnlink p]) (set_files (delete p (files w)) w)).
Proof. intros H. unfold unlinkSync. rewrite H. reflexivity. Qed.

Lemma write_run p c w :
  writeFileSync p c w
  = Some (tt, set_trace (trace w ++ [EvWrite p]) (set_files (<[p := c]> (files w)) w)).
Proof. reflexivity. Qed.

(** Runs the first action of the computation in the goal, given a tactic
    that proves what it returns. *)
Ltac flat_world :=
  cbn beta iota zeta delta
    [files trace rng rng_pos clock isFirstPdf currentDebug env
     set_files set_trace set_rng_pos set_flags].
Ltac run_by tac :=
  flat_world; rewrite ?bind_assoc;
  erewrite bind_run by tac; flat_world.
Ltac run_random := run_by ltac:(apply math_random_run).
Ltac run_ask := run_by ltac:(apply ask_run).

(** ** Rotate and warp keep the canvas *)

Lemma rotate_applies cur name tmp p lo hi w i :
  files w !! cur = Some (FImage i) ->
  Js.gtb (rng w (rng_pos w)) p = false ->
  cur <> rotated_path name tmp ->
  exists w' i',
    applyRotateEffect cur name tmp true p lo hi w = Some (rotated_path name tmp, w')
    /\ files w' = delete cur (<[rotated_path name tmp := FImage i']> (files w))
    /\ img_w i' = img_w i /\ img_h i' = img_h i.
Proof.
  intros Hcur Hgate Hne.
  eexists _, _. split; [|split].
  - unfold applyRotateEffect. cbn [negb].
    run_random. rewrite Hgate.
    run_by ltac:(apply identify_run; simpl; eassumption).
    run_random.
    run_by ltac:(apply magick_run;
                 [apply read_images_one; simpl; eassumption | reflexivity]).
    run_by ltac:(eapply unlink_run; simpl;
                 rewrite lookup_insert_ne by congruence; eassumption).
    reflexivity.
  - reflexivity.
  - split; reflexivity.
Qed.

Lemma warp_applies cur name tmp p off sc w i :
  files w !! cur = Some (FImage i) ->
  Js.gtb (rng w (rng_pos w)) p = false ->
  cur <> warp_pad_path name tmp -> cur <> warp_path name tmp ->
  boxes_ok w ->
  exists w' i' padded,
    applyWarpEffect cur name tmp true p off sc w = Some (warp_path name tmp, w')
    /\ files w' = delete (warp_pad_path name tmp)
                    (delete cur (<[warp_path name tmp := FImage i']>
                       (<[warp_pad_path name tmp := FImage padded]> (files w))))
    /\ img_w i' = img_w i /\ img_h i' = img_h i.
Proof.
  intros Hcur Hgate Hpad Hout Hbox.
  assert (warp_pad_path name tmp <> warp_path name tmp) as Hpo.
  { unfold warp_pad_path, warp_path, path_join. intros H.
    apply String.app_inj in H. apply String.app_inj in H. apply String.app_inj in H.
    discriminate H. }
  eexists _, _, _. split; [|split].
  - unfold applyWarpEffect. cbn [negb].
    run_random. rewrite Hgate.
    run_by ltac:(apply identify_run; simpl; eassumption).
    run_ask.
    run_by ltac:(apply magick_run;
                 [apply read_images_one; simpl; eassumption | reflexivity]).
    run_by ltac:(apply bounding_box_run; simpl; apply lookup_insert_eq).
    match goal with
    | |- context [trim_box ?e ?img] =>
        destruct (Hbox img) as [Hw Hh]; simpl env in *;
        set (b := trim_box e img) in *
    end.
    assert ((geo_w b <=? 0) || (geo_h b <=? 0) = false) as ->
      by (apply orb_false_iff; split; apply Z.leb_gt; assumption).
    run_by ltac:(apply magick_run;
                 [apply read_images_one; simpl; apply lookup_insert_eq | reflexivity]).
    run_by ltac:(eapply unlink_run; simpl;
                 rewrite lookup_insert_ne by congruence;
                 rewrite lookup_insert_ne by congruence; eassumption).
    run_by ltac:(eapply unlink_run; simpl;
                 rewrite lookup_delete_ne by congruence;
                 rewrite lookup_insert_ne by congruence;
                 apply lookup_insert_eq).
    reflexivity.
  - reflexivity.
  - split; reflexivity.
Qed.

(** C4.  When a rotate or warp call applies to an image of size (W,H),
    the handle it returns names an image of size (W,H) exactly. *)
Theorem warp_rotate_keep_dimensions (c : effect_call) (cur name tmpDir : string)
    (w : world) (i : image) :
  rotate_or_warp_applies c w ->
  files w !! cur = Some (FImage i) ->
  input_ok c cur name tmpDir ->
  exists out w' i',
    apply_effect c cur name tmpDir w = Some (out, w')
    /\ files w' !! out = Some (FImage i')
    /\ img_w i' = img_w i /\ img_h i' = img_h i.
Proof.
  intros Happ Hcur Hin.
  destruct c as [a p lo hi | a p off sc | | | | | |]; simpl in Happ; try contradiction.
  - destruct Happ as [-> Hgate]. simpl in Hin.
    destruct (rotate_applies cur name tmpDir p lo hi w i Hcur Hgate Hin)
      as (w' & i' & Hrun & Hfiles & Hw & Hh).
    exists (rotated_path name tmpDir), w', i'.
    split; [exact Hrun|]. split; [|split; assumption].
    rewrite Hfiles, lookup_delete_ne by exact Hin. apply lookup_insert_eq.
  - destruct Happ as [[-> Hgate] Hbox]. destruct Hin as [Hpad Hout].
    destruct (warp_applies cur name tmpDir p off sc w i Hcur Hgate Hpad Hout Hbox)
      as (w' & i' & padded & Hrun & Hfiles & Hw & Hh).
    exists (warp_path name tmpDir), w', i'.
    split; [exact Hrun|]. split; [|split; assumption].
    rewrite Hfiles.
    assert (warp_pad_path name tmpDir <> warp_path name tmpDir) as Hpo.
    { unfold warp_pad_path, warp_path, path_join. intros H.
      apply String.app_inj in H. apply String.app_inj in H. apply String.app_inj in H.
      discriminate H. }
    rewrite lookup_delete_ne by exact Hpo.
    rewrite lookup_delete_ne by exact Hout.
    apply lookup_insert_eq.
Qed.

Lemma warp_rotate_keep_dimensions_witness :
  exists out w' i',
    apply_effect (CallWarp true 1 (- 100) (9 # 10)) "/tmp/doc_base.png" "doc" "/tmp"
      Sample.quiet_world = Some (out, w')
    /\ files w' !! out = Some (FImage i')
    /\ img_w i' = 8 /\ img_h i' = 6.
Proof.
  apply (warp_rotate_keep_dimensions (CallWarp true 1 (- 100) (9 # 10))
           "/tmp/doc_base.png" "doc" "/tmp" Sample.quiet_world Sample.page).
  - split; [split; reflexivity|]. intros i. split; reflexivity.
  - reflexivity.
  - split; vm_compute; discriminate.
Defined.

(** ** Floors of scaled draws *)

Lemma floor_nonneg (x : Q) : (0 <= x)%Q -> 0 <= Js.floor x.
Proof.
  intros H. unfold Js.floor.
  change 0 with (Qfloor (inject_Z 0)). apply Qfloor_resp_le. exact H.
Qed.

Lemma floor_below (x : Q) (n : Z) : (x < inject_Z n)%Q -> Js.floor x < n.
Proof.
  intros H. unfold Js.floor.
  rewrite Zlt_Qlt. eapply Qle_lt_trans; [apply Qfloor_le | exact H].
Qed.

(** [Math.floor(Math.random() * n)] is one of [0 .. n-1]. *)
Lemma floor_scaled (r : Q) (n : Z) :
  (0 <= r)%Q -> (r < 1)%Q -> 0 < n ->
  0 <= Js.floor (r * inject_Z n) < n.
Proof.
  intros H0 H1 Hn.
  assert (0 < inject_Z n)%Q as Hq
    by (change 0%Q with (inject_Z 0); rewrite <- Zlt_Qlt; exact Hn).
  split.
  - apply floor_nonneg. apply Qmult_le_0_compat; [exact H0 | apply Qlt_le_weak, Hq].
  - apply floor_below.
    rewrite <- (Qmult_1_l (inject_Z n)) at 2.
    apply Qmult_lt_compat_r; assumption.
Qed.

(** ** Tile-shift: where a tile is pasted *)

Lemma tile_randInt_run (lo hi : Z) (w : world) :
  Tileshift.randInt lo hi w
  = Some (Js.floor (rng w (rng_pos w) * inject_Z (hi - lo + 1)) + lo,
          set_rng_pos (S (rng_pos w)) w).
Proof. reflexivity. Qed.

Lemma tile_randInt_range (lo hi : Z) (r : Q) :
  (0 <= r)%Q -> (r < 1)%Q -> lo <= hi ->
  lo <= Js.floor (r * inject_Z (hi - lo + 1)) + lo <= hi.
Proof.
  intros H0 H1 Hle.
  pose proof (floor_scaled r (hi - lo + 1) H0 H1 ltac:(lia)). lia.
Qed.

(** C8, amended.  Whatever the draws, the pasted tile does not pass the
    right or the bottom edge of the canvas; and when the offsets and the
    two variations are not negative and the largest tile fits the canvas,
    it does not pass the left or the top edge either. *)
Theorem paste_within_canvas (W H tilesSize tilesVariation tilesOffsetX tilesOffsetY
    offsetVariation : Z) (w : world) :
  rng_ok w ->
  exists t w',
    Tileshift.place_tile W H tilesSize tilesVariation tilesOffsetX tilesOffsetY
      offsetVariation w = Some (t, w')
    /\ Tileshift.t_px t + Tileshift.t_ts t <= W
    /\ Tileshift.t_py t + Tileshift.t_ts t <= H
    /\ (0 <= tilesVariation -> 0 <= offsetVariation ->
        0 <= tilesOffsetX -> 0 <= tilesOffsetY ->
        tilesSize + tilesVariation <= W -> tilesSize + tilesVariation <= H ->
        0 <= Tileshift.t_px t /\ 0 <= Tileshift.t_py t).
Proof.
  intros Hrng.
  unfold Tileshift.place_tile.
  eexists _, _. split.
  { do 5 (run_by ltac:(apply tile_randInt_run)). reflexivity. }
  cbn [Tileshift.t_px Tileshift.t_py Tileshift.t_ts rng rng_pos set_rng_pos].
  set (r1 := rng w (rng_pos w)).
  set (r2 := rng w (S (rng_pos w))).
  set (r3 := rng w (S (S (rng_pos w)))).
  set (r4 := rng w (S (S (S (rng_pos w))))).
  set (r5 := rng w (S (S (S (S (rng_pos w)))))).
  set (extra := Js.floor (r1 * inject_Z (tilesVariation - 0 + 1)) + 0).
  set (ts := tilesSize + extra).
  set (x := Js.floor (r2 * inject_Z (W - ts - 0 + 1)) + 0).
  set (y := Js.floor (r3 * inject_Z (H - ts - 0 + 1)) + 0).
  set (jx := Js.floor (r4 * inject_Z (offsetVariation - 0 + 1)) + 0).
  set (jy := Js.floor (r5 * inject_Z (offsetVariation - 0 + 1)) + 0).
  split; [|split].
  - destruct (x + (tilesOffsetX + jx) + ts >? W) eqn:E; [lia|].
    rewrite Z.gtb_ltb in E. apply Z.ltb_ge in E. exact E.
  - destruct (y + (tilesOffsetY + jy) + ts >? H) eqn:E; [lia|].
    rewrite Z.gtb_ltb in E. apply Z.ltb_ge in E. exact E.
  - intros Hv Hov Hox Hoy HW HH.
    destruct (Hrng (rng_pos w)) as [? ?].
    destruct (Hrng (S (rng_pos w))) as [? ?].
    destruct (Hrng (S (S (rng_pos w)))) as [? ?].
    destruct (Hrng (S (S (S (rng_pos w))))) as [? ?].
    destruct (Hrng (S (S (S (S (rng_pos w)))))) as [? ?].
    assert (0 <= extra <= tilesVariation) as He
      by (apply tile_randInt_range; [assumption | assumption | lia]).
    assert (0 <= x <= W - ts) as Hx
      by (apply tile_randInt_range; [assumption | assumption | unfold ts; lia]).
    assert (0 <= y <= H - ts) as Hy
      by (apply tile_randInt_range; [assumption | assumption | unfold ts; lia]).
    assert (0 <= jx <= offsetVariation) as Hjx
      by (apply tile_randInt_range; [assumption | assumption | lia]).
    assert (0 <= jy <= offsetVariation) as Hjy
      by (apply tile_randInt_range; [assumption | assumption | lia]).
    split.
    + destruct (x + (tilesOffsetX + jx) + ts >? W); lia.
    + destruct (y + (tilesOffsetY + jy) + ts >? H); lia.
Qed.

Lemma sample_rng_ok draws first dbg :
  Forall (fun r => (0 <= r)%Q /\ (r < 1)%Q) draws ->
  rng_ok (Sample.world_with draws first dbg).
Proof.
  intros Hall n. simpl. unfold Sample.rng_of.
  revert n. induction Hall as [|r l Hr _ IH]; intros [|n]; simpl.
  - split; [discriminate | reflexivity].
  - split; [discriminate | reflexivity].
  - exact Hr.
  - apply IH.
Qed.

Lemma paste_within_canvas_witness :
  exists t w',
    Tileshift.place_tile 1700 2200 100 200 1 1 1 Sample.quiet_world = Some (t, w')
    /\ Tileshift.t_px t + Tileshift.t_ts t <= 1700
    /\ Tileshift.t_py t + Tileshift.t_ts t <= 2200
    /\ 0 <= Tileshift.t_px t /\ 0 <= Tileshift.t_py t.
Proof.
  destruct (paste_within_canvas 1700 2200 100 200 1 1 1 Sample.quiet_world)
    as (t & w' & Hrun & Hx & Hy & Hlow).
  - apply sample_rng_ok. constructor.
  - exists t, w'. repeat split; try assumption; apply Hlow; lia.
Defined.

(** C8 as stated fails: with the shipped tile sizes (100 plus up to 200)
    on a 100x100 canvas the tile is pasted at x = -100. *)
Lemma paste_within_canvas_counterexample :
  rng_ok Sample.quiet_world
  /\ exists t w',
       Tileshift.place_tile 100 100 100 200 1 1 1 Sample.quiet_world = Some (t, w')
       /\ ~ (0 <= Tileshift.t_px t).
Proof.
  split.
  - apply sample_rng_ok. constructor.
  - eexists _, _. split; [vm_compute; reflexivity|]. vm_compute. intros H. apply H. reflexivity.
Qed.

(** ** Draw scripts: how many marks *)

(** A loop whose body always succeeds and steps an invariant. *)
Lemma for_loop_total {A} (body : Z -> A -> M A) (P : nat -> A -> world -> Prop) :
  (forall k i a w, P k a w -> exists a' w', body i a w = Some (a', w') /\ P (S k) a' w') ->
  forall n i k a w,
    P k a w ->
    exists a' w', for_loop n i body a w = Some (a', w') /\ P (n + k)%nat a' w'.
Proof.
  intros Hbody n. induction n as [|n IH]; intros i k a w HP; simpl.
  - exists a, w. split; [reflexivity | exact HP].
  - destruct (Hbody k i a w HP) as (a1 & w1 & Hrun & HP1).
    destruct (IH (i + 1) (S k) a1 w1 HP1) as (a2 & w2 & Hrest & HP2).
    exists a2, w2. split.
    + rewrite (bind_run _ _ _ _ _ Hrun). exact Hrest.
    + replace (S (n + k)) with (n + S k)%nat by lia. exact HP2.
Qed.

Lemma count_points_snoc (s : list mvg_cmd) (c : mvg_cmd) :
  count_points (s ++ [c]) = (count_points s + if is_point c then 1 else 0)%nat.
Proof.
  unfold count_points. rewrite filter_app, length_app. f_equal.
  destruct c; reflexivity.
Qed.

Lemma count_rectangles_snoc (s : list mvg_cmd) (c : mvg_cmd) :
  count_rectangles (s ++ [c])
  = (count_rectangles s + if is_rectangle c then 1 else 0)%nat.
Proof.
  unfold count_rectangles. rewrite filter_app, length_app. f_equal.
  destruct c; reflexivity.
Qed.



Lemma scratch_mvg_run prefix w :
  scratch_mvg prefix w
  = Some (scratch_name prefix w, set_rng_pos (S (rng_pos w)) w).
Proof. reflexivity. Qed.

(** The speckle loop adds one point per round and touches neither the
    disk nor the log. *)
Lemma speckle_loop W H n : forall i lines w,
  exists lines' w',
    for_loop n i (speckle_point W H) lines w = Some (lines', w')
    /\ count_points lines' = (n + count_points lines)%nat
    /\ files w' = files w /\ trace w' = trace w
    /\ env w' = env w /\ clock w' = clock w.
Proof.
  intros i lines w.
  destruct (for_loop_total (speckle_point W H)
              (fun k l w' => count_points l = (k + count_points lines)%nat
                             /\ files w' = files w /\ trace w' = trace w
                             /\ env w' = env w /\ clock w' = clock w))
    with (n := n) (i := i) (k := O) (a := lines) (w := w)
    as (lines' & w' & Hrun & HP).
  - intros k j l w1 (Hc & Hf & Ht & He & Hk).
    eexists _, _. split.
    + unfold speckle_point. do 2 run_random. reflexivity.
    + rewrite count_points_snoc, Hc. simpl. repeat split; try assumption. lia.
  - repeat split; reflexivity.
  - exists lines', w'. split; [exact Hrun|].
    replace (n + 0)%nat with n in HP by lia. exact HP.
Qed.



(** The block loop adds one rectangle per round and touches neither the
    disk nor the log. *)
Lemma dropout_loop W H bs n : forall i lines w,
  exists lines' w',
    for_loop n i (dropout_block W H bs) lines w = Some (lines', w')
    /\ count_rectangles lines' = (n + count_rectangles lines)%nat
    /\ files w' = files w /\ trace w' = trace w
    /\ env w' = env w /\ clock w' = clock w.
Proof.
  intros i lines w.
  destruct (for_loop_total (dropout_block W H bs)
              (fun k l w' => count_rectangles l = (k + count_rectangles lines)%nat
                             /\ files w' = files w /\ trace w' = trace w
                             /\ env w' = env w /\ clock w' = clock w))
    with (n := n) (i := i) (k := O) (a := lines) (w := w)
    as (lines' & w' & Hrun & HP).
  - intros k j l w1 (Hc & Hf & Ht & He & Hk).
    eexists _, _. split.
    + unfold dropout_block. do 2 run_random. reflexivity.
    + rewrite count_rectangles_snoc, Hc. simpl. repeat split; try assumption. lia.
  - repeat split; reflexivity.
  - exists lines', w'. split; [exact Hrun|].
    replace (n + 0)%nat with n in HP by lia. exact HP.
Qed.





(** ** White stripes: the alpha channel of the overlay *)

(** A loop that stores [f i] at index [i]. *)
Lemma for_pure_store (f : nat -> Z) (n : nat) : forall (s : nat) (l : list Z) (j : nat),
  for_pure n s (fun i m => <[i := f i]> m) l !! j
  = if decide (s <= j < s + n /\ j < length l)%nat then Some (f j) else l !! j.
Proof.
  induction n as [|n IH]; intros s l j; simpl.
  - destruct (decide _) as [[? ?]|]; [lia | reflexivity].
  - rewrite IH, length_insert.
    destruct (decide (j = s)) as [->|Hne].
    + destruct (decide (S s <= s < S s + n /\ s < length l)%nat) as [[? ?]|_]; [lia|].
      destruct (decide (s <= s < s + S n /\ s < length l)%nat) as [[_ Hlen]|Hout].
      * apply list_lookup_insert_eq. exact Hlen.
      * rewrite list_insert_ge by lia. reflexivity.
    + rewrite list_lookup_insert_ne by congruence.
      destruct (decide (S s <= j < S s + n /\ j < length l)%nat) as [[? ?]|H1];
        destruct (decide (s <= j < s + S n /\ j < length l)%nat) as [[? ?]|H2];
        try reflexivity; lia.
Qed.

Lemma paint_length final i o : length (StripesW.paint final i o) = length o.
Proof. unfold StripesW.paint; cbv zeta. rewrite !length_insert. reflexivity. Qed.

Lemma paint_alpha final i o :
  (4 * i + 3 < length o)%nat -> StripesW.paint final i o !! (4 * i + 3)%nat = Some (Buf.get final i).
Proof.
  intros H. unfold StripesW.paint; cbv zeta. apply list_lookup_insert_eq.
  rewrite !length_insert. exact H.
Qed.

Lemma paint_other final i o j c :
  (c < 4)%nat -> j <> i -> StripesW.paint final i o !! (4 * j + c)%nat = o !! (4 * j + c)%nat.
Proof.
  intros Hc Hne. unfold StripesW.paint; cbv zeta.
  rewrite !list_lookup_insert_ne by lia. reflexivity.
Qed.

(** The overlay loop leaves [final[j]] in the alpha byte of every pixel
    [j] it visits. *)
Lemma overlay_alpha (final : list Z) (n : nat) : forall (s : nat) (o : list Z) (j : nat),
  (s <= j < s + n)%nat -> (4 * j + 3 < length o)%nat ->
  for_pure n s (StripesW.paint final) o !! (4 * j + 3)%nat = Some (Buf.get final j).
Proof.
  induction n as [|n IH]; intros s o j Hj Hlen; simpl; [lia|].
  destruct (decide (j = s)) as [->|Hne].
  - clear IH Hj.
    assert (forall m s' o', (s < s')%nat ->
              for_pure m s' (StripesW.paint final) o' !! (4 * s + 3)%nat
              = o' !! (4 * s + 3)%nat) as Hkeep.
    { induction m as [|m IHm]; intros s' o' Hlt; simpl; [reflexivity|].
      rewrite IHm by lia. apply paint_other; lia. }
    rewrite Hkeep by lia. apply paint_alpha. exact Hlen.
  - apply IH; [lia|]. rewrite paint_length. exact Hlen.
Qed.

Lemma alloc_length (n : Z) : length (Buf.alloc n) = Z.to_nat n.
Proof. unfold Buf.alloc. apply length_replicate. Qed.


Lemma for_pure_length {A} (body : nat -> list A -> list A) :
  (forall i l, length (body i l) = length l) ->
  forall n s l, length (for_pure n s body l) = length l.
Proof.
  intros Hb n. induction n as [|n IH]; intros s l; simpl; [reflexivity|].
  rewrite IH. apply Hb.
Qed.

Lemma and_masks_lookup (W H : Z) (stripes noise : list Z) (j : nat) :
  (j < Z.to_nat (W * H))%nat ->
  StripesW.and_masks W H stripes noise !! j
  = Some (if bool_decide (stripes !! j = Some 255) && bool_decide (noise !! j = Some 255)
          then 255 else 0).
Proof.
  intros Hj. unfold StripesW.and_masks.
  rewrite (for_pure_store
             (fun i => if bool_decide (stripes !! i = Some 255)
                          && bool_decide (noise !! i = Some 255)
                       then 255 else 0)).
  rewrite alloc_length.
  destruct (decide _) as [_|Hout]; [reflexivity | lia].
Qed.

Lemma and_masks_length (W H : Z) (stripes noise : list Z) :
  length (StripesW.and_masks W H stripes noise) = Z.to_nat (W * H).
Proof.
  unfold StripesW.and_masks.
  rewrite for_pure_length by (intros; apply length_insert).
  apply alloc_length.
Qed.

(** C5.  In the masks of a white-stripes call, the alpha byte of the
    overlay at a pixel is not 0 exactly when the stripe mask and the
    thresholded noise mask are both 255 there. *)
Theorem overlay_alpha_iff_both_masks (W H amount thickMin thickMax spacingMin
    spacingMax : Z) (dir : string) (noiseSize distort : Q) (w w' : world)
    (ms : StripesW.masks) (j : nat) :
  StripesW.build_masks W H amount thickMin thickMax spacingMin spacingMax dir
    noiseSize distort w = Some (ms, w') ->
  (j < Z.to_nat (W * H))%nat ->
  (exists a, StripesW.overlay ms !! (4 * j + 3)%nat = Some a /\ a <> 0)
  <-> (StripesW.stripeMask ms !! j = Some 255 /\ StripesW.noiseMask ms !! j = Some 255).
Proof.
  intros Hrun Hj. unfold StripesW.build_masks in Hrun.
  apply bind_inv in Hrun as (stripes & w1 & _ & Hrun).
  apply bind_inv in Hrun as (noiseRaw & w2 & _ & Hrun).
  apply bind_inv in Hrun as (blurred & w3 & _ & Hrun).
  injection Hrun as <- _. cbn [StripesW.overlay StripesW.stripeMask StripesW.noiseMask].
  set (noise := StripesW.threshold_noise W H blurred).
  set (final := StripesW.and_masks W H stripes noise).
  assert (StripesW.build_overlay W H final !! (4 * j + 3)%nat = Some (Buf.get final j))
    as Halpha.
  { unfold StripesW.build_overlay. apply (overlay_alpha final).
    - unfold final. rewrite and_masks_length. lia.
    - rewrite alloc_length. lia. }
  rewrite Halpha. unfold Buf.get, final. rewrite and_masks_lookup by exact Hj.
  simpl default.
  destruct (bool_decide (stripes !! j = Some 255)) eqn:Es;
    destruct (bool_decide (noise !! j = Some 255)) eqn:En; simpl.
  - apply bool_decide_eq_true_1 in Es. apply bool_decide_eq_true_1 in En.
    split; [intros _; split; assumption|]. intros _. exists 255. split; [reflexivity|lia].
  - apply bool_decide_eq_false_1 in En.
    split; [intros (a & Ha & Hnz); congruence | intros [_ Hn]; contradiction].
  - apply bool_decide_eq_false_1 in Es.
    split; [intros (a & Ha & Hnz); congruence | intros [Hs _]; contradiction].
  - apply bool_decide_eq_false_1 in Es.
    split; [intros (a & Ha & Hnz); congruence | intros [Hs _]; contradiction].
Qed.

Lemma overlay_alpha_iff_both_masks_witness :
  match StripesW.build_masks 4 2 1 1 1 1 1 "horizontal" 5 (1 # 2) Sample.quiet_world with
  | Some (ms, _) =>
      (exists a, StripesW.overlay ms !! 7%nat = Some a /\ a <> 0)
      <-> (StripesW.stripeMask ms !! 1%nat = Some 255
           /\ StripesW.noiseMask ms !! 1%nat = Some 255)
  | None => False
  end.
Proof.
  destruct (StripesW.build_masks 4 2 1 1 1 1 1 "horizontal" 5 (1 # 2)
              Sample.quiet_world) as [[ms w']|] eqn:E.
  - apply (overlay_alpha_iff_both_masks 4 2 1 1 1 1 1 "horizontal" 5 (1 # 2)
             Sample.quiet_world w' ms 1 E).
    vm_compute. lia.
  - vm_compute in E. discriminate E.
Defined.

(** ** File names *)

Lemma append_assoc (a b c : string) : (a +:+ b) +:+ c = a +:+ (b +:+ c).
Proof.
  induction a as [|x a IH]; [reflexivity|].
  change (String x ((a +:+ b) +:+ c) = String x (a +:+ (b +:+ c))).
  rewrite IH. reflexivity.
Qed.

Lemma append_length (a b : string) :
  String.length (a +:+ b) = (String.length a + String.length b)%nat.
Proof.
  induction a as [|x a IH]; [reflexivity|].
  change (S (String.length (a +:+ b)) = S (String.length a + String.length b)).
  rewrite IH. reflexivity.
Qed.

(** Two names that end in tails of one length agree tail by tail. *)
Lemma append_inj_tail (a b t t' : string) :
  a +:+ t = b +:+ t' -> String.length t = String.length t' -> a = b /\ t = t'.
Proof.
  revert b. induction a as [|x a IH]; intros [|y b] H Hlen.
  - split; [reflexivity | exact H].
  - exfalso. apply (f_equal String.length) in H.
    rewrite !append_length in H. simpl in H. lia.
  - exfalso. apply (f_equal String.length) in H.
    rewrite !append_length in H. simpl in H. lia.
  - change (String x (a +:+ t) = String y (b +:+ t')) in H.
    injection H as -> H. destruct (IH b H Hlen) as [-> ->]. split; reflexivity.
Qed.

Lemma has_suffix_append (suffix a b : string) :
  has_suffix suffix b -> has_suffix suffix (a +:+ b).
Proof.
  intros [s ->]. exists (a +:+ s). symmetry. apply append_assoc.
Qed.

Lemma has_suffix_self (suffix : string) : has_suffix suffix suffix.
Proof. exists "". reflexivity. Qed.

Lemma suffixes_differ (s1 s2 p q : string) :
  String.length s1 = String.length s2 -> s1 <> s2 ->
  has_suffix s1 p -> has_suffix s2 q -> p <> q.
Proof.
  intros Hlen Hne [a ->] [b ->] H.
  destruct (append_inj_tail _ _ _ _ H Hlen) as [_ Heq]. contradiction.
Qed.

Lemma scratch_name_mvg prefix w : has_suffix ".mvg" (scratch_name prefix w).
Proof.
  unfold scratch_name, path_join.
  repeat apply has_suffix_append. apply has_suffix_self.
Qed.

Lemma png_not_mvg (p q : string) : is_png p -> has_suffix ".mvg" q -> p <> q.
Proof. apply suffixes_differ; [reflexivity | discriminate]. Qed.

Lemma path_join_png dir file : is_png file -> is_png (path_join dir file).
Proof. intros H. unfold path_join. repeat apply has_suffix_append. exact H. Qed.

Lemma named_png name suffix : is_png suffix -> is_png (name +:+ suffix).
Proof. apply has_suffix_append. Qed.

(** ** Batch probability 1: the modules one by one *)

(** A loop whose body succeeds in each of its rounds and steps an
    invariant that may mention the round. *)
Lemma for_loop_indexed {A} (body : Z -> A -> M A) (P : nat -> A -> world -> Prop)
    (i0 : Z) (n : nat) :
  (forall k a w, (k < n)%nat -> P k a w ->
     exists a' w', body (i0 + Z.of_nat k) a w = Some (a', w') /\ P (S k) a' w') ->
  forall a w,
    P O a w -> exists a' w', for_loop n i0 body a w = Some (a', w') /\ P n a' w'.
Proof.
  intros Hbody.
  assert (forall m k a w, (m + k = n)%nat -> P k a w ->
            exists a' w', for_loop m (i0 + Z.of_nat k) body a w = Some (a', w')
                          /\ P n a' w') as Hgen.
  { induction m as [|m IH]; intros k a w Hmk HP; simpl.
    - exists a, w. split; [reflexivity|]. replace n with k by lia. exact HP.
    - destruct (Hbody k a w ltac:(lia) HP) as (a1 & w1 & Hrun & HP1).
      destruct (IH (S k) a1 w1 ltac:(lia) HP1) as (a2 & w2 & Hrest & HP2).
      exists a2, w2. split; [|exact HP2].
      rewrite (bind_run _ _ _ _ _ Hrun).
      replace (i0 + Z.of_nat k + 1) with (i0 + Z.of_nat (S k)) by lia.
      exact Hrest. }
  intros a w HP.
  destruct (Hgen n O a w ltac:(lia) HP) as (a' & w' & Hrun & HP').
  exists a', w'. rewrite Z.add_0_r in Hrun. split; assumption.
Qed.

Lemma createMVG_some (W H : Z) (amt sz : Q) (w : world) :
  1 <= dropout_count W H amt sz ->
  exists mvg w' script,
    createMVG W H amt sz w = Some (Some mvg, w')
    /\ has_suffix ".mvg" mvg
    /\ files w' = <[mvg := FScript script]> (files w).
Proof.
  intros Hcount. unfold createMVG.
  assert ((dropout_count W H amt sz <? 1) = false) as -> by (apply Z.ltb_ge; lia).
  destruct (dropout_loop W H (dropout_blockSize sz)
              (Z.to_nat (dropout_count W H amt sz)) 0 (mvg_header W H "white") w)
    as (lines & w1 & Hloop & Hc & Hf & Ht & He & Hk).
  eexists _, _, _. split; [|split].
  - rewrite (bind_run _ _ _ _ _ Hloop). cbn beta zeta.
    run_by ltac:(apply scratch_mvg_run).
    run_by ltac:(apply write_run).
    reflexivity.
  - apply scratch_name_mvg.
  - simpl. rewrite Hf. reflexivity.
Qed.

Lemma createSpeckleMVG_some (W H : Z) (d : Q) (color : string) (w : world) :
  1 <= speckle_count W H d ->
  exists mvg w' script,
    createSpeckleMVG W H d color w = Some (Some mvg, w')
    /\ has_suffix ".mvg" mvg
    /\ files w' = <[mvg := FScript script]> (files w).
Proof.
  intros Hcount. unfold createSpeckleMVG.
  assert ((speckle_count W H d <? 1) = false) as -> by (apply Z.ltb_ge; lia).
  destruct (speckle_loop W H (Z.to_nat (speckle_count W H d)) 0
              (mvg_header W H color) w)
    as (lines & w1 & Hloop & Hc & Hf & Ht & He & Hk).
  eexists _, _, _. split; [|split].
  - rewrite (bind_run _ _ _ _ _ Hloop). cbn beta zeta.
    run_by ltac:(apply scratch_mvg_run).
    run_by ltac:(apply write_run).
    reflexivity.
  - apply scratch_name_mvg.
  - simpl. rewrite Hf. reflexivity.
Qed.

(** The common tail of dropout and white noise: draw the script, delete
    the input and the script. *)
Lemma draw_and_clean (cur out mvg : string) (script : list mvg_cmd) (w : world)
    (i : image) :
  files w !! cur = Some (FImage i) ->
  files w !! mvg = Some (FScript script) ->
  out <> cur -> out <> mvg ->
  exists w',
    (Engine.magick [cur] [Draw mvg] out
       ≫= fun _ => unlinkSync cur ≫= fun _ => unlinkSync mvg ≫= fun _ => mret out) w
    = Some (out, w')
    /\ replaced cur out w'.
Proof.
  intros Hcur Hmvg Hoc Hom.
  assert (cur <> mvg) as Hcm by congruence.
  eexists. split.
  - run_by ltac:(apply magick_run;
                 [apply read_images_one; eassumption
                 | apply read_scripts_draw; eassumption]).
    run_by ltac:(eapply unlink_run; simpl;
                 rewrite lookup_insert_ne by congruence; eassumption).
    run_by ltac:(eapply unlink_run; simpl;
                 rewrite lookup_delete_ne by congruence;
                 rewrite lookup_insert_ne by congruence; eassumption).
    reflexivity.
  - split; [exact Hoc|]. simpl. split.
    + rewrite lookup_delete_ne by congruence. apply lookup_delete_eq.
    + eexists. rewrite lookup_delete_ne by congruence.
      rewrite lookup_delete_ne by congruence. apply lookup_insert_eq.
Qed.

Lemma dropout_applies cur name tmp amt sz p w i :
  (p == 1)%Q ->
  files w !! cur = Some (FImage i) ->
  1 <= dropout_count (img_w i) (img_h i) amt sz ->
  is_png cur -> cur <> dropout_path name tmp ->
  exists w', applyDropoutEffect cur name tmp amt sz p w
             = Some (dropout_path name tmp, w')
             /\ replaced cur (dropout_path name tmp) w'.
Proof.
  intros Hp Hcur Hcount Hpng Hne.
  unfold applyDropoutEffect.
  rewrite (bind_run _ _ _ _ _ (batch_skip_one _ _ Hp)).
  run_by ltac:(apply identify_run; eassumption).
  match goal with
  | |- context [(createMVG _ _ _ _ ≫= _) ?w1] =>
      destruct (createMVG_some (img_w i) (img_h i) amt sz w1 Hcount)
        as (mvg & w2 & script & Hmk & Hsuf & Hf)
  end.
  rewrite (bind_run _ _ _ _ _ Hmk).
  simpl in Hf.
  apply draw_and_clean with (script := script) (i := i).
  - rewrite Hf, lookup_insert_ne; [exact Hcur|].
    apply not_eq_sym, png_not_mvg; assumption.
  - rewrite Hf. apply lookup_insert_eq.
  - congruence.
  - apply png_not_mvg; [|exact Hsuf].
    unfold dropout_path. apply path_join_png, named_png. exists "_rb". reflexivity.
Qed.

Lemma noiseW_applies cur name tmp p dens w i :
  (p == 1)%Q ->
  files w !! cur = Some (FImage i) ->
  1 <= speckle_count (img_w i) (img_h i) dens ->
  is_png cur -> cur <> noiseW_path name tmp ->
  exists w', applyNoiseWEffect cur name tmp p dens w
             = Some (noiseW_path name tmp, w')
             /\ replaced cur (noiseW_path name tmp) w'.
Proof.
  intros Hp Hcur Hcount Hpng Hne.
  unfold applyNoiseWEffect.
  rewrite (bind_run _ _ _ _ _ (batch_skip_one _ _ Hp)).
  run_by ltac:(apply identify_run; eassumption).
  match goal with
  | |- context [(createSpeckleMVG _ _ _ _ ≫= _) ?w1] =>
      destruct (createSpeckleMVG_some (img_w i) (img_h i) dens "white" w1 Hcount)
        as (mvg & w2 & script & Hmk & Hsuf & Hf)
  end.
  rewrite (bind_run _ _ _ _ _ Hmk).
  simpl in Hf.
  apply draw_and_clean with (script := script) (i := i).
  - rewrite Hf, lookup_insert_ne; [exact Hcur|].
    apply not_eq_sym, png_not_mvg; assumption.
  - rewrite Hf. apply lookup_insert_eq.
  - congruence.
  - apply png_not_mvg; [|exact Hsuf].
    unfold noiseW_path. apply path_join_png, named_png. exists "_noiseW". reflexivity.
Qed.

Lemma raster_applies cur name tmp p map w i :
  (p == 1)%Q ->
  files w !! cur = Some (FImage i) ->
  cur <> raster_path name tmp ->
  exists w', applyRasterEffect cur name tmp p map w = Some (raster_path name tmp, w')
             /\ replaced cur (raster_path name tmp) w'.
Proof.
  intros Hp Hcur Hne.
  unfold applyRasterEffect.
  rewrite (bind_run _ _ _ _ _ (batch_skip_one _ _ Hp)).
  eexists. split.
  - run_by ltac:(apply magick_run;
                 [apply read_images_one; eassumption | reflexivity]).
    run_by ltac:(eapply unlink_run; simpl;
                 rewrite lookup_insert_ne by congruence; eassumption).
    reflexivity.
  - split; [congruence|]. simpl. split.
    + apply lookup_delete_eq.
    + eexists. rewrite lookup_delete_ne by congruence. apply lookup_insert_eq.
Qed.

Lemma place_tile_total W H ts tv ox oy ov w :
  exists t n, Tileshift.place_tile W H ts tv ox oy ov w = Some (t, set_rng_pos n w).
Proof.
  unfold Tileshift.place_tile. eexists _, _.
  do 5 (run_by ltac:(apply tile_randInt_run)). reflexivity.
Qed.


Lemma read_scripts_no_draw (ops : list marg) (w : world) :
  existsb is_draw ops = false -> Engine.read_scripts ops w = Some ([], w).
Proof.
  induction ops as [|op ops IH]; intros H; [reflexivity|].
  simpl in H. apply orb_false_iff in H as [Hop Hrest].
  destruct op; try discriminate Hop; simpl; apply IH, Hrest.
Qed.

Lemma tile_loop W H ts tv ox oy ov n : forall i targs w,
  existsb is_draw targs = false ->
  exists targs' k,
    for_loop n i (Tileshift.tile_step W H ts tv ox oy ov) targs w
    = Some (targs', set_rng_pos k w)
    /\ existsb is_draw targs' = false.
Proof.
  intros i targs w Hno.
  destruct (for_loop_total (Tileshift.tile_step W H ts tv ox oy ov)
              (fun _ l w' => existsb is_draw l = false
                             /\ exists k, w' = set_rng_pos k w))
    with (n := n) (i := i) (k := O) (a := targs) (w := w)
    as (targs' & w' & Hrun & Hno' & k & ->).
  - intros _ j l w1 (Hl & k & ->).
    destruct (place_tile_total W H ts tv ox oy ov (set_rng_pos k w)) as (t & m & Ht).
    eexists _, _. split.
    + unfold Tileshift.tile_step. rewrite (bind_run _ _ _ _ _ Ht). reflexivity.
    + split; [|exists m; reflexivity].
      rewrite existsb_app, Hl. reflexivity.
  - split; [exact Hno | exists (rng_pos w); destruct w; reflexivity].
  - exists targs', k. split; assumption.
Qed.

Lemma tileshift_applies cur name tmp p n ts tv ox oy ov w i :
  (p == 1)%Q ->
  files w !! cur = Some (FImage i) ->
  cur <> Tileshift.tiles_path name tmp ->
  exists w', Tileshift.applyTileshiftEffect cur name tmp p n ts tv ox oy ov w
             = Some (Tileshift.tiles_path name tmp, w')
             /\ replaced cur (Tileshift.tiles_path name tmp) w'.
Proof.
  intros Hp Hcur Hne.
  unfold Tileshift.applyTileshiftEffect.
  rewrite (bind_run _ _ _ _ _ (batch_skip_one _ _ Hp)).
  run_by ltac:(apply identify_run; eassumption).
  match goal with
  | |- context [(for_loop ?m ?j ?body ?a ≫= _) ?w1] =>
      destruct (tile_loop (img_w i) (img_h i) ts tv ox oy ov m j a w1 eq_refl)
        as (targs & k & Hloop & Hno)
  end.
  rewrite (bind_run _ _ _ _ _ Hloop). cbn beta zeta.
  eexists. split.
  - run_by ltac:(apply magick_run;
                 [apply read_images_one; simpl; eassumption
                 | apply read_scripts_no_draw; exact Hno]).
    run_by ltac:(eapply unlink_run; simpl;
                 rewrite lookup_insert_ne by congruence; eassumption).
    reflexivity.
  - split; [congruence|]. simpl. split.
    + apply lookup_delete_eq.
    + eexists. rewrite lookup_delete_ne by congruence. apply lookup_insert_eq.
Qed.

(** *** Black stripes *)

Lemma rng_positive_pos n w : rng_positive w -> rng_positive (set_rng_pos n w).
Proof. intros H. exact H. Qed.

Lemma draw_nonzero_run fuel w :
  (1 <= fuel)%nat -> (0 < rng w (rng_pos w))%Q ->
  Stripes.draw_nonzero fuel w
  = Some (rng w (rng_pos w), set_rng_pos (S (rng_pos w)) w).
Proof.
  intros Hfuel Hr. destruct fuel as [|fuel]; [lia|]. simpl.
  run_random.
  destruct (Qeq_bool (rng w (rng_pos w)) 0) eqn:E; [|reflexivity].
  apply Qeq_bool_iff in E. rewrite E in Hr. discriminate Hr.
Qed.

Lemma randGaussian_run fuel w :
  (1 <= fuel)%nat -> rng_positive w ->
  exists g, Stripes.randGaussian fuel w = Some (g, set_rng_pos (S (S (rng_pos w))) w).
Proof.
  intros Hfuel Hrng. unfold Stripes.randGaussian. eexists.
  run_by ltac:(apply draw_nonzero_run; [exact Hfuel | apply Hrng]).
  run_by ltac:(apply draw_nonzero_run; [exact Hfuel | apply Hrng]).
  reflexivity.
Qed.

Lemma speckle_total fuel halfW halfH bw bh sigmaX sigmaY ls j lines w :
  (1 <= fuel)%nat -> rng_positive w ->
  exists lines' n,
    Stripes.speckle fuel halfW halfH bw bh sigmaX sigmaY ls j lines w
    = Some (lines', set_rng_pos n w).
Proof.
  intros Hfuel Hrng. unfold Stripes.speckle.
  destruct (randGaussian_run fuel w Hfuel Hrng) as (gx & Hgx).
  rewrite (bind_run _ _ _ _ _ Hgx). cbn beta zeta.
  destruct (randGaussian_run fuel _ Hfuel (rng_positive_pos (S (S (rng_pos w))) w Hrng))
    as (gy & Hgy).
  rewrite (bind_run _ _ _ _ _ Hgy). cbn beta zeta.
  destruct (_ && _); [eexists _, _; reflexivity|].
  destruct (Js.ltb _ _); [eexists _, _; reflexivity|].
  match goal with
  | |- context [(Stripes.randGaussian fuel ≫= _) ?w2] =>
      destruct (randGaussian_run fuel w2 Hfuel Hrng) as (gj & Hgj)
  end.
  rewrite (bind_run _ _ _ _ _ Hgj). cbn beta zeta.
  run_random.
  destruct (Js.gtb _ _); eexists _, _; reflexivity.
Qed.

Lemma speckle_loop_total fuel halfW halfH bw bh sigmaX sigmaY ls n :
  forall i lines w,
    (1 <= fuel)%nat -> rng_positive w ->
    exists lines' k,
      for_loop n i (Stripes.speckle fuel halfW halfH bw bh sigmaX sigmaY ls) lines w
      = Some (lines', set_rng_pos k w).
Proof.
  intros i lines w Hfuel Hrng.
  destruct (for_loop_total
              (Stripes.speckle fuel halfW halfH bw bh sigmaX sigmaY ls)
              (fun _ _ w' => exists k, w' = set_rng_pos k w))
    with (n := n) (i := i) (k := O) (a := lines) (w := w)
    as (lines' & w' & Hrun & k & ->).
  - intros _ j l w1 (k & ->).
    destruct (speckle_total fuel halfW halfH bw bh sigmaX sigmaY ls j l
                (set_rng_pos k w) Hfuel Hrng) as (l' & m & Hs).
    exists l', (set_rng_pos m w). split; [exact Hs | exists m; reflexivity].
  - exists (rng_pos w). destruct w; reflexivity.
  - exists lines', k. exact Hrun.
Qed.

Lemma blob_has_suffix name tmp a t suffix :
  has_suffix t suffix -> has_suffix t (Stripes.blob name tmp a suffix).
Proof.
  intros H. unfold Stripes.blob, path_join. repeat apply has_suffix_append. exact H.
Qed.

Lemma blob_inj_suffix name tmp a s s' :
  Stripes.blob name tmp a s = Stripes.blob name tmp a s' -> s = s'.
Proof.
  unfold Stripes.blob, path_join. intros H.
  do 5 apply String.app_inj in H. exact H.
Qed.

Lemma blob_comp_inj name tmp a b :
  Stripes.blob name tmp a "_comp.png" = Stripes.blob name tmp b "_comp.png" -> a = b.
Proof.
  unfold Stripes.blob, path_join. intros H.
  do 4 apply String.app_inj in H.
  apply append_inj_tail in H as [H _]; [|reflexivity].
  apply (inj pretty) in H. exact H.
Qed.

(** The composite of an earlier round is none of the names of round
    [b]. *)
Lemma blob_comp_fresh name tmp a b suffix :
  a <> b ->
  suffix ∈ [".mvg"; "_base.png"; "_speck.png"; "_smear.png"; "_comp.png"] ->
  Stripes.blob name tmp a "_comp.png" <> Stripes.blob name tmp b suffix.
Proof.
  intros Hab Hin.
  repeat (apply elem_of_cons in Hin as [->|Hin]); [..|inversion Hin].
  - apply png_not_mvg.
    + apply blob_has_suffix. exists "_comp". reflexivity.
    + apply blob_has_suffix, has_suffix_self.
  - apply (suffixes_differ "_comp.png" "_base.png"); try reflexivity;
      [discriminate | apply blob_has_suffix, has_suffix_self
       | apply blob_has_suffix, has_suffix_self].
  - apply (suffixes_differ "_comp.png" "speck.png"); try reflexivity;
      [discriminate | apply blob_has_suffix, has_suffix_self
       | apply blob_has_suffix; exists "_"; reflexivity].
  - apply (suffixes_differ "_comp.png" "smear.png"); try reflexivity;
      [discriminate | apply blob_has_suffix, has_suffix_self
       | apply blob_has_suffix; exists "_"; reflexivity].
  - intros H. apply blob_comp_inj in H. contradiction.
Qed.

Lemma stripes_randInt_run (lo hi : Z) (w : world) :
  Stripes.randInt lo hi w
  = Some (Js.floor (rng w (rng_pos w) * inject_Z (hi - lo)) + lo,
          set_rng_pos (S (rng_pos w)) w).
Proof. reflexivity. Qed.

Lemma read_images_none w : Engine.read_images [] w = Some ([], w).
Proof. reflexivity. Qed.

(** Looks a name up through the inserts and deletes piled on a disk. *)
Ltac lookup_through :=
  flat_world;
  repeat first
    [ rewrite lookup_insert_eq
    | rewrite lookup_delete_eq
    | rewrite lookup_insert_ne by congruence
    | rewrite lookup_delete_ne by congruence ].


(** One round of the cluster loop: the composite handed in is consumed,
    the round's own composite is what remains of its files, and no other
    name is touched. *)
Lemma cluster_step fuel name tmp W H maxDist aw ah dens sm lo hi dir ls col a
    composite w ic :
  (1 <= fuel)%nat -> rng_positive w ->
  1 <= Stripes.pixelCount aw ah dens ->
  files w !! composite = Some (FImage ic) ->
  (forall s, s ∈ blob_suffixes -> composite <> Stripes.blob name tmp a s) ->
  exists w' img,
    Stripes.cluster fuel name tmp W H maxDist aw ah dens sm lo hi dir ls col a
      composite w = Some (Stripes.blob name tmp a "_comp.png", w')
    /\ rng w' = rng w
    /\ files w' !! Stripes.blob name tmp a "_comp.png" = Some (FImage img)
    /\ files w' !! composite = None
    /\ (forall q, (forall s, s ∈ blob_suffixes -> q <> Stripes.blob name tmp a s) ->
                  q <> composite -> files w' !! q = files w !! q).
Proof.
  intros Hfuel Hrng Hcount Hcomp Hfresh.
  set (mvg := Stripes.blob name tmp a ".mvg").
  set (base := Stripes.blob name tmp a "_base.png").
  set (speck := Stripes.blob name tmp a "_speck.png").
  set (smear := Stripes.blob name tmp a "_smear.png").
  set (comp := Stripes.blob name tmp a "_comp.png").
  assert (composite <> mvg /\ composite <> base /\ composite <> speck
          /\ composite <> smear /\ composite <> comp)
    as (Hc1 & Hc2 & Hc3 & Hc4 & Hc5)
    by (repeat split; apply Hfresh; unfold blob_suffixes; set_solver).
  assert (mvg <> base /\ mvg <> speck /\ mvg <> smear /\ mvg <> comp
          /\ base <> speck /\ base <> smear /\ base <> comp
          /\ speck <> smear /\ speck <> comp /\ smear <> comp)
    as (N1 & N2 & N3 & N4 & N5 & N6 & N7 & N8 & N9 & N10)
    by (repeat split; intros E; apply blob_inj_suffix in E; discriminate E).
  unfold Stripes.cluster.
  do 2 (run_by ltac:(apply stripes_randInt_run)).
  assert ((Stripes.pixelCount aw ah dens <? 1) = false) as ->
    by (apply Z.ltb_ge; lia).
  match goal with
  | |- context [(for_loop ?m ?j ?body ?l ≫= _) ?w1] =>
      destruct (speckle_loop_total fuel
                  (Js.floor (inject_Z aw / 2)) (Js.floor (inject_Z ah / 2)) aw ah
                  (inject_Z aw * (8 # 10) / 2)%Q (inject_Z ah * (8 # 10) / 2)%Q
                  ls m j l w1 Hfuel Hrng) as (lines & k & Hloop)
  end.
  rewrite (bind_run _ _ _ _ _ Hloop). cbn beta zeta.
  fold mvg base speck smear comp.
  run_by ltac:(apply write_run).
  run_by ltac:(apply magick_run; [apply read_images_none | reflexivity]).
  run_by ltac:(apply magick_run;
               [apply read_images_one; lookup_through; reflexivity
               | apply read_scripts_draw; lookup_through; reflexivity]).
  run_by ltac:(eapply unlink_run; lookup_through; reflexivity).
  run_by ltac:(eapply unlink_run; lookup_through; reflexivity).
  destruct sm.
  - run_ask.
    destruct dir as [d|].
    + run_by ltac:(apply ret_run).
      run_by ltac:(apply magick_run;
                   [apply read_images_one; lookup_through; reflexivity | reflexivity]).
      run_by ltac:(eapply unlink_run; lookup_through; reflexivity).
      run_by ltac:(apply ret_run).
      run_by ltac:(apply magick_run;
                   [apply read_images_two; lookup_through;
                    [eassumption | reflexivity]
                   | reflexivity]).
      run_by ltac:(eapply unlink_run; lookup_through; eassumption).
      run_by ltac:(eapply unlink_run; lookup_through; reflexivity).
      eexists _, _. split; [reflexivity|]. split; [reflexivity|].
      split; [lookup_through; reflexivity|].
      split; [lookup_through; reflexivity|].
      intros q Hq Hqc.
      assert (q <> mvg /\ q <> base /\ q <> speck /\ q <> smear /\ q <> comp)
        as (Q1 & Q2 & Q3 & Q4 & Q5)
        by (repeat split; apply Hq; unfold blob_suffixes; set_solver).
      lookup_through. reflexivity.
    + run_random.
      run_by ltac:(apply ret_run).
      run_by ltac:(apply magick_run;
                   [apply read_images_one; lookup_through; reflexivity | reflexivity]).
      run_by ltac:(eapply unlink_run; lookup_through; reflexivity).
      run_by ltac:(apply ret_run).
      run_by ltac:(apply magick_run;
                   [apply read_images_two; lookup_through;
                    [eassumption | reflexivity]
                   | reflexivity]).
      run_by ltac:(eapply unlink_run; lookup_through; eassumption).
      run_by ltac:(eapply unlink_run; lookup_through; reflexivity).
      eexists _, _. split; [reflexivity|]. split; [reflexivity|].
      split; [lookup_through; reflexivity|].
      split; [lookup_through; reflexivity|].
      intros q Hq Hqc.
      assert (q <> mvg /\ q <> base /\ q <> speck /\ q <> smear /\ q <> comp)
        as (Q1 & Q2 & Q3 & Q4 & Q5)
        by (repeat split; apply Hq; unfold blob_suffixes; set_solver).
      lookup_through. reflexivity.
  - run_by ltac:(apply ret_run).
    run_by ltac:(apply magick_run;
                 [apply read_images_two; lookup_through;
                  [eassumption | reflexivity]
                 | reflexivity]).
    run_by ltac:(eapply unlink_run; lookup_through; eassumption).
    run_by ltac:(eapply unlink_run; lookup_through; reflexivity).
    eexists _, _. split; [reflexivity|]. split; [reflexivity|].
    split; [lookup_through; reflexivity|].
    split; [lookup_through; reflexivity|].
    intros q Hq Hqc.
    assert (q <> mvg /\ q <> base /\ q <> speck /\ q <> smear /\ q <> comp)
      as (Q1 & Q2 & Q3 & Q4 & Q5)
      by (repeat split; apply Hq; unfold blob_suffixes; set_solver).
    lookup_through. reflexivity.
Qed.

Lemma stripes_applies fuel cur name tmp p n aw ah dens sm lo hi dir ls col w i :
  (p == 1)%Q ->
  files w !! cur = Some (FImage i) ->
  (1 <= fuel)%nat -> 1 <= n -> 1 <= Stripes.pixelCount aw ah dens ->
  rng_positive w ->
  (forall a s, cur <> Stripes.blob name tmp a s) ->
  exists out w',
    Stripes.applyStripesEffect fuel cur name tmp p n aw ah dens sm lo hi dir ls col w
    = Some (out, w')
    /\ replaced cur out w'.
Proof.
  intros Hp Hcur Hfuel Hn Hcount Hrng Hin.
  unfold Stripes.applyStripesEffect.
  rewrite (bind_run _ _ _ _ _ (batch_skip_one _ _ Hp)).
  run_by ltac:(apply identify_run; eassumption).
  run_ask.
  match goal with
  | |- context [for_loop ?m 0 ?body cur ?w1] =>
      destruct (for_loop_indexed body
                  (fun k composite w' =>
                     rng w' = rng w
                     /\ (exists ic, files w' !! composite = Some (FImage ic))
                     /\ ((k = O /\ composite = cur)
                         \/ ((0 < k)%nat
                             /\ composite = Stripes.blob name tmp (Z.of_nat k - 1) "_comp.png"
                             /\ files w' !! cur = None)))
                  0 m) with (a := cur) (w := w1)
        as (out & w' & Hrun & Hr & [ic Hout] & Hcase)
  end.
  - intros k composite w1 _ (Hr & [ic Hc] & Hcase).
    assert (rng_positive w1) as Hrng1 by (intros m; unfold rng_positive in Hrng; rewrite Hr; apply Hrng).
    assert (forall s, s ∈ blob_suffixes ->
              composite <> Stripes.blob name tmp (0 + Z.of_nat k) s) as Hfresh.
    { intros s Hs. destruct Hcase as [[_ ->] | (Hk & -> & _)].
      - apply Hin.
      - apply blob_comp_fresh; [lia | exact Hs]. }
    destruct (cluster_step fuel name tmp (img_w i) (img_h i)
                (math_hypot (env w) (inject_Z (img_w i) / 2) (inject_Z (img_h i) / 2))
                aw ah dens sm lo hi dir ls col (0 + Z.of_nat k) composite w1 ic
                Hfuel Hrng1 Hcount Hc Hfresh)
      as (w2 & img & Hstep & Hr2 & Hnew & Hgone & Hframe).
    exists (Stripes.blob name tmp (0 + Z.of_nat k) "_comp.png"), w2.
    split; [exact Hstep|].
    split; [congruence|]. split; [exists img; exact Hnew|].
    right. split; [lia|]. split; [f_equal; lia|].
    destruct Hcase as [[_ ->] | (Hk & Hcomp & Hnone)]; [exact Hgone|].
    rewrite Hframe; [exact Hnone | intros s _; apply Hin |].
    rewrite Hcomp. apply Hin.
  - split; [reflexivity|]. split; [exists i; exact Hcur|]. left. split; reflexivity.
  - exists out, w'. split; [exact Hrun|].
    destruct Hcase as [[Hz _] | (Hk & -> & Hnone)]; [lia|].
    split; [apply not_eq_sym, Hin|]. split; [exact Hnone|]. exists ic. exact Hout.
Qed.

(** ** Batch probability 1 *)

Lemma stripesW_in_place cur name tmp p n tmin tmax smin smax dir ns dist w out w' :
  StripesW.applyStripesWEffect cur name tmp p n tmin tmax smin smax dir ns dist w
  = Some (out, w') ->
  out = cur /\ exists i', files w' !! cur = Some (FImage i').
Proof.
  intros H. unfold StripesW.applyStripesWEffect in H.
  apply bind_inv in H as (img & w1 & _ & H).
  apply bind_inv in H as (u1 & w2 & _ & H).
  apply bind_inv in H as (ms & w3 & _ & H).
  apply bind_inv in H as (u2 & w4 & Hw & H).
  injection H as <- <-. rewrite write_run in Hw. injection Hw as _ <-.
  split; [reflexivity|]. eexists. simpl. apply lookup_insert_eq.
Qed.

(** C2, amended.  Called with batch probability 1 on an existing image,
    with parameters that ask for a visible operation and an input handle
    that is not one of the module's own file names, every module that
    reads its batch probability returns a handle other than its input,
    naming an image, and the input file is gone.  The white-stripes
    module instead returns the handle it was given, rewritten in place. *)
Theorem batch_probability_one_replaces (c : effect_call) (cur name tmpDir : string)
    (w : world) (i : image) :
  (batch_probability c == 1)%Q ->
  rng_ok w ->
  files w !! cur = Some (FImage i) ->
  nontrivial c i ->
  input_ok c cur name tmpDir ->
  host_ok c w ->
  if reads_batch_probability c
  then exists out w', apply_effect c cur name tmpDir w = Some (out, w')
                      /\ replaced cur out w'
  else forall out w', apply_effect c cur name tmpDir w = Some (out, w') ->
                      out = cur /\ exists i', files w' !! cur = Some (FImage i').
Proof.
  intros Hp Hrng Hcur Hnt Hin Hhost.
  destruct c as [a p lo hi | a p off sc | amt sz p | p n ts tv ox oy ov | p dens
                | p map | fuel p n aw ah dens sm lo hi dir ls col
                | p n tmin tmax smin smax dir ns dist];
    simpl in Hp, Hnt, Hin, Hhost; simpl reads_batch_probability; cbv iota;
    simpl apply_effect.
  - subst a.
    assert (Js.gtb (rng w (rng_pos w)) p = false) as Hgate
      by (apply gtb_one; [exact Hp | apply Hrng]).
    destruct (rotate_applies cur name tmpDir p lo hi w i Hcur Hgate Hin)
      as (w' & i' & Hrun & Hf & _).
    exists (rotated_path name tmpDir), w'. split; [exact Hrun|].
    split; [congruence|]. rewrite Hf. split.
    + apply lookup_delete_eq.
    + exists i'. rewrite lookup_delete_ne by exact Hin. apply lookup_insert_eq.
  - subst a. destruct Hin as [Hpad Hout].
    assert (Js.gtb (rng w (rng_pos w)) p = false) as Hgate
      by (apply gtb_one; [exact Hp | apply Hrng]).
    destruct (warp_applies cur name tmpDir p off sc w i Hcur Hgate Hpad Hout Hhost)
      as (w' & i' & padded & Hrun & Hf & _).
    assert (warp_pad_path name tmpDir <> warp_path name tmpDir) as Hpo.
    { unfold warp_pad_path, warp_path, path_join. intros H.
      do 3 apply String.app_inj in H. discriminate H. }
    exists (warp_path name tmpDir), w'. split; [exact Hrun|].
    split; [congruence|]. rewrite Hf. split.
    + rewrite lookup_delete_ne by congruence. apply lookup_delete_eq.
    + exists i'. rewrite lookup_delete_ne by exact Hpo.
      rewrite lookup_delete_ne by exact Hout. apply lookup_insert_eq.
  - destruct Hin as [Hpng Hne].
    destruct (dropout_applies cur name tmpDir amt sz p w i Hp Hcur Hnt Hpng Hne)
      as (w' & Hrun & Hrep).
    exists (dropout_path name tmpDir), w'. split; assumption.
  - destruct (tileshift_applies cur name tmpDir p n ts tv ox oy ov w i Hp Hcur Hin)
      as (w' & Hrun & Hrep).
    exists (Tileshift.tiles_path name tmpDir), w'. split; assumption.
  - destruct Hin as [Hpng Hne].
    destruct (noiseW_applies cur name tmpDir p dens w i Hp Hcur Hnt Hpng Hne)
      as (w' & Hrun & Hrep).
    exists (noiseW_path name tmpDir), w'. split; assumption.
  - destruct (raster_applies cur name tmpDir p map w i Hp Hcur Hin)
      as (w' & Hrun & Hrep).
    exists (raster_path name tmpDir), w'. split; assumption.
  - destruct Hnt as (Hfuel & Hn & Hcount).
    apply (stripes_applies fuel cur name tmpDir p n aw ah dens sm lo hi dir ls col w i);
      assumption.
  - intros out w'. apply stripesW_in_place.
Qed.

Lemma batch_probability_one_replaces_witness :
  exists out w',
    apply_effect (CallDropout (1 # 10) 2 1) "/tmp/doc_base.png" "doc" "/tmp"
      Sample.quiet_world = Some (out, w')
    /\ replaced "/tmp/doc_base.png" out w'.
Proof.
  apply (batch_probability_one_replaces (CallDropout (1 # 10) 2 1)
           "/tmp/doc_base.png" "doc" "/tmp" Sample.quiet_world Sample.page).
  - reflexivity.
  - apply sample_rng_ok. constructor.
  - reflexivity.
  - vm_compute. discriminate.
  - split; [exists "/tmp/doc_base"; reflexivity | vm_compute; discriminate].
  - exact I.
Defined.

(** C2 as stated fails on the white-stripes module: called with batch
    probability 1 it hands back the path it was given, and that file is
    still on the disk. *)
Lemma batch_probability_one_counterexample :
  let c := CallStripesW 1 1 1 1 1 1 "horizontal" 5 (1 # 2) in
  (batch_probability c == 1)%Q
  /\ ~ (exists out w', apply_effect c "/tmp/doc_base.png" "doc" "/tmp"
                         Sample.quiet_world = Some (out, w')
                       /\ out <> "/tmp/doc_base.png"
                       /\ files w' !! "/tmp/doc_base.png" = None).
Proof.
  split; [reflexivity|].
  intros (out & w' & Hrun & Hne & _).
  vm_compute in Hrun. injection Hrun as <- _. apply Hne. reflexivity.
Qed.

(** The scenario of the specification: one full-width band, a noise mask
    that keeps everything (no pixel is erased, the blur of the sample
    host is the identity).  The alpha channel of the overlay is the
    stripe mask. *)
Example single_band_overlay :
  match StripesW.build_masks 4 3 1 1 1 0 0 "horizontal" 5 0 Sample.quiet_world with
  | Some (ms, _) =>
      alpha_channel (StripesW.overlay ms) = StripesW.stripeMask ms
      /\ StripesW.stripeMask ms = [0; 0; 0; 0; 255; 255; 255; 255; 0; 0; 0; 0]
  | None => False
  end.
Proof. vm_compute. split; reflexivity. Qed.

(** ** White stripes: the masks are always built *)

Lemma fill_total (buf : list Z) (v o e : Z) (w : world) :
  0 <= o -> 0 <= e <= Z.of_nat (length buf) ->
  exists buf', Buf.fill buf v o e w = Some (buf', w) /\ length buf' = length buf.
Proof.
  intros Ho [He Hlen]. unfold Buf.fill.
  assert ((o <? 0) || (e <? 0) || (Z.of_nat (length buf) <? e) = false) as ->.
  { rewrite !orb_false_iff. repeat split; apply Z.ltb_ge; lia. }
  destruct (e <=? o).
  - exists buf. split; reflexivity.
  - eexists. split; [reflexivity|]. apply length_inserts.
Qed.

(** The fills of one horizontal band. *)
Lemma band_rows_total (W H pos thickness : Z) (mask : list Z) (w : world) :
  0 <= W -> 0 <= pos -> pos + thickness <= H ->
  length mask = Z.to_nat (W * H) ->
  exists mask',
    for_loop (Z.to_nat thickness) pos
      (fun y m => Buf.fill m 255 (y * W) (y * W + W)) mask w = Some (mask', w)
    /\ length mask' = Z.to_nat (W * H).
Proof.
  intros HW Hpos Hfit Hlen.
  destruct (for_loop_indexed (fun y m => Buf.fill m 255 (y * W) (y * W + W))
              (fun _ mk w' => length mk = Z.to_nat (W * H) /\ w' = w)
              pos (Z.to_nat thickness)) with (a := mask) (w := w)
    as (mask' & w' & Hrun & Hl & ->).
  - intros j mk w' Hj [Hmk ->].
    destruct (fill_total mk 255 ((pos + Z.of_nat j) * W) ((pos + Z.of_nat j) * W + W) w)
      as (mk' & Hfill & Hl'); [nia | |].
    { rewrite Hmk. split; [nia|]. rewrite Z2Nat.id by nia. nia. }
    exists mk', w. split; [exact Hfill|]. split; [congruence | reflexivity].
  - split; [exact Hlen | reflexivity].
  - exists mask'. split; assumption.
Qed.

(** The fills of one vertical band. *)
Lemma band_columns_total (W H pos thickness : Z) (mask : list Z) (w : world) :
  0 <= H -> 0 <= pos -> 0 <= thickness -> pos + thickness <= W ->
  length mask = Z.to_nat (W * H) ->
  exists mask',
    for_loop (Z.to_nat H) 0
      (fun y m => Buf.fill m 255 (y * W + pos) (y * W + pos + thickness)) mask w
    = Some (mask', w)
    /\ length mask' = Z.to_nat (W * H).
Proof.
  intros HH Hpos Hth Hfit Hlen.
  destruct (for_loop_indexed
              (fun y m => Buf.fill m 255 (y * W + pos) (y * W + pos + thickness))
              (fun _ mk w' => length mk = Z.to_nat (W * H) /\ w' = w)
              0 (Z.to_nat H)) with (a := mask) (w := w)
    as (mask' & w' & Hrun & Hl & ->).
  - intros j mk w' Hj [Hmk ->].
    destruct (fill_total mk 255 ((0 + Z.of_nat j) * W + pos)
                ((0 + Z.of_nat j) * W + pos + thickness) w)
      as (mk' & Hfill & Hl'); [nia | |].
    { rewrite Hmk. split; [nia|]. rewrite Z2Nat.id by nia. nia. }
    exists mk', w. split; [exact Hfill|]. split; [congruence | reflexivity].
  - split; [exact Hlen | reflexivity].
  - exists mask'. split; assumption.
Qed.

Lemma stripe_step_total (horizontal : bool) (W H amount tmin tmax smin smax i : Z)
    (mask : list Z) (offset : Z) (w : world) :
  rng_ok w -> 0 <= W -> 0 <= H ->
  0 <= tmin <= tmax -> tmax <= (if horizontal then H else W) ->
  length mask = Z.to_nat (W * H) ->
  exists mask' offset' n,
    StripesW.stripe_step horizontal W H amount tmin tmax smin smax i (mask, offset) w
    = Some ((mask', offset'), set_rng_pos n w)
    /\ length mask' = Z.to_nat (W * H).
Proof.
  intros Hrng HW HH Ht Hfit Hlen. unfold StripesW.stripe_step.
  run_random.
  set (thickness := tmin + Js.floor (rng w (rng_pos w) * inject_Z (tmax - tmin + 1))).
  assert (tmin <= thickness <= tmax) as Hth.
  { destruct (Hrng (rng_pos w)) as [H0 H1].
    pose proof (floor_scaled _ (tmax - tmin + 1) H0 H1 ltac:(lia)). unfold thickness. lia. }
  destruct (i <? amount - 1).
  - run_random. run_by ltac:(apply ret_run). run_random.
    match goal with
    | |- context [Z.max 0 (Z.min ?mp ?x)] => set (pos := Z.max 0 (Z.min mp x))
    end.
    destruct horizontal.
    + destruct (band_rows_total W H pos thickness mask
                  (set_rng_pos (S (S (S (rng_pos w)))) w))
        as (mask' & Hrun & Hl); try assumption; [unfold pos; lia.. |].
      rewrite (bind_run _ _ _ _ _ Hrun). eexists _, _, _. split; [reflexivity | exact Hl].
    + destruct (band_columns_total W H pos thickness mask
                  (set_rng_pos (S (S (S (rng_pos w)))) w))
        as (mask' & Hrun & Hl); try assumption; [unfold pos; lia.. |].
      rewrite (bind_run _ _ _ _ _ Hrun). eexists _, _, _. split; [reflexivity | exact Hl].
  - run_by ltac:(apply ret_run). run_random.
    match goal with
    | |- context [Z.max 0 (Z.min ?mp ?x)] => set (pos := Z.max 0 (Z.min mp x))
    end.
    destruct horizontal.
    + destruct (band_rows_total W H pos thickness mask
                  (set_rng_pos (S (S (rng_pos w))) w))
        as (mask' & Hrun & Hl); try assumption; [unfold pos; lia.. |].
      rewrite (bind_run _ _ _ _ _ Hrun). eexists _, _, _. split; [reflexivity | exact Hl].
    + destruct (band_columns_total W H pos thickness mask
                  (set_rng_pos (S (S (rng_pos w))) w))
        as (mask' & Hrun & Hl); try assumption; [unfold pos; lia.. |].
      rewrite (bind_run _ _ _ _ _ Hrun). eexists _, _, _. split; [reflexivity | exact Hl].
Qed.

Lemma build_stripeMask_total (dir : string) (W H amount tmin tmax smin smax : Z)
    (w : world) :
  rng_ok w -> 0 <= W -> 0 <= H ->
  0 <= tmin <= tmax ->
  tmax <= (if bool_decide (dir = "horizontal") then H else W) ->
  exists mask n,
    StripesW.build_stripeMask dir W H amount tmin tmax smin smax w
    = Some (mask, set_rng_pos n w).
Proof.
  intros Hrng HW HH Ht Hfit. unfold StripesW.build_stripeMask.
  run_random.
  match goal with
  | |- context [(for_loop ?m 0 ?body ?st0 ≫= _) ?w1] =>
      destruct (for_loop_indexed body
                  (fun _ st w' => length (fst st) = Z.to_nat (W * H)
                                  /\ exists n, w' = set_rng_pos n w) 0 m)
        with (a := st0) (w := w1) as ([mask offset] & w' & Hrun & _ & n & ->)
  end.
  - intros k [mk off] w' _ [Hl [n ->]].
    destruct (stripe_step_total (bool_decide (dir = "horizontal")) W H amount
                tmin tmax smin smax (0 + Z.of_nat k) mk off (set_rng_pos n w))
      as (mk' & off' & n' & Hstep & Hl'); try assumption.
    exists (mk', off'), (set_rng_pos n' w). split; [exact Hstep|].
    split; [exact Hl' | exists n'; reflexivity].
  - split; [apply alloc_length | eexists; reflexivity].
  - rewrite (bind_run _ _ _ _ _ Hrun). exists mask, n. reflexivity.
Qed.

Lemma build_noiseRaw_total (W H : Z) (distort : Q) (w : world) :
  exists raw n, StripesW.build_noiseRaw W H distort w = Some (raw, set_rng_pos n w).
Proof.
  unfold StripesW.build_noiseRaw.
  match goal with
  | |- context [for_loop ?m 0 ?body ?st0 w] =>
      destruct (for_loop_indexed body (fun _ _ w' => exists n, w' = set_rng_pos n w) 0 m)
        with (a := st0) (w := w) as (raw & w' & Hrun & n & ->)
  end.
  - intros k buf w' _ [n ->]. eexists _, _. split.
    + run_random. reflexivity.
    + eexists. reflexivity.
  - exists (rng_pos w). destruct w; reflexivity.
  - exists raw, n. exact Hrun.
Qed.

(** With thicknesses that fit the image, no [Buffer.fill] is out of
    range: the masks are built. *)
Lemma build_masks_total (W H amount tmin tmax smin smax : Z) (dir : string)
    (ns distort : Q) (w : world) :
  rng_ok w -> 0 <= W -> 0 <= H ->
  0 <= tmin <= tmax ->
  tmax <= (if bool_decide (dir = "horizontal") then H else W) ->
  exists ms w',
    StripesW.build_masks W H amount tmin tmax smin smax dir ns distort w = Some (ms, w').
Proof.
  intros Hrng HW HH Ht Hfit. unfold StripesW.build_masks.
  destruct (build_stripeMask_total dir W H amount tmin tmax smin smax w)
    as (mask & n & Hs); try assumption.
  rewrite (bind_run _ _ _ _ _ Hs).
  destruct (build_noiseRaw_total W H distort (set_rng_pos n w)) as (raw & n' & Hn).
  rewrite (bind_run _ _ _ _ _ Hn).
  run_ask. eexists _, _. reflexivity.
Qed.

(** * Further properties of the code *)

(** ** Where the marks of a draw script fall *)

(** [Math.floor(Math.random() * n)] when [n] may be 0. *)
Lemma floor_scaled_le (r : Q) (n : Z) :
  (0 <= r)%Q -> (r < 1)%Q -> 0 <= n ->
  0 <= Js.floor (r * inject_Z n) /\ Js.floor (r * inject_Z n) <= n
  /\ (0 < n -> Js.floor (r * inject_Z n) < n).
Proof.
  intros H0 H1 Hn.
  destruct (Z.eq_dec n 0) as [->|Hne].
  - assert (Js.floor (r * inject_Z 0) = 0) as ->.
    { unfold Js.floor. replace (r * inject_Z 0)%Q with (r * 0)%Q by reflexivity.
      assert (r * 0 == inject_Z 0)%Q as -> by (simpl; ring).
      apply Qfloor_Z. }
    lia.
  - pose proof (floor_scaled r n H0 H1 ltac:(lia)). lia.
Qed.

Lemma rng_ok_pos n w : rng_ok w -> rng_ok (set_rng_pos n w).
Proof. intros H. exact H. Qed.




Lemma square_world_rng_ok : rng_ok Sample.square_world.
Proof. intros [|n]; simpl; split; first [discriminate | reflexivity]. Qed.


Lemma speckle_loop_on_canvas W H n : forall i lines w,
  rng_ok w -> 0 < W -> 0 < H ->
  forallb (point_on_canvas W H) lines = true ->
  exists lines' k,
    for_loop n i (speckle_point W H) lines w = Some (lines', set_rng_pos k w)
    /\ forallb (point_on_canvas W H) lines' = true.
Proof.
  intros i lines w Hrng HW HH Hall.
  destruct (for_loop_total (speckle_point W H)
              (fun _ l w' => forallb (point_on_canvas W H) l = true
                             /\ exists k, w' = set_rng_pos k w))
    with (n := n) (i := i) (k := O) (a := lines) (w := w)
    as (lines' & w' & Hrun & Hall' & k & ->).
  - intros _ j l w1 (Hl & k & ->).
    eexists _, _. split.
    + unfold speckle_point. do 2 run_random. reflexivity.
    + split; [|eexists; reflexivity].
      rewrite forallb_app, Hl. cbn [forallb point_on_canvas andb].
      destruct (Hrng k) as [Ha Hb]. destruct (Hrng (S k)) as [Hc Hd].
      pose proof (floor_scaled _ W Ha Hb HW) as [? ?].
      pose proof (floor_scaled _ H Hc Hd HH) as [? ?].
      rewrite andb_true_r.
      repeat (apply andb_true_iff; split);
        first [apply Z.leb_le | apply Z.ltb_lt];
        cbn [rng rng_pos set_rng_pos] in *; lia.
  - split; [exact Hall | exists (rng_pos w); destruct w; reflexivity].
  - exists lines', k. split; assumption.
Qed.

(** X2.  Every point of the script [createSpeckleMVG] writes lies on the
    canvas. *)
Theorem speckles_on_canvas (W H : Z) (d : Q) (color : string) (w : world) :
  rng_ok w -> 0 < W -> 0 < H -> 1 <= speckle_count W H d ->
  exists mvg w' script,
    createSpeckleMVG W H d color w = Some (Some mvg, w')
    /\ files w' !! mvg = Some (FScript script)
    /\ forallb (point_on_canvas W H) script = true.
Proof.
  intros Hrng HW HH Hcount. unfold createSpeckleMVG.
  assert ((speckle_count W H d <? 1) = false) as -> by (apply Z.ltb_ge; lia).
  destruct (speckle_loop_on_canvas W H (Z.to_nat (speckle_count W H d)) 0
              (mvg_header W H color) w Hrng HW HH eq_refl)
    as (lines & k & Hloop & Hall).
  eexists _, _, _. split; [|split].
  - rewrite (bind_run _ _ _ _ _ Hloop). cbn beta zeta.
    run_by ltac:(apply scratch_mvg_run).
    run_by ltac:(apply write_run).
    reflexivity.
  - cbn [files set_files set_trace]. apply lookup_insert_eq.
  - rewrite forallb_app, Hall. reflexivity.
Qed.

Lemma speckles_on_canvas_witness :
  exists mvg w' script,
    createSpeckleMVG 100 100 (1 # 100) "white" Sample.square_world = Some (Some mvg, w')
    /\ files w' !! mvg = Some (FScript script)
    /\ forallb (point_on_canvas 100 100) script = true.
Proof.
  apply (speckles_on_canvas 100 100 (1 # 100) "white" Sample.square_world).
  - exact square_world_rng_ok.
  - reflexivity.
  - reflexivity.
  - vm_compute. discriminate.
Defined.



(** ** Tile-shift: where a tile is cut *)

(** X4.  When the size variation is not negative and the largest tile
    fits the canvas, every tile has a side between [tilesSize] and
    [tilesSize + tilesVariation] and is cut from inside the canvas. *)
Theorem tile_cut_within_canvas (W H tilesSize tilesVariation tilesOffsetX
    tilesOffsetY offsetVariation : Z) (w : world) :
  rng_ok w ->
  0 <= tilesVariation ->
  tilesSize + tilesVariation <= W -> tilesSize + tilesVariation <= H ->
  exists t w',
    Tileshift.place_tile W H tilesSize tilesVariation tilesOffsetX tilesOffsetY
      offsetVariation w = Some (t, w')
    /\ tilesSize <= Tileshift.t_ts t <= tilesSize + tilesVariation
    /\ 0 <= Tileshift.t_x t /\ Tileshift.t_x t + Tileshift.t_ts t <= W
    /\ 0 <= Tileshift.t_y t /\ Tileshift.t_y t + Tileshift.t_ts t <= H.
Proof.
  intros Hrng Hv HW HH.
  unfold Tileshift.place_tile.
  eexists _, _. split.
  { do 5 (run_by ltac:(apply tile_randInt_run)). reflexivity. }
  cbn [Tileshift.t_x Tileshift.t_y Tileshift.t_ts rng rng_pos set_rng_pos].
  destruct (Hrng (rng_pos w)) as [Ha Hb].
  destruct (Hrng (S (rng_pos w))) as [Hc Hd].
  destruct (Hrng (S (S (rng_pos w)))) as [He Hf].
  set (extra := Js.floor (rng w (rng_pos w) * inject_Z (tilesVariation - 0 + 1)) + 0).
  set (ts := tilesSize + extra).
  set (x := Js.floor (rng w (S (rng_pos w)) * inject_Z (W - ts - 0 + 1)) + 0).
  set (y := Js.floor (rng w (S (S (rng_pos w))) * inject_Z (H - ts - 0 + 1)) + 0).
  assert (0 <= extra <= tilesVariation) as Hextra
    by (apply tile_randInt_range; [assumption | assumption | lia]).
  assert (0 <= x <= W - ts) as Hx
    by (apply tile_randInt_range; [assumption | assumption | unfold ts; lia]).
  assert (0 <= y <= H - ts) as Hy
    by (apply tile_randInt_range; [assumption | assumption | unfold ts; lia]).
  unfold ts in *. lia.
Qed.

Lemma tile_cut_within_canvas_witness :
  exists t w',
    Tileshift.place_tile 1700 2200 100 200 1 1 1 Sample.quiet_world = Some (t, w')
    /\ 100 <= Tileshift.t_ts t <= 100 + 200
    /\ 0 <= Tileshift.t_x t /\ Tileshift.t_x t + Tileshift.t_ts t <= 1700
    /\ 0 <= Tileshift.t_y t /\ Tileshift.t_y t + Tileshift.t_ts t <= 2200.
Proof.
  apply (tile_cut_within_canvas 1700 2200 100 200 1 1 1 Sample.quiet_world).
  - apply sample_rng_ok. constructor.
  - lia.
  - lia.
  - lia.
Defined.

(** ** Black stripes: the helpers *)

Lemma gtb_gt x y : Js.gtb x y = true <-> (y < x)%Q.
Proof. unfold Js.gtb. apply ltb_lt. Qed.

Lemma gtb_le x y : Js.gtb x y = false <-> (x <= y)%Q.
Proof. unfold Js.gtb. apply ltb_ge. Qed.

(** X5.  [clamp] returns a value between its bounds when they are in
    order, and the value itself when it already lies between them. *)
Theorem clamp_between (val lo hi : Q) :
  (lo <= hi)%Q ->
  (lo <= Stripes.clamp val lo hi)%Q /\ (Stripes.clamp val lo hi <= hi)%Q
  /\ ((lo <= val)%Q -> (val <= hi)%Q -> Stripes.clamp val lo hi = val).
Proof.
  intros Hle. unfold Stripes.clamp.
  destruct (Js.ltb val lo) eqn:E1.
  - apply ltb_lt in E1. split; [apply Qle_refl|]. split; [exact Hle|].
    intros H. apply Qle_not_lt in H. contradiction.
  - apply ltb_ge in E1. destruct (Js.gtb val hi) eqn:E2.
    + apply gtb_gt in E2. split; [exact Hle|]. split; [apply Qle_refl|].
      intros _ H. apply Qle_not_lt in H. contradiction.
    + apply gtb_le in E2. split; [exact E1|]. split; [exact E2|]. reflexivity.
Qed.

Lemma clamp_between_witness :
  (0 <= Stripes.clamp (3 # 2) 0 1)%Q /\ (Stripes.clamp (3 # 2) 0 1 <= 1)%Q
  /\ ((0 <= 3 # 2)%Q -> (3 # 2 <= 1)%Q -> Stripes.clamp (3 # 2) 0 1 = (3 # 2)%Q).
Proof.
  apply (clamp_between (3 # 2) 0 1). discriminate.
Defined.

(** X6.  The rejection loop of [randGaussian] returns the first draw that
    is not 0 and leaves the generator just past it. *)
Theorem draw_nonzero_first_nonzero (fuel : nat) (w : world) (k : nat) :
  (k < fuel)%nat ->
  (forall j, (j < k)%nat -> (rng w (rng_pos w + j)%nat == 0)%Q) ->
  ~ (rng w (rng_pos w + k)%nat == 0)%Q ->
  Stripes.draw_nonzero fuel w
  = Some (rng w (rng_pos w + k)%nat, set_rng_pos (S (rng_pos w + k)) w).
Proof.
  revert fuel w. induction k as [|k IH]; intros fuel w Hfuel Hzero Hnz.
  - destruct fuel as [|fuel]; [lia|]. simpl. run_random.
    rewrite Nat.add_0_r in *.
    destruct (Qeq_bool (rng w (rng_pos w)) 0) eqn:E.
    + apply Qeq_bool_iff in E. contradiction.
    + reflexivity.
  - destruct fuel as [|fuel]; [lia|]. simpl. run_random.
    assert (Qeq_bool (rng w (rng_pos w)) 0 = true) as ->.
    { apply Qeq_bool_iff. specialize (Hzero O ltac:(lia)).
      rewrite Nat.add_0_r in Hzero. exact Hzero. }
    rewrite (IH fuel (set_rng_pos (S (rng_pos w)) w)); cbn [rng rng_pos set_rng_pos].
    + replace (S (rng_pos w) + k)%nat with (rng_pos w + S k)%nat by lia.
      destruct w; reflexivity.
    + lia.
    + intros j Hj. replace (S (rng_pos w) + j)%nat with (rng_pos w + S j)%nat by lia.
      apply Hzero. lia.
    + replace (S (rng_pos w) + k)%nat with (rng_pos w + S k)%nat by lia. exact Hnz.
Qed.

Lemma draw_nonzero_first_nonzero_witness :
  Stripes.draw_nonzero 3 (Sample.world_with [0; 0; 1 # 4]%Q true false)
  = Some ((1 # 4)%Q, set_rng_pos 3 (Sample.world_with [0; 0; 1 # 4]%Q true false)).
Proof.
  apply (draw_nonzero_first_nonzero 3 (Sample.world_with [0; 0; 1 # 4]%Q true false) 2).
  - lia.
  - intros [|[|j]] Hj; [reflexivity | reflexivity | lia].
  - discriminate.
Defined.

(** ** Rotate and warp: what the engine is asked to do *)

Lemma scaled_between (lo hi r : Q) :
  (lo <= hi)%Q -> (0 <= r)%Q -> (r < 1)%Q ->
  (lo <= lo + r * (hi - lo))%Q /\ (lo + r * (hi - lo) <= hi)%Q.
Proof.
  intros Hle H0 H1.
  assert (0 <= hi - lo)%Q as Hd by lra.
  assert (0 <= r * (hi - lo))%Q as Hp by (apply Qmult_le_0_compat; assumption).
  assert (r * (hi - lo) <= 1 * (hi - lo))%Q as Hq
    by (apply Qmult_le_compat_r; [apply Qlt_le_weak; exact H1 | exact Hd]).
  split; lra.
Qed.

(** X7.  A rotate call that applies asks the engine for the size of the
    page, runs one command that rotates by an angle between [rotateMin]
    and [rotateMax], and deletes its input: nothing else. *)
Theorem rotate_angle_in_range (cur name tmpDir : string) (p lo hi : Q) (w : world)
    (i : image) :
  rng_ok w -> (lo <= hi)%Q ->
  files w !! cur = Some (FImage i) ->
  Js.gtb (rng w (rng_pos w)) p = false ->
  cur <> rotated_path name tmpDir ->
  exists angle w',
    applyRotateEffect cur name tmpDir true p lo hi w
    = Some (rotated_path name tmpDir, w')
    /\ (lo <= angle)%Q /\ (angle <= hi)%Q
    /\ trace w'
       = trace w ++ [EvIdentify cur;
                     EvMagick [cur] (rotate_ops angle (img_w i) (img_h i))
                       (rotated_path name tmpDir);
                     EvUnlink cur].
Proof.
  intros Hrng Hle Hcur Hgate Hne.
  eexists _, _. split; [|split; [|split]].
  - unfold applyRotateEffect. cbn [negb].
    run_random. rewrite Hgate.
    run_by ltac:(apply identify_run; simpl; eassumption).
    run_random.
    run_by ltac:(apply magick_run;
                 [apply read_images_one; simpl; eassumption | reflexivity]).
    run_by ltac:(eapply unlink_run; simpl;
                 rewrite lookup_insert_ne by congruence; eassumption).
    reflexivity.
  - destruct (Hrng (S (rng_pos w))) as [H0 H1].
    apply (scaled_between lo hi _ Hle H0 H1).
  - destruct (Hrng (S (rng_pos w))) as [H0 H1].
    apply (scaled_between lo hi _ Hle H0 H1).
  - cbn [trace set_trace]. rewrite <- !app_assoc. reflexivity.
Qed.

Lemma rotate_angle_in_range_witness :
  exists angle w',
    applyRotateEffect "/tmp/doc_base.png" "doc" "/tmp" true 1 (- 2) 5 Sample.quiet_world
    = Some (rotated_path "doc" "/tmp", w')
    /\ (- 2 <= angle)%Q /\ (angle <= 5)%Q
    /\ trace w'
       = trace Sample.quiet_world
         ++ [EvIdentify "/tmp/doc_base.png";
             EvMagick ["/tmp/doc_base.png"]
               (rotate_ops angle (img_w Sample.page) (img_h Sample.page))
               (rotated_path "doc" "/tmp");
             EvUnlink "/tmp/doc_base.png"].
Proof.
  apply (rotate_angle_in_range "/tmp/doc_base.png" "doc" "/tmp" 1 (- 2) 5
           Sample.quiet_world Sample.page).
  - apply sample_rng_ok. constructor.
  - discriminate.
  - reflexivity.
  - reflexivity.
  - vm_compute. discriminate.
Defined.

(** X8.  A warp call that applies to a page of at least 2x2 pixels moves
    the corners by an offset of at most half the shorter side minus one
    pixel, whatever [warpOffsetPx] asks for, and performs exactly these
    steps: size query, pad and warp, bounding-box query, crop and fit,
    deletion of the input and of the padded intermediate. *)
Theorem warp_offset_clamped (cur name tmpDir : string) (p off sc : Q) (w : world)
    (i : image) :
  files w !! cur = Some (FImage i) ->
  Js.gtb (rng w (rng_pos w)) p = false ->
  cur <> warp_pad_path name tmpDir -> cur <> warp_path name tmpDir ->
  boxes_ok w ->
  2 <= img_w i -> 2 <= img_h i ->
  exists o pad geom tw th w',
    applyWarpEffect cur name tmpDir true p off sc w = Some (warp_path name tmpDir, w')
    /\ (- (inject_Z (Z.min (img_w i) (img_h i)) / 2 - 1) <= o)%Q
    /\ (o <= inject_Z (Z.min (img_w i) (img_h i)) / 2 - 1)%Q
    /\ trace w'
       = trace w ++ [EvIdentify cur;
                     EvMagick [cur]
                       (warp_pad_ops (img_w i + 2 * pad) (img_h i + 2 * pad)
                          (warp_ctrl pad (img_w i) (img_h i) o))
                       (warp_pad_path name tmpDir);
                     EvIdentify (warp_pad_path name tmpDir);
                     EvMagick [warp_pad_path name tmpDir]
                       (warp_fit_ops geom tw th (img_w i) (img_h i))
                       (warp_path name tmpDir);
                     EvUnlink cur;
                     EvUnlink (warp_pad_path name tmpDir)].
Proof.
  intros Hcur Hgate Hpad Hout Hbox HW HH.
  assert (warp_pad_path name tmpDir <> warp_path name tmpDir) as Hpo.
  { unfold warp_pad_path, warp_path, path_join. intros E.
    apply String.app_inj in E. apply String.app_inj in E. apply String.app_inj in E.
    discriminate E. }
  assert (0 <= inject_Z (Z.min (img_w i) (img_h i)) / 2 - 1)%Q as Hlim.
  { assert (inject_Z 2 <= inject_Z (Z.min (img_w i) (img_h i)))%Q as Hm
      by (rewrite <- Zle_Qle; lia).
    change (inject_Z 2) with 2%Q in Hm.
    unfold Qdiv. change (/ 2)%Q with (1 # 2)%Q. lra. }
  eexists _, _, _, _, _, _. split; [|split; [|split]].
  - unfold applyWarpEffect. cbn [negb].
    run_random. rewrite Hgate.
    run_by ltac:(apply identify_run; simpl; eassumption).
    run_ask.
    run_by ltac:(apply magick_run;
                 [apply read_images_one; simpl; eassumption | reflexivity]).
    run_by ltac:(apply bounding_box_run; simpl; apply lookup_insert_eq).
    match goal with
    | |- context [trim_box ?e ?img] =>
        destruct (Hbox img) as [Hw Hh]; simpl env in *;
        set (b := trim_box e img) in *
    end.
    assert ((geo_w b <=? 0) || (geo_h b <=? 0) = false) as ->
      by (apply orb_false_iff; split; apply Z.leb_gt; assumption).
    run_by ltac:(apply magick_run;
                 [apply read_images_one; simpl; apply lookup_insert_eq | reflexivity]).
    run_by ltac:(eapply unlink_run; simpl;
                 rewrite lookup_insert_ne by congruence;
                 rewrite lookup_insert_ne by congruence; eassumption).
    run_by ltac:(eapply unlink_run; simpl;
                 rewrite lookup_delete_ne by congruence;
                 rewrite lookup_insert_ne by congruence;
                 apply lookup_insert_eq).
    reflexivity.
  - apply Q.le_max_l.
  - apply Q.max_lub; [lra | apply Q.le_min_l].
  - cbn [trace set_trace]. rewrite <- !app_assoc. reflexivity.
Qed.

Lemma warp_offset_clamped_witness :
  exists o pad geom tw th w',
    applyWarpEffect "/tmp/doc_base.png" "doc" "/tmp" true 1 (- 100) (9 # 10)
      Sample.quiet_world = Some (warp_path "doc" "/tmp", w')
    /\ (- (inject_Z (Z.min (img_w Sample.page) (img_h Sample.page)) / 2 - 1) <= o)%Q
    /\ (o <= inject_Z (Z.min (img_w Sample.page) (img_h Sample.page)) / 2 - 1)%Q
    /\ trace w'
       = trace Sample.quiet_world
         ++ [EvIdentify "/tmp/doc_base.png";
             EvMagick ["/tmp/doc_base.png"]
               (warp_pad_ops (img_w Sample.page + 2 * pad) (img_h Sample.page + 2 * pad)
                  (warp_ctrl pad (img_w Sample.page) (img_h Sample.page) o))
               (warp_pad_path "doc" "/tmp");
             EvIdentify (warp_pad_path "doc" "/tmp");
             EvMagick [warp_pad_path "doc" "/tmp"]
               (warp_fit_ops geom tw th (img_w Sample.page) (img_h Sample.page))
               (warp_path "doc" "/tmp");
             EvUnlink "/tmp/doc_base.png";
             EvUnlink (warp_pad_path "doc" "/tmp")].
Proof.
  apply (warp_offset_clamped "/tmp/doc_base.png" "doc" "/tmp" 1 (- 100) (9 # 10)
           Sample.quiet_world Sample.page).
  - reflexivity.
  - reflexivity.
  - vm_compute. discriminate.
  - vm_compute. discriminate.
  - intros i. split; reflexivity.
  - simpl. lia.
  - simpl. lia.
Defined.

(** ** A missing input *)

Lemma batch_skip_certain (p : Q) (w : world) :
  (1 <= p)%Q -> batch_skip p w = Some (false, w).
Proof.
  intros Hp. unfold batch_skip.
  assert (Js.ltb p 1 = false) as -> by (apply ltb_ge; exact Hp). reflexivity.
Qed.

Lemma identify_missing (p : string) (w : world) :
  files w !! p = None -> identify p w = None.
Proof.
  intros H. unfold identify, mbind, M_bind, read_image. rewrite H. reflexivity.
Qed.

Lemma bind_fail {A B} (m : M A) (f : A -> M B) w :
  m w = None -> (m ≫= f) w = None.
Proof. intros H. unfold mbind, M_bind. rewrite H. reflexivity. Qed.

(** X9.  Called on a handle that names no file, with a batch probability
    of 1 or more, every module that is switched on throws. *)
Theorem missing_input_throws (c : effect_call) (cur name tmpDir : string) (w : world) :
  rng_ok w ->
  files w !! cur = None ->
  (1 <= batch_probability c)%Q ->
  switched_on c = true ->
  apply_effect c cur name tmpDir w = None.
Proof.
  intros Hrng Hcur Hp Hon.
  assert (Js.gtb (rng w (rng_pos w)) (batch_probability c) = false) as Hgate.
  { apply gtb_le. destruct (Hrng (rng_pos w)) as [_ H1]. lra. }
  destruct c; simpl in Hp, Hon, Hgate |- *.
  - subst. unfold applyRotateEffect. cbn [negb]. run_random. rewrite Hgate.
    apply bind_fail, identify_missing. exact Hcur.
  - subst. unfold applyWarpEffect. cbn [negb]. run_random. rewrite Hgate.
    apply bind_fail, identify_missing. exact Hcur.
  - unfold applyDropoutEffect.
    rewrite (bind_run _ _ _ _ _ (batch_skip_certain _ _ Hp)).
    apply bind_fail, identify_missing. exact Hcur.
  - unfold Tileshift.applyTileshiftEffect.
    rewrite (bind_run _ _ _ _ _ (batch_skip_certain _ _ Hp)).
    apply bind_fail, identify_missing. exact Hcur.
  - unfold applyNoiseWEffect.
    rewrite (bind_run _ _ _ _ _ (batch_skip_certain _ _ Hp)).
    apply bind_fail, identify_missing. exact Hcur.
  - unfold applyRasterEffect.
    rewrite (bind_run _ _ _ _ _ (batch_skip_certain _ _ Hp)).
    apply bind_fail. unfold Engine.magick. apply bind_fail.
    simpl. apply bind_fail. unfold read_image. rewrite Hcur. reflexivity.
  - unfold Stripes.applyStripesEffect.
    rewrite (bind_run _ _ _ _ _ (batch_skip_certain _ _ Hp)).
    apply bind_fail, identify_missing. exact Hcur.
  - unfold StripesW.applyStripesWEffect.
    apply bind_fail. unfold read_image. rewrite Hcur. reflexivity.
Qed.

Lemma missing_input_throws_witness :
  apply_effect (CallRaster 1 "o4x4") "/tmp/none.png" "doc" "/tmp" Sample.quiet_world
  = None.
Proof.
  apply (missing_input_throws (CallRaster 1 "o4x4") "/tmp/none.png" "doc" "/tmp"
           Sample.quiet_world).
  - apply sample_rng_ok. constructor.
  - reflexivity.
  - discriminate.
  - reflexivity.
Defined.

(** ** White stripes: what the masks and the overlay hold *)

(** A loop keeps what every successful round of its body keeps. *)
Lemma for_loop_preserves {A} (body : Z -> A -> M A) (P : A -> Prop) :
  (forall i a w a' w', P a -> body i a w = Some (a', w') -> P a') ->
  forall n i a w a' w', P a -> for_loop n i body a w = Some (a', w') -> P a'.
Proof.
  intros Hb n. induction n as [|n IH]; intros i a w a' w' HP Hrun; simpl in Hrun.
  - injection Hrun as <- _. exact HP.
  - apply bind_inv in Hrun as (a1 & w1 & H1 & Hrun).
    eapply IH; [|exact Hrun]. eapply Hb; eassumption.
Qed.

Lemma fill_binary (buf buf' : list Z) (o e : Z) (w w' : world) :
  Forall (fun v => v = 0 \/ v = 255) buf ->
  Buf.fill buf 255 o e w = Some (buf', w') ->
  Forall (fun v => v = 0 \/ v = 255) buf'.
Proof.
  intros Hall Hrun. unfold Buf.fill in Hrun.
  destruct (_ || _); [discriminate|].
  destruct (e <=? o); [injection Hrun as <- _; exact Hall|].
  injection Hrun as <- _.
  apply Forall_lookup. intros j v Hj.
  apply list_lookup_inserts_Some in Hj as [[_ Hj] | (_ & _ & Hj)].
  - exact (proj1 (Forall_lookup _ _) Hall j v Hj).
  - apply lookup_replicate in Hj as [-> _]. right. reflexivity.
Qed.

Lemma fill_length (buf buf' : list Z) (v o e : Z) (w w' : world) :
  Buf.fill buf v o e w = Some (buf', w') -> length buf' = length buf.
Proof.
  intros Hrun. unfold Buf.fill in Hrun.
  destruct (_ || _); [discriminate|].
  destruct (e <=? o); injection Hrun as <- _; [reflexivity | apply length_inserts].
Qed.

Lemma stripe_step_binary horizontal W H amount tmin tmax smin smax i st w st' w' :
  Forall (fun v => v = 0 \/ v = 255) (fst st) /\ length (fst st) = Z.to_nat (W * H) ->
  StripesW.stripe_step horizontal W H amount tmin tmax smin smax i st w
  = Some (st', w') ->
  Forall (fun v => v = 0 \/ v = 255) (fst st') /\ length (fst st') = Z.to_nat (W * H).
Proof.
  destruct st as [mask offset]. intros Hall Hrun. simpl in Hall.
  unfold StripesW.stripe_step in Hrun.
  apply bind_inv in Hrun as (r1 & w1 & _ & Hrun).
  apply bind_inv in Hrun as (spacing & w2 & _ & Hrun).
  apply bind_inv in Hrun as (r3 & w3 & _ & Hrun).
  apply bind_inv in Hrun as (mask' & w4 & Hfill & Hrun).
  injection Hrun as <- _. simpl.
  destruct horizontal.
  - eapply (for_loop_preserves _
              (fun m => Forall (fun v => v = 0 \/ v = 255) m
                        /\ length m = Z.to_nat (W * H))); [|exact Hall|exact Hfill].
    intros y m wa m' wb [Hm Hl] Hf. split.
    + eapply fill_binary; eassumption.
    + rewrite (fill_length _ _ _ _ _ _ _ Hf). exact Hl.
  - eapply (for_loop_preserves _
              (fun m => Forall (fun v => v = 0 \/ v = 255) m
                        /\ length m = Z.to_nat (W * H))); [|exact Hall|exact Hfill].
    intros y m wa m' wb [Hm Hl] Hf. split.
    + eapply fill_binary; eassumption.
    + rewrite (fill_length _ _ _ _ _ _ _ Hf). exact Hl.
Qed.

Lemma threshold_noise_lookup (W H : Z) (blurred : list Z) (j : nat) (v : Z) :
  StripesW.threshold_noise W H blurred !! j = Some v -> v = 0 \/ v = 255.
Proof.
  unfold StripesW.threshold_noise.
  rewrite (for_pure_store
             (fun i => if Buf.get blurred i >? StripesW.thresh then 255 else 0)).
  destruct (decide _) as [_|_].
  - intros E. injection E as <-. destruct (_ >? _); [right | left]; reflexivity.
  - intros E. unfold Buf.alloc in E. apply lookup_replicate in E as [-> _].
    left. reflexivity.
Qed.

Lemma threshold_noise_length (W H : Z) (blurred : list Z) :
  length (StripesW.threshold_noise W H blurred) = Z.to_nat (W * H).
Proof.
  unfold StripesW.threshold_noise.
  rewrite for_pure_length by (intros; apply length_insert).
  apply alloc_length.
Qed.

(** X10.  Whatever the blur routine returns, the three masks of a
    white-stripes call hold one byte per pixel, each 0 or 255. *)
Theorem masks_are_binary (W H amount thickMin thickMax spacingMin spacingMax : Z)
    (dir : string) (noiseSize distort : Q) (w w' : world) (ms : StripesW.masks) :
  StripesW.build_masks W H amount thickMin thickMax spacingMin spacingMax dir
    noiseSize distort w = Some (ms, w') ->
  (Forall (fun v => v = 0 \/ v = 255) (StripesW.stripeMask ms)
   /\ length (StripesW.stripeMask ms) = Z.to_nat (W * H))
  /\ (Forall (fun v => v = 0 \/ v = 255) (StripesW.noiseMask ms)
      /\ length (StripesW.noiseMask ms) = Z.to_nat (W * H))
  /\ (Forall (fun v => v = 0 \/ v = 255) (StripesW.finalMask ms)
      /\ length (StripesW.finalMask ms) = Z.to_nat (W * H)).
Proof.
  intros Hrun. unfold StripesW.build_masks in Hrun.
  apply bind_inv in Hrun as (stripes & w1 & Hs & Hrun).
  apply bind_inv in Hrun as (noiseRaw & w2 & _ & Hrun).
  apply bind_inv in Hrun as (blurred & w3 & _ & Hrun).
  injection Hrun as <- _.
  cbn [StripesW.stripeMask StripesW.noiseMask StripesW.finalMask].
  split; [|split].
  - unfold StripesW.build_stripeMask in Hs.
    apply bind_inv in Hs as (r & w0 & _ & Hs).
    apply bind_inv in Hs as (st & w4 & Hloop & Hs).
    injection Hs as <- _.
    eapply (for_loop_preserves _
              (fun st => Forall (fun v => v = 0 \/ v = 255) (fst st)
                         /\ length (fst st) = Z.to_nat (W * H))); [| |exact Hloop].
    + intros i a wa a' wb Ha Hstep. eapply stripe_step_binary; eassumption.
    + simpl. split; [|apply alloc_length].
      unfold Buf.alloc. apply Forall_replicate. left. reflexivity.
  - split; [|apply threshold_noise_length].
    apply Forall_lookup. intros j v Hj. eapply threshold_noise_lookup. exact Hj.
  - split; [|apply and_masks_length].
    apply Forall_lookup. intros j v Hj.
    assert (j < Z.to_nat (W * H))%nat as Hlt
      by (rewrite <- (and_masks_length W H stripes (StripesW.threshold_noise W H blurred));
          eapply lookup_lt_Some; exact Hj).
    rewrite and_masks_lookup in Hj by exact Hlt.
    injection Hj as <-. destruct (_ && _); [right | left]; reflexivity.
Qed.

Lemma masks_are_binary_witness :
  match StripesW.build_masks 4 2 1 1 1 1 1 "horizontal" 5 (1 # 2) Sample.quiet_world with
  | Some (ms, _) =>
      (Forall (fun v => v = 0 \/ v = 255) (StripesW.stripeMask ms)
       /\ length (StripesW.stripeMask ms) = Z.to_nat (4 * 2))
      /\ (Forall (fun v => v = 0 \/ v = 255) (StripesW.noiseMask ms)
          /\ length (StripesW.noiseMask ms) = Z.to_nat (4 * 2))
      /\ (Forall (fun v => v = 0 \/ v = 255) (StripesW.finalMask ms)
          /\ length (StripesW.finalMask ms) = Z.to_nat (4 * 2))
  | None => False
  end.
Proof.
  destruct (StripesW.build_masks 4 2 1 1 1 1 1 "horizontal" 5 (1 # 2)
              Sample.quiet_world) as [[ms w']|] eqn:E.
  - exact (masks_are_binary 4 2 1 1 1 1 1 "horizontal" 5 (1 # 2)
             Sample.quiet_world w' ms E).
  - vm_compute in E. discriminate E.
Defined.

Lemma paint_colour final i o c :
  (c < 3)%nat -> (4 * i + 3 < length o)%nat ->
  StripesW.paint final i o !! (4 * i + c)%nat = Some 255.
Proof.
  intros Hc Hlen. unfold StripesW.paint; cbv zeta.
  rewrite list_lookup_insert_ne by lia.
  destruct c as [|[|[|c]]]; [| | |lia].
  - rewrite !list_lookup_insert_ne by lia. apply list_lookup_insert_eq. lia.
  - rewrite list_lookup_insert_ne by lia. apply list_lookup_insert_eq.
    rewrite length_insert. lia.
  - apply list_lookup_insert_eq. rewrite !length_insert. lia.
Qed.

Lemma overlay_colour (final : list Z) (n : nat) :
  forall (s : nat) (o : list Z) (j c : nat),
    (c < 3)%nat -> (s <= j < s + n)%nat -> (4 * j + 3 < length o)%nat ->
    for_pure n s (StripesW.paint final) o !! (4 * j + c)%nat = Some 255.
Proof.
  induction n as [|n IH]; intros s o j c Hc Hj Hlen; simpl; [lia|].
  destruct (decide (j = s)) as [->|Hne].
  - clear IH Hj.
    assert (forall m s' o', (s < s')%nat ->
              for_pure m s' (StripesW.paint final) o' !! (4 * s + c)%nat
              = o' !! (4 * s + c)%nat) as Hkeep.
    { induction m as [|m IHm]; intros s' o' Hlt; simpl; [reflexivity|].
      rewrite IHm by lia. apply paint_other; lia. }
    rewrite Hkeep by lia. apply paint_colour; assumption.
  - apply IH; [exact Hc | lia |]. rewrite paint_length. exact Hlen.
Qed.

(** X11.  The overlay of a white-stripes call has four bytes per pixel and
    is white everywhere: the three colour bytes of every pixel are 255. *)
Theorem overlay_is_white (W H amount thickMin thickMax spacingMin spacingMax : Z)
    (dir : string) (noiseSize distort : Q) (w w' : world) (ms : StripesW.masks)
    (j c : nat) :
  StripesW.build_masks W H amount thickMin thickMax spacingMin spacingMax dir
    noiseSize distort w = Some (ms, w') ->
  0 <= W * H ->
  (j < Z.to_nat (W * H))%nat -> (c < 3)%nat ->
  length (StripesW.overlay ms) = (4 * Z.to_nat (W * H))%nat
  /\ StripesW.overlay ms !! (4 * j + c)%nat = Some 255.
Proof.
  intros Hrun HWH Hj Hc. unfold StripesW.build_masks in Hrun.
  apply bind_inv in Hrun as (stripes & w1 & _ & Hrun).
  apply bind_inv in Hrun as (noiseRaw & w2 & _ & Hrun).
  apply bind_inv in Hrun as (blurred & w3 & _ & Hrun).
  injection Hrun as <- _. cbn [StripesW.overlay].
  unfold StripesW.build_overlay.
  assert (length (Buf.alloc (W * H * 4)) = (4 * Z.to_nat (W * H))%nat) as Hlen
    by (rewrite alloc_length; lia).
  split.
  - rewrite for_pure_length by (intros; apply paint_length). exact Hlen.
  - apply overlay_colour; [exact Hc | | lia].
    rewrite and_masks_length. lia.
Qed.

Lemma overlay_is_white_witness :
  match StripesW.build_masks 4 2 1 1 1 1 1 "horizontal" 5 (1 # 2) Sample.quiet_world with
  | Some (ms, _) =>
      length (StripesW.overlay ms) = (4 * Z.to_nat (4 * 2))%nat
      /\ StripesW.overlay ms !! (4 * 5 + 2)%nat = Some 255
  | None => False
  end.
Proof.
  destruct (StripesW.build_masks 4 2 1 1 1 1 1 "horizontal" 5 (1 # 2)
              Sample.quiet_world) as [[ms w']|] eqn:E.
  - apply (overlay_is_white 4 2 1 1 1 1 1 "horizontal" 5 (1 # 2)
             Sample.quiet_world w' ms 5 2 E); [lia | vm_compute; lia | lia].
  - vm_compute in E. discriminate E.
Defined.

(** The raw noise loop writes one byte per round. *)
Lemma noiseRaw_loop (W H : Z) (distort : Q) (w : world) :
  rng_ok w ->
  exists raw n,
    StripesW.build_noiseRaw W H distort w = Some (raw, set_rng_pos n w)
    /\ length raw = Z.to_nat (W * H)
    /\ ((distort <= 0)%Q -> Forall (fun v => v = 255) raw)
    /\ ((1 <= distort)%Q -> Forall (fun v => v = 0) raw).
Proof.
  intros Hrng. unfold StripesW.build_noiseRaw.
  rewrite alloc_length.
  set (n := Z.to_nat (W * H)).
  destruct (for_loop_indexed
              (fun i buf => r ← math_random;
                 mret (<[Z.to_nat i := if Js.ltb r distort then 0 else 255]> buf))
              (fun k buf w' =>
                 length buf = n /\ (exists m, w' = set_rng_pos m w)
                 /\ ((distort <= 0)%Q ->
                     forall j, (j < k)%nat -> buf !! j = Some 255)
                 /\ ((1 <= distort)%Q ->
                     forall j, (j < k)%nat -> buf !! j = Some 0))
              0 n) with (a := Buf.alloc (W * H)) (w := w)
    as (raw & w' & Hrun & Hlen & [m ->] & Hlow & Hhigh).
  - intros k buf w1 Hk (Hl & [m ->] & Hlow & Hhigh).
    eexists _, _. split; [run_random; reflexivity|].
    cbn [rng rng_pos set_rng_pos].
    replace (Z.to_nat (0 + Z.of_nat k)) with k by lia.
    destruct (Hrng m) as [H0 H1].
    split; [rewrite length_insert; exact Hl|].
    split; [eexists; reflexivity|]. split.
    + intros Hd j Hj.
      assert (Js.ltb (rng w m) distort = false) as -> by (apply ltb_ge; lra).
      destruct (decide (j = k)) as [->|Hne].
      * apply list_lookup_insert_eq. lia.
      * rewrite list_lookup_insert_ne by congruence. apply Hlow; [exact Hd | lia].
    + intros Hd j Hj.
      assert (Js.ltb (rng w m) distort = true) as -> by (apply ltb_lt; lra).
      destruct (decide (j = k)) as [->|Hne].
      * apply list_lookup_insert_eq. lia.
      * rewrite list_lookup_insert_ne by congruence. apply Hhigh; [exact Hd | lia].
  - split; [apply alloc_length|].
    split; [exists (rng_pos w); destruct w; reflexivity|].
    split; intros _ j Hj; lia.
  - exists raw, m. split; [exact Hrun|]. split; [exact Hlen|]. split.
    + intros Hd. apply Forall_lookup. intros j v Hj.
      rewrite (Hlow Hd j) in Hj; [congruence|].
      rewrite <- Hlen. eapply lookup_lt_Some. exact Hj.
    + intros Hd. apply Forall_lookup. intros j v Hj.
      rewrite (Hhigh Hd j) in Hj; [congruence|].
      rewrite <- Hlen. eapply lookup_lt_Some. exact Hj.
Qed.

(** X12.  The raw noise buffer has one byte per pixel; with a distortion
    of 0 or less every byte is 255 (nothing to erase), with a distortion
    of 1 or more every byte is 0. *)
Theorem noise_raw_extremes (W H : Z) (distort : Q) (w : world) :
  rng_ok w ->
  exists raw w',
    StripesW.build_noiseRaw W H distort w = Some (raw, w')
    /\ length raw = Z.to_nat (W * H)
    /\ ((distort <= 0)%Q -> Forall (fun v => v = 255) raw)
    /\ ((1 <= distort)%Q -> Forall (fun v => v = 0) raw).
Proof.
  intros Hrng.
  destruct (noiseRaw_loop W H distort w Hrng) as (raw & n & Hrun & Hraw).
  exists raw, (set_rng_pos n w). split; [exact Hrun | exact Hraw].
Qed.

Lemma noise_raw_extremes_witness :
  exists raw w',
    StripesW.build_noiseRaw 4 2 0 Sample.quiet_world = Some (raw, w')
    /\ length raw = Z.to_nat (4 * 2)
    /\ ((0 <= 0)%Q -> Forall (fun v => v = 255) raw)
    /\ ((1 <= 0)%Q -> Forall (fun v => v = 0) raw).
Proof.
  apply (noise_raw_extremes 4 2 0 Sample.quiet_world).
  apply sample_rng_ok. constructor.
Defined.






(** ** Black stripes: the speckles of a cluster *)

Lemma clampZ_between (val lo hi : Z) :
  lo <= hi -> lo <= Stripes.clampZ val lo hi <= hi.
Proof.
  intros Hle. unfold Stripes.clampZ.
  destruct (val <? lo) eqn:E1; [lia|]. apply Z.ltb_ge in E1.
  destruct (val >? hi) eqn:E2; [lia|].
  rewrite Z.gtb_ltb in E2. apply Z.ltb_ge in E2. lia.
Qed.

(** One round of the speckle loop adds at most one point, inside the
    box and on a striped scanline. *)
Lemma speckle_adds fuel halfW halfH bw bh sigmaX sigmaY ls j lines w lines' w' :
  1 <= bw -> 1 <= bh ->
  Stripes.speckle fuel halfW halfH bw bh sigmaX sigmaY ls j lines w = Some (lines', w') ->
  exists pts, lines' = lines ++ pts
              /\ (length pts <= 1)%nat
              /\ forallb (speckle_in_box bw bh ls) pts = true.
Proof.
  intros Hbw Hbh Hrun. unfold Stripes.speckle in Hrun.
  apply bind_inv in Hrun as (gx & w1 & _ & Hrun).
  apply bind_inv in Hrun as (gy & w2 & _ & Hrun).
  cbv zeta in Hrun.
  set (xi := Stripes.clampZ (Js.round (inject_Z halfW + gx * sigmaX)) 0 (bw - 1)) in *.
  set (yi := Stripes.clampZ (Js.round (inject_Z halfH + gy * sigmaY)) 0 (bh - 1)) in *.
  assert (0 <= xi <= bw - 1) as Hx by (apply clampZ_between; lia).
  assert (0 <= yi <= bh - 1) as Hy by (apply clampZ_between; lia).
  destruct ((ls >? 1) && negb (Z.rem yi ls =? 0)) eqn:Espace.
  { injection Hrun as <- _. exists []. rewrite app_nil_r. repeat split. simpl. lia. }
  destruct (Js.ltb _ _).
  { injection Hrun as <- _. exists []. rewrite app_nil_r. repeat split. simpl. lia. }
  apply bind_inv in Hrun as (gj & w3 & _ & Hrun).
  apply bind_inv in Hrun as (r & w4 & _ & Hrun).
  destruct (Js.gtb _ _).
  { injection Hrun as <- _. exists []. rewrite app_nil_r. repeat split. simpl. lia. }
  injection Hrun as <- _. exists [MvgPoint xi yi]. split; [reflexivity|].
  split; [simpl; lia|].
  cbn [forallb speckle_in_box]. rewrite andb_true_r.
  repeat (apply andb_true_iff; split); try (apply Z.leb_le; lia).
  apply andb_false_iff in Espace as [E|E].
  - apply orb_true_iff. left. rewrite Z.gtb_ltb in E. apply Z.ltb_ge in E.
    apply Z.leb_le. exact E.
  - apply orb_true_iff. right. apply negb_false_iff in E. exact E.
Qed.

Lemma speckle_loop_adds fuel halfW halfH bw bh sigmaX sigmaY ls n :
  forall i lines w lines' w',
    1 <= bw -> 1 <= bh ->
    for_loop n i (Stripes.speckle fuel halfW halfH bw bh sigmaX sigmaY ls) lines w
    = Some (lines', w') ->
    exists pts, lines' = lines ++ pts
                /\ (length pts <= n)%nat
                /\ forallb (speckle_in_box bw bh ls) pts = true.
Proof.
  induction n as [|n IH]; intros i lines w lines' w' Hbw Hbh Hrun; simpl in Hrun.
  - injection Hrun as <- _. exists []. rewrite app_nil_r. repeat split. simpl. lia.
  - apply bind_inv in Hrun as (l1 & w1 & Hstep & Hrun).
    apply speckle_adds in Hstep as (p1 & -> & Hlen1 & Hok1); [|assumption..].
    apply IH in Hrun as (p2 & -> & Hlen2 & Hok2); [|assumption..].
    exists (p1 ++ p2). rewrite app_assoc. split; [reflexivity|].
    split; [rewrite length_app; lia|].
    rewrite forallb_app, Hok1, Hok2. reflexivity.
Qed.

(** X15.  Given draws other than 0, the speckle loop of a cluster ends,
    and what it adds to the script is at most one point per round, each
    inside the cluster box and, under a line spacing above 1, on a
    scanline that is a multiple of the spacing. *)
Theorem cluster_speckles_in_box (fuel : nat) (halfW halfH bw bh : Z)
    (sigmaX sigmaY : Q) (lineSpacing : Z) (n : nat) (lines : list mvg_cmd)
    (w : world) :
  (1 <= fuel)%nat -> rng_positive w ->
  1 <= bw -> 1 <= bh ->
  exists pts w',
    for_loop n 0 (Stripes.speckle fuel halfW halfH bw bh sigmaX sigmaY lineSpacing)
      lines w = Some (lines ++ pts, w')
    /\ (length pts <= n)%nat
    /\ forallb (speckle_in_box bw bh lineSpacing) pts = true.
Proof.
  intros Hfuel Hrng Hbw Hbh.
  destruct (speckle_loop_total fuel halfW halfH bw bh sigmaX sigmaY lineSpacing n
              0 lines w Hfuel Hrng) as (lines' & k & Hrun).
  destruct (speckle_loop_adds fuel halfW halfH bw bh sigmaX sigmaY lineSpacing n
              0 lines w lines' _ Hbw Hbh Hrun) as (pts & -> & Hlen & Hok).
  exists pts, (set_rng_pos k w). split; [exact Hrun|]. split; assumption.
Qed.

Lemma cluster_speckles_in_box_witness :
  exists pts w',
    for_loop 3 0 (Stripes.speckle 1 2 3 4 6 (16 # 10) (24 # 10) 2)
      (mvg_header 4 6 "black") (Sample.world_with [] true false)
    = Some (mvg_header 4 6 "black" ++ pts, w')
    /\ (length pts <= 3)%nat
    /\ forallb (speckle_in_box 4 6 2) pts = true.
Proof.
  apply (cluster_speckles_in_box 1 2 3 4 6 (16 # 10) (24 # 10) 2 3
           (mvg_header 4 6 "black") (Sample.world_with [] true false)).
  - lia.
  - intros [|n]; simpl; split; reflexivity.
  - lia.
  - lia.
Defined.

(** ** Black stripes: where a cluster lands *)

Lemma halves_add (n : Z) : Js.floor (inject_Z n / 2) + Js.ceil (inject_Z n / 2) = n.
Proof.
  unfold Js.floor, Js.ceil, Qceiling.
  assert (Qfloor (inject_Z n / 2) = n / 2) as ->.
  { unfold Qdiv. change (/ 2)%Q with (1 # 2)%Q.
    unfold Qfloor, Qmult, inject_Z. simpl. rewrite Z.mul_1_r. reflexivity. }
  assert (Qfloor (- (inject_Z n / 2)) = (- n) / 2) as ->.
  { unfold Qdiv. change (/ 2)%Q with (1 # 2)%Q.
    unfold Qfloor, Qmult, Qopp, inject_Z. simpl. rewrite Z.mul_1_r. reflexivity. }
  pose proof (Z.div_mod n 2 ltac:(lia)). pose proof (Z.mod_pos_bound n 2 ltac:(lia)).
  pose proof (Z.div_mod (- n) 2 ltac:(lia)). pose proof (Z.mod_pos_bound (- n) 2 ltac:(lia)).
  lia.
Qed.

(** [randInt lo hi] of the black-stripes module, for [lo <= hi]. *)
Lemma stripes_randInt_range (lo hi : Z) (r : Q) :
  (0 <= r)%Q -> (r < 1)%Q -> lo <= hi ->
  lo <= Js.floor (r * inject_Z (hi - lo)) + lo <= hi.
Proof.
  intros H0 H1 Hle.
  pose proof (floor_scaled_le r (hi - lo) H0 H1 ltac:(lia)) as (? & ? & _). lia.
Qed.

(** X16.  A cluster whose box is not larger than the page is composited
    inside the page, and the composite keeps the size of the image it was
    laid over. *)
Theorem cluster_box_inside_page (fuel : nat) (name tmpDir : string) (W H : Z)
    (maxDist : Q) (aw ah : Z) (dens : Q) (sm : bool) (lo hi : Q) (dir : option Q)
    (ls : Z) (col : string) (a : Z) (composite : string) (w : world) (ic : image) :
  (1 <= fuel)%nat -> rng_positive w ->
  1 <= Stripes.pixelCount aw ah dens ->
  files w !! composite = Some (FImage ic) ->
  (forall s, s ∈ blob_suffixes -> composite <> Stripes.blob name tmpDir a s) ->
  aw <= W -> ah <= H ->
  exists w' x0 y0 layer,
    Stripes.cluster fuel name tmpDir W H maxDist aw ah dens sm lo hi dir ls col a
      composite w = Some (Stripes.blob name tmpDir a "_comp.png", w')
    /\ files w' !! Stripes.blob name tmpDir a "_comp.png"
       = Some (FImage (Image (img_w ic) (img_h ic)
                         (PxMagick [img_px ic; layer]
                            [GeometryAt x0 y0; Compose "Over"; Composite] [])))
    /\ 0 <= x0 /\ x0 + aw <= W /\ 0 <= y0 /\ y0 + ah <= H.
Proof.
  intros Hfuel Hrng Hcount Hcomp Hfresh HW HH.
  set (mvg := Stripes.blob name tmpDir a ".mvg").
  set (base := Stripes.blob name tmpDir a "_base.png").
  set (speck := Stripes.blob name tmpDir a "_speck.png").
  set (smear := Stripes.blob name tmpDir a "_smear.png").
  set (comp := Stripes.blob name tmpDir a "_comp.png").
  assert (composite <> mvg /\ composite <> base /\ composite <> speck
          /\ composite <> smear /\ composite <> comp)
    as (Hc1 & Hc2 & Hc3 & Hc4 & Hc5)
    by (repeat split; apply Hfresh; unfold blob_suffixes; set_solver).
  assert (mvg <> base /\ mvg <> speck /\ mvg <> smear /\ mvg <> comp
          /\ base <> speck /\ base <> smear /\ base <> comp
          /\ speck <> smear /\ speck <> comp /\ smear <> comp)
    as (N1 & N2 & N3 & N4 & N5 & N6 & N7 & N8 & N9 & N10)
    by (repeat split; intros E; apply blob_inj_suffix in E; discriminate E).
  destruct (Hrng (rng_pos w)) as [Ha Hb]. destruct (Hrng (S (rng_pos w))) as [Hc Hd].
  pose proof (stripes_randInt_range (Js.floor (inject_Z aw / 2))
                (W - Js.ceil (inject_Z aw / 2)) _ (Qlt_le_weak _ _ Ha) Hb
                ltac:(pose proof (halves_add aw); lia)) as Hx.
  pose proof (stripes_randInt_range (Js.floor (inject_Z ah / 2))
                (H - Js.ceil (inject_Z ah / 2)) _ (Qlt_le_weak _ _ Hc) Hd
                ltac:(pose proof (halves_add ah); lia)) as Hy.
  pose proof (halves_add aw) as Haw. pose proof (halves_add ah) as Hah.
  unfold Stripes.cluster.
  do 2 (run_by ltac:(apply stripes_randInt_run)).
  assert ((Stripes.pixelCount aw ah dens <? 1) = false) as ->
    by (apply Z.ltb_ge; lia).
  match goal with
  | |- context [(for_loop ?m ?j ?body ?l ≫= _) ?w1] =>
      destruct (speckle_loop_total fuel
                  (Js.floor (inject_Z aw / 2)) (Js.floor (inject_Z ah / 2)) aw ah
                  (inject_Z aw * (8 # 10) / 2)%Q (inject_Z ah * (8 # 10) / 2)%Q
                  ls m j l w1 Hfuel Hrng) as (lines & k & Hloop)
  end.
  rewrite (bind_run _ _ _ _ _ Hloop). cbn beta zeta.
  fold mvg base speck smear comp.
  run_by ltac:(apply write_run).
  run_by ltac:(apply magick_run; [apply read_images_none | reflexivity]).
  run_by ltac:(apply magick_run;
               [apply read_images_one; lookup_through; reflexivity
               | apply read_scripts_draw; lookup_through; reflexivity]).
  run_by ltac:(eapply unlink_run; lookup_through; reflexivity).
  run_by ltac:(eapply unlink_run; lookup_through; reflexivity).
  destruct sm; [run_ask; destruct dir as [d|]; [|run_random];
                run_by ltac:(apply ret_run);
                run_by ltac:(apply magick_run;
                             [apply read_images_one; lookup_through; reflexivity
                             | reflexivity]);
                run_by ltac:(eapply unlink_run; lookup_through; reflexivity) |];
    run_by ltac:(apply ret_run);
    run_by ltac:(apply magick_run;
                 [apply read_images_two; lookup_through; [eassumption | reflexivity]
                 | reflexivity]);
    run_by ltac:(eapply unlink_run; lookup_through; eassumption);
    run_by ltac:(eapply unlink_run; lookup_through; reflexivity);
    (eexists _, _, _, _; split; [reflexivity|];
     split; [lookup_through; reflexivity|];
     cbn [rng rng_pos set_rng_pos] in *; lia).
Qed.

Lemma cluster_box_inside_page_witness :
  exists w' x0 y0 layer,
    Stripes.cluster 1 "doc" "/tmp" 8 6 5 4 6 1 true 1 15 (Some 180%Q) 2 "black" 0
      "/tmp/doc_base.png" Sample.quiet_world
    = Some (Stripes.blob "doc" "/tmp" 0 "_comp.png", w')
    /\ files w' !! Stripes.blob "doc" "/tmp" 0 "_comp.png"
       = Some (FImage (Image (img_w Sample.page) (img_h Sample.page)
                         (PxMagick [img_px Sample.page; layer]
                            [GeometryAt x0 y0; Compose "Over"; Composite] [])))
    /\ 0 <= x0 /\ x0 + 4 <= 8 /\ 0 <= y0 /\ y0 + 6 <= 6.
Proof.
  apply (cluster_box_inside_page 1 "doc" "/tmp" 8 6 5 4 6 1 true 1 15 (Some 180%Q) 2
           "black" 0 "/tmp/doc_base.png" Sample.quiet_world Sample.page).
  - lia.
  - intros [|n]; simpl; split; reflexivity.
  - vm_compute. discriminate.
  - reflexivity.
  - intros s _. vm_compute. discriminate.
  - lia.
  - lia.
Defined.

(** ** The orchestrator *)

(** X17.  Entries of the source directory that are not PDFs play no part:
    a run over a listing is the run over its PDFs. *)
Theorem other_files_are_ignored (fuel : nat) (cfg : Cfg.t) (listing : list string)
    (w : world) :
  faxSim fuel cfg listing w
  = faxSim fuel cfg (filter (fun f => is_pdf f = true) listing) w.
Proof.
  unfold faxSim. generalize (boot w). clear w.
  induction listing as [|file rest IH]; intros w; [reflexivity|].
  rewrite main_loop_cons. destruct (is_pdf file) eqn:E.
  - rewrite filter_cons_True by exact E. rewrite main_loop_cons, E.
    unfold mbind, M_bind. destruct (process_pdf fuel cfg file w) as [[u w1]|]; [|reflexivity].
    apply IH.
  - rewrite filter_cons_False by congruence.
    rewrite bind_run with (a := tt) (w' := w) by reflexivity. apply IH.
Qed.

Lemma dbgLog_off stage w : currentDebug w = false -> dbgLog stage w = Some (tt, w).
Proof. intros H. unfold dbgLog, mbind, M_bind, get_world. rewrite H. reflexivity. Qed.

Lemma dbgSnap_off stage cur name w :
  currentDebug w = false -> dbgSnap stage cur name w = Some (tt, w).
Proof. intros H. unfold dbgSnap, mbind, M_bind, get_world. rewrite H. reflexivity. Qed.

Lemma run_block_disabled fuel cfg d b cur w :
  block_flag cfg b = false -> block_flag cfg BRotateMirror = false ->
  run_block fuel cfg d b cur w = Some (cur, w).
Proof.
  intros Hb Hm.
  assert (enabled cfg d b = false) as Hoff by (unfold enabled; rewrite Hb; reflexivity).
  assert (enabled cfg d BRotateMirror = false) as Hoffm
    by (unfold enabled; rewrite Hm; reflexivity).
  destruct b; unfold run_block, run_mirror; rewrite ?Hoff, ?Hoffm; reflexivity.
Qed.

Lemma base_not_tif (tmp name : string) :
  path_join tmp (name +:+ "_base.png") <> path_join dstDir (name +:+ ".tif").
Proof.
  apply (suffixes_differ ".png" ".tif"); [reflexivity | discriminate | |].
  - unfold path_join. repeat apply has_suffix_append. exists "_base". reflexivity.
  - unfold path_join. repeat apply has_suffix_append. apply has_suffix_self.
Qed.

Lemma render_run dpi input out w id :
  files w !! input = Some (FPdf id) ->
  Engine.render dpi input out w
  = Some (tt, set_trace (trace w ++ [EvMagick [input] [Density dpi] out])
                (set_files (<[out := FImage (Image (fst (page_size (env w) id dpi))
                                               (snd (page_size (env w) id dpi))
                                               (PxPage id dpi))]> (files w)) w)).
Proof. intros H. unfold Engine.render. rewrite H. reflexivity. Qed.

(** X18.  With every effect switched off and debugging off, a document is
    rendered, compressed to [<name>.tif] and the rendered page deleted:
    two engine commands, one deletion, one console line, and no random
    draw. *)
Theorem plain_conversion (fuel : nat) (cfg : Cfg.t) (file id : string) (w : world) :
  (forall b, block_flag cfg b = false) ->
  Cfg.debugPipeline cfg = false ->
  files w !! path_join srcDir file = Some (FPdf id) ->
  let name := Text.parse_name file in
  let dpi := Cfg.renderResolution cfg in
  let cur := path_join (os_tmpdir (env w)) (name +:+ "_base.png") in
  let out := path_join dstDir (name +:+ ".tif") in
  let size := page_size (env w) id dpi in
  exists w' line,
    process_pdf fuel cfg file w = Some (tt, w')
    /\ files w'
       = delete cur
           (<[out := FImage (Image (fst size) (snd size)
                               (PxMagick [PxPage id dpi]
                                  [Monochrome; Compress "Group4"] []))]>
              (<[cur := FImage (Image (fst size) (snd size) (PxPage id dpi))]>
                 (files w)))
    /\ trace w'
       = trace w ++ [EvMagick [path_join srcDir file] [Density dpi] cur;
                     EvMagick [cur] [Monochrome; Compress "Group4"] out;
                     EvUnlink cur;
                     EvConsole line]
    /\ rng_pos w' = rng_pos w.
Proof.
  intros Hoff Hdbg Hpdf name dpi cur out size.
  pose proof (base_not_tif (os_tmpdir (env w)) name) as Hne. fold cur out in Hne.
  unfold process_pdf.
  rewrite bind_run with
    (a := (Doc name (path_join srcDir file) out false, cur))
    (w' := set_flags (isFirstPdf w) false w)
    by (unfold begin_doc; rewrite Hdbg; reflexivity).
  cbn beta iota.
  unfold pipeline. cbn [run_stages]. rewrite !bind_assoc.
  cbn [run_stage d_input d_name d_output].
  rewrite !bind_assoc.
  run_by ltac:(apply dbgLog_off; reflexivity).
  run_by ltac:(apply render_run; exact Hpdf).
  run_by ltac:(apply dbgSnap_off; reflexivity).
  run_by ltac:(apply ret_run).
  do 14 (run_by ltac:(apply run_block_disabled; apply Hoff)).
  run_by ltac:(apply dbgLog_off; reflexivity).
  run_by ltac:(apply magick_run;
               [apply read_images_one; lookup_through; reflexivity | reflexivity]).
  run_by ltac:(apply ret_run).
  run_by ltac:(apply ret_run).
  run_by ltac:(apply ret_run).
  run_by ltac:(apply dbgLog_off; reflexivity).
  run_by ltac:(eapply unlink_run; lookup_through; reflexivity).
  run_by ltac:(apply ret_run).
  run_by ltac:(apply ret_run).
  unfold end_doc.
  rewrite bind_run with (a := tt)
    (w' := set_trace (trace w ++ [EvMagick [path_join srcDir file] [Density dpi] cur;
                                  EvMagick [cur] [Monochrome; Compress "Group4"] out;
                                  EvUnlink cur;
                                  EvConsole ("Converted " +:+ file)])
             (set_files (delete cur
                (<[out := FImage (Image (fst size) (snd size)
                                    (PxMagick [PxPage id dpi]
                                       [Monochrome; Compress "Group4"] []))]>
                   (<[cur := FImage (Image (fst size) (snd size) (PxPage id dpi))]>
                      (files w)))) (set_flags (isFirstPdf w) false w)))
    by (unfold emit; flat_world; rewrite <- !app_assoc; reflexivity).
  unfold mbind, M_bind, get_world. flat_world.
  destruct (isFirstPdf w); eexists _, _; (split; [reflexivity|]);
    repeat split; reflexivity.
Qed.

Lemma plain_conversion_witness :
  let cfg := Sample.ini false "" (fun _ => false) (2 # 10) in
  let w := Sample.batch_world in
  let name := Text.parse_name "doc.pdf" in
  let dpi := Cfg.renderResolution cfg in
  let cur := path_join (os_tmpdir (env w)) (name +:+ "_base.png") in
  let out := path_join dstDir (name +:+ ".tif") in
  let size := page_size (env w) "doc" dpi in
  exists w' line,
    process_pdf 1 cfg "doc.pdf" w = Some (tt, w')
    /\ files w'
       = delete cur
           (<[out := FImage (Image (fst size) (snd size)
                               (PxMagick [PxPage "doc" dpi]
                                  [Monochrome; Compress "Group4"] []))]>
              (<[cur := FImage (Image (fst size) (snd size) (PxPage "doc" dpi))]>
                 (files w)))
    /\ trace w'
       = trace w ++ [EvMagick [path_join srcDir "doc.pdf"] [Density dpi] cur;
                     EvMagick [cur] [Monochrome; Compress "Group4"] out;
                     EvUnlink cur;
                     EvConsole line]
    /\ rng_pos w' = rng_pos w.
Proof.
  apply (plain_conversion 1 (Sample.ini false "" (fun _ => false) (2 # 10)) "doc.pdf"
           "doc" Sample.batch_world).
  - intros b. destruct b; reflexivity.
  - reflexivity.
  - reflexivity.
Defined.

(** ** The pipeline touches only its own files *)

Lemma same_elsewhere_refl w : same_elsewhere w w.
Proof. intros p _. reflexivity. Qed.

Lemma same_elsewhere_trans w1 w2 w3 :
  same_elsewhere w1 w2 -> same_elsewhere w2 w3 -> same_elsewhere w1 w3.
Proof. intros H1 H2 p Hp. rewrite H2, H1 by exact Hp. reflexivity. Qed.

Lemma cf_ret {A} (a : A) (Q : A -> Prop) : Q a -> confined (mret a) Q.
Proof. intros HQ w a' w' H. injection H as <- <-. split; [exact HQ | apply same_elsewhere_refl]. Qed.

Lemma cf_bind {A B} (m : M A) (f : A -> M B) (Q : A -> Prop) (R : B -> Prop) :
  confined m Q -> (forall a, Q a -> confined (f a) R) -> confined (m ≫= f) R.
Proof.
  intros Hm Hf w b w'' H.
  apply bind_inv in H as (a & w' & H1 & H2).
  destruct (Hm _ _ _ H1) as [HQ Hs1]. destruct (Hf a HQ _ _ _ H2) as [HR Hs2].
  split; [exact HR | eapply same_elsewhere_trans; eassumption].
Qed.

Lemma cf_any {A} (m : M A) (Q : A -> Prop) : confined m Q -> confined m (fun _ => True).
Proof. intros Hm w a w' H. destruct (Hm _ _ _ H) as [_ Hs]. split; [exact I | exact Hs]. Qed.

Lemma cf_bind_any {A B} (m : M A) (f : A -> M B) (R : B -> Prop) :
  confined m (fun _ => True) -> (forall a, confined (f a) R) -> confined (m ≫= f) R.
Proof. intros Hm Hf. apply cf_bind with (Q := fun _ => True); [exact Hm | intros a _; apply Hf]. Qed.

Lemma cf_throw {A} (Q : A -> Prop) : confined (@throw A) Q.
Proof. intros w a w' H. discriminate H. Qed.

Lemma cf_for_loop {A} (body : Z -> A -> M A) (Q : A -> Prop) :
  (forall i a, Q a -> confined (body i a) Q) ->
  forall n i a, Q a -> confined (for_loop n i body a) Q.
Proof.
  intros Hb n. induction n as [|n IH]; intros i a HQ; simpl.
  - apply cf_ret. exact HQ.
  - apply cf_bind with (Q := Q); [apply Hb; exact HQ | intros a' HQ'; apply IH; exact HQ'].
Qed.

Lemma cf_for_loop_any {A} (body : Z -> A -> M A) :
  (forall i a, confined (body i a) (fun _ => True)) ->
  forall n i a, confined (for_loop n i body a) (fun _ => True).
Proof. intros Hb n i a. apply cf_for_loop; [intros; apply Hb | exact I]. Qed.

(** A step that leaves the disk as it is. *)
Lemma cf_files_kept {A} (m : M A) :
  (forall w a w', m w = Some (a, w') -> files w' = files w) ->
  confined m (fun _ => True).
Proof.
  intros Hm w a w' H. split; [exact I|]. intros p _. rewrite (Hm _ _ _ H). reflexivity.
Qed.

Lemma cf_get_world : confined get_world (fun _ => True).
Proof. apply cf_files_kept. intros w a w' H. injection H as _ <-. reflexivity. Qed.

Lemma cf_ask {A} (f : host -> A) : confined (ask f) (fun _ => True).
Proof. apply cf_files_kept. intros w a w' H. injection H as _ <-. reflexivity. Qed.

Lemma cf_date_now : confined date_now (fun _ => True).
Proof. apply cf_files_kept. intros w a w' H. injection H as _ <-. reflexivity. Qed.

Lemma cf_math_random : confined math_random (fun _ => True).
Proof. apply cf_files_kept. intros w a w' H. injection H as _ <-. reflexivity. Qed.

Lemma cf_emit e : confined (emit e) (fun _ => True).
Proof. apply cf_files_kept. intros w a w' H. injection H as _ <-. reflexivity. Qed.

Lemma cf_read_image p : confined (read_image p) (fun _ => True).
Proof.
  apply cf_files_kept. intros w a w' H. unfold read_image in H.
  destruct (files w !! p) as [[]|]; try discriminate. injection H as _ <-. reflexivity.
Qed.

Lemma cf_read_script p : confined (read_script p) (fun _ => True).
Proof.
  apply cf_files_kept. intros w a w' H. unfold read_script in H.
  destruct (files w !! p) as [[]|]; try discriminate. injection H as _ <-. reflexivity.
Qed.

Lemma cf_store p c : scratch_file p -> confined (store p c) (fun _ => True).
Proof.
  intros Hp w a w' H. injection H as _ <-. split; [exact I|].
  intros q Hq. simpl. apply lookup_insert_ne. congruence.
Qed.

Lemma cf_unlinkSync p : scratch_file p -> confined (unlinkSync p) (fun _ => True).
Proof.
  intros Hp w a w' H. unfold unlinkSync in H.
  destruct (files w !! p); [|discriminate]. injection H as _ <-. split; [exact I|].
  intros q Hq. simpl. apply lookup_delete_ne. congruence.
Qed.

Lemma cf_copyFileSync src dst :
  scratch_file dst -> confined (copyFileSync src dst) (fun _ => True).
Proof.
  intros Hp w a w' H. unfold copyFileSync in H.
  destruct (files w !! src); [|discriminate]. injection H as _ <-. split; [exact I|].
  intros q Hq. simpl. apply lookup_insert_ne. congruence.
Qed.

Lemma png_scratch p : is_png p -> scratch_file p.
Proof. intros H. left. exact H. Qed.

Lemma mvg_scratch p : has_suffix ".mvg" p -> scratch_file p.
Proof. intros H. right. left. exact H. Qed.

Lemma tif_scratch p : has_suffix ".tif" p -> scratch_file p.
Proof. intros H. right. right. exact H. Qed.

Lemma substring_all (s : string) : substring 0 (String.length s) s = s.
Proof. induction s as [|a s IH]; [reflexivity|]. simpl. rewrite IH. reflexivity. Qed.

Lemma substring_skip (a b : string) (n : nat) :
  substring (String.length a) n (a +:+ b) = substring 0 n b.
Proof.
  induction a as [|x a IH]; [reflexivity|].
  change (substring (S (String.length a)) n (String x (a +:+ b)) = substring 0 n b).
  simpl. exact IH.
Qed.

Lemma substring_drop (n : nat) (s : string) :
  (n <= String.length s)%nat ->
  s = substring 0 n s +:+ substring n (String.length s - n) s.
Proof.
  revert s. induction n as [|n IH]; intros s Hn.
  - rewrite Nat.sub_0_r, substring_all. destruct s; reflexivity.
  - destruct s as [|a s]; [simpl in Hn; lia|].
    simpl in Hn. simpl.
    change (String a s = String a (substring 0 n s +:+ substring n (String.length s - n) s)).
    f_equal. apply IH. lia.
Qed.

Lemma ends_with_spec (suffix p : string) :
  ends_with suffix p = true -> has_suffix suffix p.
Proof.
  unfold ends_with. intros H. apply andb_true_iff in H as [H1 H2].
  apply bool_decide_eq_true_1 in H1. apply Nat.leb_le in H2.
  exists (substring 0 (String.length p - String.length suffix) p).
  pose proof (substring_drop (String.length p - String.length suffix) p ltac:(lia)) as Hd.
  replace (String.length p - (String.length p - String.length suffix))%nat
    with (String.length suffix) in Hd by lia.
  rewrite H1 in Hd. exact Hd.
Qed.

(** Proves that a name built by the modules ends in a given suffix. *)
Ltac name_ends :=
  unfold rotated_path, warp_pad_path, warp_path, dropout_path, noiseW_path,
    raster_path, Tileshift.tiles_path, Stripes.blob, debugDir, path_join;
  repeat apply has_suffix_append;
  first [ apply has_suffix_self | apply ends_with_spec; reflexivity ].

Create HintDb confine.

#[local] Hint Resolve cf_throw cf_get_world cf_ask cf_date_now cf_math_random
  cf_emit cf_read_image cf_read_script cf_store cf_unlinkSync cf_copyFileSync
  png_scratch mvg_scratch tif_scratch : confine.
#[local] Hint Extern 1 (confined (mret _) _) => (apply cf_ret; cbv beta) : confine.
#[local] Hint Extern 0 True => exact I : confine.
#[local] Hint Extern 2 (is_png _) => (unfold is_png; name_ends) : confine.
#[local] Hint Extern 2 (has_suffix _ _) => name_ends : confine.

(** Takes a computation apart along its binds, loops and branches. *)
Ltac confine_steps :=
  repeat (intros; cbv zeta; first
    [ solve [eauto with confine]
    | apply cf_bind_any
    | apply cf_for_loop_any
    | match goal with
      | |- confined (if ?b then _ else _) _ => destruct b
      | |- confined (match ?x with _ => _ end) _ => destruct x
      end ]).

Lemma cf_writeFileSync p c : scratch_file p -> confined (writeFileSync p c) (fun _ => True).
Proof. intros Hp. unfold writeFileSync. confine_steps. Qed.

Lemma cf_identify p : confined (identify p) (fun _ => True).
Proof. unfold identify. confine_steps. Qed.

Lemma cf_batch_skip p : confined (batch_skip p) (fun _ => True).
Proof. unfold batch_skip. confine_steps. Qed.

Lemma cf_read_images ps : confined (Engine.read_images ps) (fun _ => True).
Proof. induction ps; simpl; confine_steps. Qed.

Lemma cf_read_scripts ops : confined (Engine.read_scripts ops) (fun _ => True).
Proof. induction ops as [|op ops IH]; simpl; [|destruct op]; confine_steps. Qed.

#[local] Hint Resolve cf_writeFileSync cf_identify cf_batch_skip cf_read_images
  cf_read_scripts : confine.

Lemma cf_magick ins ops out :
  scratch_file out -> confined (Engine.magick ins ops out) (fun _ => True).
Proof. intros Hp. unfold Engine.magick. confine_steps. Qed.

Lemma cf_render dpi input out :
  scratch_file out -> confined (Engine.render dpi input out) (fun _ => True).
Proof.
  intros Hp w a w' H. unfold Engine.render in H.
  destruct (files w !! input) as [[]|]; try discriminate.
  match type of H with
  | ?m w = _ => assert (confined m (fun _ => True)) as Hk by confine_steps
  end.
  exact (Hk _ _ _ H).
Qed.

Lemma cf_bounding_box p : confined (Engine.bounding_box p) (fun _ => True).
Proof. unfold Engine.bounding_box. confine_steps. Qed.

Lemma cf_dbgLog stage : confined (dbgLog stage) (fun _ => True).
Proof. unfold dbgLog. confine_steps. Qed.

Lemma cf_dbgSnap stage cur name : confined (dbgSnap stage cur name) (fun _ => True).
Proof. unfold dbgSnap. confine_steps. Qed.

#[local] Hint Resolve cf_magick cf_render cf_bounding_box cf_dbgLog cf_dbgSnap : confine.

Lemma cf_applyRotateEffect cur name tmp a p lo hi :
  is_png cur -> confined (applyRotateEffect cur name tmp a p lo hi) is_png.
Proof. intros Hcur. unfold applyRotateEffect. confine_steps. Qed.

Lemma cf_applyWarpEffect cur name tmp a p off sc :
  is_png cur -> confined (applyWarpEffect cur name tmp a p off sc) is_png.
Proof. intros Hcur. unfold applyWarpEffect. confine_steps. Qed.

Lemma cf_scratch_mvg prefix : confined (scratch_mvg prefix) (has_suffix ".mvg").
Proof.
  intros w a w' H. injection H as <- <-. split; [|intros p _; reflexivity].
  name_ends.
Qed.

(** A script name, when there is one. *)
Lemma cf_createMVG W H amt sz :
  confined (createMVG W H amt sz)
    (fun r => match r with Some p => has_suffix ".mvg" p | None => True end).
Proof.
  unfold createMVG. cbv zeta. destruct (_ <? 1); [apply cf_ret; exact I|].
  apply cf_bind_any; [unfold dropout_block; confine_steps|]. intros lines.
  apply cf_bind with (Q := has_suffix ".mvg"); [apply cf_scratch_mvg|].
  intros mvg Hmvg. apply cf_bind_any; [confine_steps|]. intros _.
  apply cf_ret. exact Hmvg.
Qed.

Lemma cf_createSpeckleMVG W H d color :
  confined (createSpeckleMVG W H d color)
    (fun r => match r with Some p => has_suffix ".mvg" p | None => True end).
Proof.
  unfold createSpeckleMVG. cbv zeta. destruct (_ <? 1); [apply cf_ret; exact I|].
  apply cf_bind_any; [unfold speckle_point; confine_steps|]. intros lines.
  apply cf_bind with (Q := has_suffix ".mvg"); [apply cf_scratch_mvg|].
  intros mvg Hmvg. apply cf_bind_any; [confine_steps|]. intros _.
  apply cf_ret. exact Hmvg.
Qed.

Lemma cf_applyDropoutEffect cur name tmp amt sz p :
  is_png cur -> confined (applyDropoutEffect cur name tmp amt sz p) is_png.
Proof.
  intros Hcur. unfold applyDropoutEffect.
  apply cf_bind_any; [confine_steps|]. intros [|]; [confine_steps|].
  apply cf_bind_any; [confine_steps|]. intros [W H].
  eapply cf_bind; [apply cf_createMVG|]. intros [mvg|] Hmvg; confine_steps.
Qed.

Lemma cf_applyNoiseWEffect cur name tmp p dens :
  is_png cur -> confined (applyNoiseWEffect cur name tmp p dens) is_png.
Proof.
  intros Hcur. unfold applyNoiseWEffect.
  apply cf_bind_any; [confine_steps|]. intros [|]; [confine_steps|].
  apply cf_bind_any; [confine_steps|]. intros [W H].
  eapply cf_bind; [apply cf_createSpeckleMVG|]. intros [mvg|] Hmvg; confine_steps.
Qed.

Lemma cf_applyRasterEffect cur name tmp p map :
  is_png cur -> confined (applyRasterEffect cur name tmp p map) is_png.
Proof. intros Hcur. unfold applyRasterEffect. confine_steps. Qed.

Lemma cf_applyTileshiftEffect cur name tmp p n ts tv ox oy ov :
  is_png cur ->
  confined (Tileshift.applyTileshiftEffect cur name tmp p n ts tv ox oy ov) is_png.
Proof.
  intros Hcur.
  unfold Tileshift.applyTileshiftEffect, Tileshift.tile_step,
    Tileshift.place_tile, Tileshift.randInt.
  confine_steps.
Qed.

Lemma cf_draw_nonzero fuel : confined (Stripes.draw_nonzero fuel) (fun _ => True).
Proof. induction fuel; simpl; confine_steps. Qed.

#[local] Hint Resolve cf_draw_nonzero : confine.

Lemma cf_randGaussian fuel : confined (Stripes.randGaussian fuel) (fun _ => True).
Proof. unfold Stripes.randGaussian. confine_steps. Qed.

#[local] Hint Resolve cf_randGaussian : confine.

Lemma cf_cluster fuel name tmp W H maxDist aw ah dens sm lo hi dir ls col a composite :
  is_png composite ->
  confined (Stripes.cluster fuel name tmp W H maxDist aw ah dens sm lo hi dir ls col
              a composite) is_png.
Proof.
  intros Hc. unfold Stripes.cluster, Stripes.randInt. cbv zeta.
  apply cf_bind_any; [confine_steps|]. intros cx.
  apply cf_bind_any; [confine_steps|]. intros cy.
  destruct (_ <? 1); [confine_steps|].
  apply cf_bind_any; [unfold Stripes.speckle; confine_steps|]. intros lines.
  do 5 (apply cf_bind_any; [confine_steps|]; intros _).
  apply cf_bind with (Q := is_png).
  - destruct sm; [|confine_steps].
    apply cf_bind_any; [confine_steps|]. intros dist.
    apply cf_bind_any; [confine_steps|]. intros angle.
    confine_steps.
  - intros layer Hlayer. confine_steps.
Qed.

Lemma cf_applyStripesEffect fuel cur name tmp p n aw ah dens sm lo hi dir ls col :
  is_png cur ->
  confined
    (Stripes.applyStripesEffect fuel cur name tmp p n aw ah dens sm lo hi dir ls col)
    is_png.
Proof.
  intros Hcur. unfold Stripes.applyStripesEffect.
  apply cf_bind_any; [confine_steps|]. intros [|]; [confine_steps|].
  apply cf_bind_any; [confine_steps|]. intros [W H].
  apply cf_bind_any; [confine_steps|]. intros maxDist.
  apply cf_for_loop; [|exact Hcur].
  intros i composite Hc. apply cf_cluster. exact Hc.
Qed.

Lemma cf_fill buf v o e : confined (Buf.fill buf v o e) (fun _ => True).
Proof. unfold Buf.fill. confine_steps. Qed.

#[local] Hint Resolve cf_fill : confine.

Lemma cf_applyStripesWEffect cur name tmp p n tmin tmax smin smax dir ns dist :
  is_png cur ->
  confined
    (StripesW.applyStripesWEffect cur name tmp p n tmin tmax smin smax dir ns dist)
    is_png.
Proof.
  intros Hcur.
  unfold StripesW.applyStripesWEffect, StripesW.build_masks,
    StripesW.build_stripeMask, StripesW.stripe_step, StripesW.build_noiseRaw.
  confine_steps.
Qed.

#[local] Hint Resolve cf_applyRotateEffect cf_applyWarpEffect cf_applyDropoutEffect
  cf_applyNoiseWEffect cf_applyRasterEffect cf_applyTileshiftEffect
  cf_applyStripesEffect cf_applyStripesWEffect : confine.

Lemma cf_stage_gate a p : confined (stage_gate a p) (fun _ => True).
Proof. unfold stage_gate. confine_steps. Qed.

Lemma cf_vary d fixed lo hi : confined (vary d fixed lo hi) (fun _ => True).
Proof. unfold vary. confine_steps. Qed.

#[local] Hint Resolve cf_stage_gate cf_vary : confine.

Lemma cf_run_mirror cfg d cur : is_png cur -> confined (run_mirror cfg d cur) is_png.
Proof. intros Hcur. unfold run_mirror. confine_steps. Qed.

Lemma cf_in_place d stage ops cur :
  is_png cur -> confined (in_place d stage ops cur) is_png.
Proof. intros Hcur. unfold in_place. confine_steps. Qed.

#[local] Hint Resolve cf_run_mirror cf_in_place : confine.

(** A gated block: the stage's own work is [work], run when the gate
    passes. *)
Ltac confine_block :=
  apply cf_bind_any; [confine_steps|]; intros [|]; [|confine_steps].

Lemma cf_run_block fuel cfg d b cur :
  is_png cur -> confined (run_block fuel cfg d b cur) is_png.
Proof.
  intros Hcur. destruct b; unfold run_block; cbv zeta.
  - confine_block.
    apply cf_bind_any; [confine_steps|]. intros off.
    apply cf_bind_any; [confine_steps|]. intros _.
    apply cf_bind_any; [confine_steps|]. intros tmp.
    eapply cf_bind; [apply cf_applyWarpEffect; exact Hcur|]. intros out Hout.
    confine_steps.
  - confine_block.
    apply cf_bind_any; [confine_steps|]. intros _.
    apply cf_bind_any; [confine_steps|]. intros tmp.
    eapply cf_bind; [apply cf_applyRotateEffect; exact Hcur|]. intros out Hout.
    confine_steps.
  - apply cf_run_mirror. exact Hcur.
  - confine_block.
    apply cf_bind_any; [confine_steps|]. intros _.
    apply cf_bind_any; [confine_steps|]. intros tmp.
    eapply cf_bind; [apply cf_applyStripesWEffect; exact Hcur|]. intros out Hout.
    confine_steps.
  - confine_steps.
  - confine_steps.
  - destruct (enabled _ _ _); [|confine_steps].
    apply cf_bind_any; [confine_steps|]. intros radius. confine_steps.
  - confine_block.
    apply cf_bind_any; [confine_steps|]. intros density.
    apply cf_bind_any; [confine_steps|]. intros _.
    apply cf_bind_any; [confine_steps|]. intros tmp.
    eapply cf_bind; [apply cf_applyStripesEffect; exact Hcur|]. intros out Hout.
    confine_steps.
  - confine_steps.
  - confine_steps.
  - confine_block.
    apply cf_bind_any; [confine_steps|]. intros density.
    apply cf_bind_any; [confine_steps|]. intros _.
    apply cf_bind_any; [confine_steps|]. intros tmp.
    eapply cf_bind; [apply cf_applyNoiseWEffect; exact Hcur|]. intros out Hout.
    confine_steps.
  - destruct (enabled _ _ _); [|confine_steps].
    apply cf_bind_any; [confine_steps|]. intros _.
    apply cf_bind_any; [confine_steps|]. intros tmp.
    eapply cf_bind; [apply cf_applyRasterEffect; exact Hcur|]. intros out Hout.
    confine_steps.
  - confine_steps.
  - confine_block.
    apply cf_bind_any; [confine_steps|]. intros amount.
    apply cf_bind_any; [confine_steps|]. intros _.
    apply cf_bind_any; [confine_steps|]. intros tmp.
    eapply cf_bind; [apply cf_applyDropoutEffect; exact Hcur|]. intros out Hout.
    confine_steps.
  - confine_block.
    apply cf_bind_any; [confine_steps|]. intros amt.
    apply cf_bind_any; [confine_steps|]. intros _.
    apply cf_bind_any; [confine_steps|]. intros tmp.
    eapply cf_bind; [apply cf_applyTileshiftEffect; exact Hcur|]. intros out Hout.
    confine_steps.
Qed.

Lemma cf_run_stage fuel cfg d s cur :
  has_suffix ".tif" (d_output d) -> is_png cur ->
  confined (run_stage fuel cfg d s cur) is_png.
Proof.
  intros Hout Hcur. destruct s; unfold run_stage.
  - confine_steps.
  - apply cf_run_block. exact Hcur.
  - apply cf_bind_any; [confine_steps|]. intros _.
    apply cf_bind_any; [confine_steps|]. intros _.
    apply cf_bind_any; [confine_steps|]. intros w0.
    apply cf_bind_any; [|confine_steps].
    destruct (currentDebug w0); [|confine_steps].
    cbv zeta. apply cf_bind_any; [|confine_steps].
    apply cf_copyFileSync, tif_scratch. name_ends.
  - confine_steps.
Qed.

Lemma cf_run_stages fuel cfg d ss :
  has_suffix ".tif" (d_output d) ->
  forall cur, is_png cur -> confined (run_stages fuel cfg d ss cur) is_png.
Proof.
  intros Hout. induction ss as [|s ss IH]; intros cur Hcur; simpl.
  - apply cf_ret. exact Hcur.
  - eapply cf_bind; [apply cf_run_stage; assumption | intros cur' Hcur'; apply IH, Hcur'].
Qed.

Lemma begin_doc_names cfg file w d cur w0 :
  begin_doc cfg file w = Some ((d, cur), w0) ->
  is_png cur /\ d_output d = path_join dstDir (Text.parse_name file +:+ ".tif")
  /\ d_input d = path_join srcDir file
  /\ files w0 = files w.
Proof.
  intros H. injection H as <- <- <-. repeat split. name_ends.
Qed.

Lemma cf_process_pdf fuel cfg file : confined (process_pdf fuel cfg file) (fun _ => True).
Proof.
  intros w a w' H. split; [exact I|]. unfold process_pdf in H.
  apply bind_inv in H as ([d cur] & w0 & Hb & H).
  apply bind_inv in H as (cur' & w1 & Hs & He).
  apply begin_doc_names in Hb as (Hcur & Hout & _ & Hf0).
  assert (has_suffix ".tif" (d_output d)) as Htif by (rewrite Hout; name_ends).
  destruct (cf_run_stages fuel cfg d pipeline Htif cur Hcur _ _ _ Hs) as [_ Hs1].
  assert (files w' = files w1) as Hs2.
  { unfold end_doc in He.
    apply bind_inv in He as (u & w2 & Hc & He). injection Hc as _ <-.
    apply bind_inv in He as (w3 & w4 & Hg & He). injection Hg as <- <-.
    destruct (isFirstPdf _); injection He as _ <-; reflexivity. }
  intros p Hp. rewrite Hs2, Hs1, Hf0 by exact Hp. reflexivity.
Qed.

Lemma cf_main_loop fuel cfg listing : confined (main_loop fuel cfg listing) (fun _ => True).
Proof.
  induction listing as [|file rest IH]; [apply cf_ret; exact I|].
  change (main_loop fuel cfg (file :: rest))
    with ((if is_pdf file then process_pdf fuel cfg file else mret tt)
            ≫= fun _ => main_loop fuel cfg rest).
  apply cf_bind_any; [|intros _; exact IH].
  destruct (is_pdf file); [apply cf_process_pdf | apply cf_ret; exact I].
Qed.

(** X19.  A batch run that completes has created, changed or deleted only
    files whose names end in [.png], [.mvg] or [.tif]: every other file
    of the disk is as it was. *)
Theorem batch_touches_only_its_files (fuel : nat) (cfg : Cfg.t)
    (listing : list string) (w w' : world) (p : string) :
  faxSim fuel cfg listing w = Some (tt, w') ->
  ~ scratch_file p ->
  files w' !! p = files w !! p.
Proof.
  intros Hrun Hp. unfold faxSim in Hrun.
  destruct (cf_main_loop fuel cfg listing _ _ _ Hrun) as [_ Hs].
  rewrite Hs by exact Hp. reflexivity.
Qed.

Lemma ends_with_complete (suffix p : string) :
  has_suffix suffix p -> ends_with suffix p = true.
Proof.
  intros [a ->]. unfold ends_with. rewrite append_length.
  apply andb_true_iff. split; [|apply Nat.leb_le; lia].
  apply bool_decide_eq_true_2.
  replace (String.length a + String.length suffix - String.length suffix)%nat
    with (String.length a) by lia.
  rewrite substring_skip. apply substring_all.
Qed.

(** Refutes [scratch_file] of a literal name. *)
Ltac not_scratch :=
  let H := fresh in
  intros [H|[H|H]]; apply ends_with_complete in H; vm_compute in H; discriminate H.

Lemma batch_touches_only_its_files_witness :
  match faxSim 1 (Sample.ini false "" (fun _ => false) (2 # 10)) Sample.batch_listing
          Sample.batch_world with
  | Some (_, w') =>
      files w' !! "../output/pdf/doc.pdf" = files Sample.batch_world !! "../output/pdf/doc.pdf"
  | None => False
  end.
Proof.
  destruct (faxSim 1 (Sample.ini false "" (fun _ => false) (2 # 10))
              Sample.batch_listing Sample.batch_world) as [[[] w']|] eqn:E.
  - apply (batch_touches_only_its_files 1 (Sample.ini false "" (fun _ => false) (2 # 10))
             Sample.batch_listing Sample.batch_world w' "../output/pdf/doc.pdf" E).
    not_scratch.
  - vm_compute in E. discriminate E.
Defined.

(** ** What a processed document leaves behind *)

Lemma run_stages_app fuel cfg d ss1 ss2 cur w :
  run_stages fuel cfg d (ss1 ++ ss2) cur w
  = (run_stages fuel cfg d ss1 cur ≫= run_stages fuel cfg d ss2) w.
Proof.
  revert cur w. induction ss1 as [|s ss1 IH]; intros cur w; [reflexivity|].
  simpl. rewrite bind_assoc. unfold mbind, M_bind.
  destruct (run_stage fuel cfg d s cur w) as [[cur' w1]|]; [apply IH | reflexivity].
Qed.

Lemma read_images_kept ps : forall w imgs w',
  Engine.read_images ps w = Some (imgs, w') -> w' = w.
Proof.
  induction ps as [|p ps IH]; intros w imgs w' H; simpl in H.
  - injection H as _ <-. reflexivity.
  - apply bind_inv in H as (i & w1 & Hi & H).
    apply bind_inv in H as (rest & w2 & Hr & H). injection H as _ <-.
    unfold read_image in Hi. destruct (files w !! p) as [[]|]; try discriminate.
    injection Hi as _ <-. eapply IH. exact Hr.
Qed.

Lemma read_scripts_kept ops : forall w ss w',
  Engine.read_scripts ops w = Some (ss, w') -> w' = w.
Proof.
  induction ops as [|op ops IH]; intros w ss w' H; simpl in H.
  - injection H as _ <-. reflexivity.
  - destruct op; try (eapply IH; exact H).
    apply bind_inv in H as (s & w1 & Hs & H).
    apply bind_inv in H as (rest & w2 & Hr & H). injection H as _ <-.
    unfold read_script in Hs. destruct (files w !! script) as [[]|]; try discriminate.
    injection Hs as _ <-. eapply IH. exact Hr.
Qed.

(** What a successful engine command has read and written. *)
Lemma magick_inv ins ops out w u w' :
  Engine.magick ins ops out w = Some (u, w') ->
  exists imgs ss,
    Engine.read_images ins w = Some (imgs, w)
    /\ Engine.read_scripts ops w = Some (ss, w)
    /\ files w' = <[out := FImage (magick_result imgs ops ss)]> (files w).
Proof.
  intros H. unfold Engine.magick in H.
  apply bind_inv in H as (imgs & w1 & Hi & H).
  pose proof (read_images_kept _ _ _ _ Hi) as ->.
  apply bind_inv in H as (ss & w2 & Hs & H).
  pose proof (read_scripts_kept _ _ _ _ Hs) as ->.
  cbv zeta in H. apply bind_inv in H as ([] & w3 & Hst & H).
  injection Hst as <-. injection H as _ <-.
  exists imgs, ss. repeat split; assumption.
Qed.

Lemma dbgLog_files stage w u w' : dbgLog stage w = Some (u, w') -> files w' = files w.
Proof.
  intros H. unfold dbgLog in H.
  apply bind_inv in H as (w0 & w1 & Hg & H). injection Hg as <- <-.
  destruct (currentDebug w); injection H as _ <-; reflexivity.
Qed.

Lemma last_dot_suffix (s e : string) : Text.last_dot s = Some e -> has_suffix e s.
Proof.
  revert e. induction s as [|a r IH]; intros e H; simpl in H; [discriminate|].
  destruct (Text.last_dot r) as [e'|].
  - injection H as <-. destruct (IH e' eq_refl) as [pre ->].
    exists (String a pre). reflexivity.
  - destruct (bool_decide (a = "."%char)); [|discriminate].
    injection H as <-. apply has_suffix_self.
Qed.

Lemma toLowerCase_length (s : string) :
  String.length (Text.toLowerCase s) = String.length s.
Proof. induction s as [|a s IH]; [reflexivity|]. simpl. rewrite IH. reflexivity. Qed.

(** The path of a source PDF is none of the names the pipeline writes. *)
Lemma pdf_not_scratch (file : string) :
  is_pdf file = true -> ~ scratch_file (path_join srcDir file).
Proof.
  intros Hpdf. unfold is_pdf in Hpdf. apply bool_decide_eq_true_1 in Hpdf.
  unfold Text.extname in Hpdf.
  destruct (Text.last_dot file) as [e|] eqn:Hdot; [|discriminate Hpdf].
  destruct (bool_decide (e = file)); [discriminate Hpdf|].
  apply last_dot_suffix in Hdot.
  assert (has_suffix e (path_join srcDir file)) as He
    by (unfold path_join; repeat apply has_suffix_append; exact Hdot).
  assert (String.length e = 4%nat) as Hlen
    by (rewrite <- toLowerCase_length, Hpdf; reflexivity).
  assert (forall t, String.length t = 4%nat -> Text.toLowerCase t <> ".pdf" ->
                    ~ has_suffix t (path_join srcDir file)) as Hno.
  { intros t Ht Hlow [a Ha]. destruct He as [b Hb]. rewrite Ha in Hb.
    apply append_inj_tail in Hb as [_ ->]; [|congruence]. contradiction. }
  intros [H|[H|H]]; revert H; apply Hno; try reflexivity; discriminate.
Qed.

(** X20.  When a PDF of the source directory has been processed, its TIFF
    is on disk under [../output/tiff/<name>.tif] and is the output of the
    Group4 compression step; and the PDF itself is still on disk,
    unchanged. *)
Theorem document_yields_tiff (fuel : nat) (cfg : Cfg.t) (file : string)
    (w w' : world) :
  is_pdf file = true ->
  process_pdf fuel cfg file w = Some (tt, w') ->
  (exists W H px,
     files w' !! path_join dstDir (Text.parse_name file +:+ ".tif")
     = Some (FImage (Image W H (PxMagick [px] [Monochrome; Compress "Group4"] []))))
  /\ (exists id, files w !! path_join srcDir file = Some (FPdf id)
                 /\ files w' !! path_join srcDir file = Some (FPdf id)).
Proof.
  intros Hpdf Hrun.
  pose proof (cf_process_pdf fuel cfg file _ _ _ Hrun) as [_ Hframe].
  unfold process_pdf in Hrun.
  apply bind_inv in Hrun as ([d cur] & w0 & Hb & H).
  apply bind_inv in H as (cur' & w3 & Hs & He).
  apply begin_doc_names in Hb as (Hcur & Hout & Hin & Hf0).
  assert (has_suffix ".tif" (d_output d)) as Htif by (rewrite Hout; name_ends).
  assert (files w' = files w3) as Hend.
  { unfold end_doc in He.
    apply bind_inv in He as (u & w4 & Hc & He). injection Hc as _ <-.
    apply bind_inv in He as (w5 & w6 & Hg & He). injection Hg as <- <-.
    destruct (isFirstPdf _); injection He as <-; reflexivity. }
  change pipeline with
    ([SRender] ++ [SBlock BWarp; SBlock BRotate; SBlock BStripesW; SBlock BAlpha;
                   SBlock BGray; SBlock BBlur; SBlock BStripes; SBlock BRasterization;
                   SBlock BDither; SBlock BNoiseW; SBlock BRasterEffect;
                   SBlock BFinalThreshold; SBlock BDropout; SBlock BTileshift]
               ++ [SCompress; SCleanup]) in Hs.
  rewrite run_stages_app in Hs. apply bind_inv in Hs as (c0 & wr & Hrender & Hs).
  rewrite run_stages_app in Hs. apply bind_inv in Hs as (c1 & wa & Hblocks & Hs).
  split.
  - (* the TIFF *)
    assert (is_png c0) as Hc0
      by (apply (cf_run_stages fuel cfg d [SRender] Htif cur Hcur _ _ _ Hrender)).
    assert (is_png c1) as Hc1
      by (apply (cf_run_stages fuel cfg d _ Htif c0 Hc0 _ _ _ Hblocks)).
    cbn [run_stages] in Hs.
    apply bind_inv in Hs as (c2 & wb & Hcomp & Hs).
    apply bind_inv in Hs as (c3 & wc & Hclean & Hs). injection Hs as _ <-.
    cbn [run_stage] in Hcomp, Hclean.
    apply bind_inv in Hcomp as (u1 & w4 & Hl1 & Hcomp).
    apply bind_inv in Hcomp as (u2 & w5 & Hm & Hcomp).
    apply bind_inv in Hcomp as (w6 & w7 & Hg & Hcomp). injection Hg as <- <-.
    apply bind_inv in Hcomp as (u3 & w8 & Hsnap & Hcomp).
    injection Hcomp as <- <-.
    apply bind_inv in Hclean as (u4 & w9 & Hl2 & Hclean).
    apply bind_inv in Hclean as (u5 & w10 & Hun & Hclean).
    injection Hclean as _ <-.
    apply magick_inv in Hm as (imgs & ss & Hri & Hrs & Hfm).
    injection Hrs as <-.
    simpl in Hri. apply bind_inv in Hri as (i & wi & Hi & Hri). injection Hri as <- _.
    assert (files w8 !! d_output d = files w5 !! d_output d) as Hkeep.
    { destruct (currentDebug w5).
      - apply bind_inv in Hsnap as (u6 & w11 & Hcp & Hsnap).
        injection Hsnap as _ <-. simpl.
        unfold copyFileSync in Hcp.
        destruct (files w5 !! d_output d) as [c|] eqn:Eo; [|discriminate].
        injection Hcp as _ <-. simpl.
        destruct (decide (path_join debugDir (d_name d +:+ "_compress.tif") = d_output d))
          as [->|Hne].
        + rewrite lookup_insert_eq. reflexivity.
        + rewrite lookup_insert_ne by exact Hne. exact Eo.
      - injection Hsnap as _ <-. reflexivity. }
    apply dbgLog_files in Hl2.
    unfold unlinkSync in Hun. destruct (files w9 !! c1) eqn:Ec; [|discriminate].
    injection Hun as _ <-.
    exists (fst (Engine.cmd_dims 0 [Monochrome; Compress "Group4"] (img_w i, img_h i))),
      (snd (Engine.cmd_dims 0 [Monochrome; Compress "Group4"] (img_w i, img_h i))),
      (img_px i).
    rewrite Hend, <- Hout. simpl files.
    rewrite lookup_delete_ne.
    + rewrite Hl2, Hkeep, Hfm, lookup_insert_eq. reflexivity.
    + apply (suffixes_differ ".png" ".tif"); [reflexivity | discriminate | exact Hc1 | exact Htif].
  - (* the source *)
    cbn [run_stages] in Hrender.
    apply bind_inv in Hrender as (c2 & wb & Hrender & _).
    cbn [run_stage] in Hrender.
    apply bind_inv in Hrender as (u1 & w4 & Hl1 & Hrender).
    apply dbgLog_files in Hl1.
    apply bind_inv in Hrender as (u2 & w5 & Hr & _).
    unfold Engine.render in Hr. rewrite Hl1, Hf0, Hin in Hr.
    destruct (files w !! path_join srcDir file) as [[i|s|id]|] eqn:Esrc; try discriminate.
    exists id. split; [reflexivity|].
    rewrite Hframe by (apply pdf_not_scratch; exact Hpdf). exact Esrc.
Qed.

Lemma document_yields_tiff_witness :
  match process_pdf 1 (Sample.ini false "" (fun _ => false) (2 # 10)) "doc.pdf"
          Sample.batch_world with
  | Some (_, w') =>
      (exists W H px,
         files w' !! path_join dstDir (Text.parse_name "doc.pdf" +:+ ".tif")
         = Some (FImage (Image W H (PxMagick [px] [Monochrome; Compress "Group4"] []))))
      /\ (exists id, files Sample.batch_world !! path_join srcDir "doc.pdf" = Some (FPdf id)
                     /\ files w' !! path_join srcDir "doc.pdf" = Some (FPdf id))
  | None => False
  end.
Proof.
  destruct (process_pdf 1 (Sample.ini false "" (fun _ => false) (2 # 10)) "doc.pdf"
              Sample.batch_world) as [[[] w']|] eqn:E.
  - apply (document_yields_tiff 1 (Sample.ini false "" (fun _ => false) (2 # 10))
             "doc.pdf" Sample.batch_world w'); [reflexivity | exact E].
  - vm_compute in E. discriminate E.
Defined.

(** ** Text *)












Lemma trim_empty : Text.trim "" = "".
Proof. reflexivity. Qed.









(** ** The INI parser *)






Lemma split_lines_line (l rest : string) :
  has_char "010"%char l = false -> has_char "013"%char l = false ->
  Ini.split_lines (l +:+ String "010" rest) = l :: Ini.split_lines rest
  /\ Ini.split_lines (l +:+ String "013" (String "010" rest)) = l :: Ini.split_lines rest.
Proof.
  intros Hlf Hcr. induction l as [|x l IH].
  - split; reflexivity.
  - simpl in Hlf, Hcr.
    apply orb_false_iff in Hlf as [Hx1 Hlf]. apply orb_false_iff in Hcr as [Hx2 Hcr].
    destruct (IH Hlf Hcr) as [IH1 IH2]. split.
    + change (String x l +:+ String "010" rest) with (String x (l +:+ String "010" rest)).
      cbn [Ini.split_lines]. rewrite Hx1, Hx2. cbn [andb].
      destruct (l +:+ String "010" rest); rewrite IH1; reflexivity.
    + change (String x l +:+ String "013" (String "010" rest))
        with (String x (l +:+ String "013" (String "010" rest))).
      cbn [Ini.split_lines]. rewrite Hx1, Hx2. cbn [andb].
      destruct (l +:+ String "013" (String "010" rest)); rewrite IH2; reflexivity.
Qed.

Lemma split_lines_last (l : string) :
  has_char "010"%char l = false -> has_char "013"%char l = false ->
  Ini.split_lines l = [l].
Proof.
  intros Hlf Hcr. induction l as [|x l IH]; [reflexivity|].
  simpl in Hlf, Hcr.
  apply orb_false_iff in Hlf as [Hx1 Hlf]. apply orb_false_iff in Hcr as [Hx2 Hcr].
  cbn [Ini.split_lines]. rewrite Hx1, Hx2. cbn [andb].
  destruct l as [|y l]; [reflexivity|]. rewrite (IH Hlf Hcr). reflexivity.
Qed.

Lemma split_lines_joined (sep : string) (ls : list string) :
  sep = String "010" "" \/ sep = String "013" (String "010" "") ->
  Forall (fun l => has_char "010"%char l = false /\ has_char "013"%char l = false) ls ->
  ls <> [] ->
  Ini.split_lines (String.concat sep ls) = ls.
Proof.
  intros Hsep Hall Hne. induction Hall as [|l ls [Hlf Hcr] Hall IH]; [contradiction|].
  destruct ls as [|l' ls].
  - simpl. apply split_lines_last; assumption.
  - change (String.concat sep (l :: l' :: ls))
      with (l +:+ sep +:+ String.concat sep (l' :: ls)).
    destruct (split_lines_line l (String.concat sep (l' :: ls)) Hlf Hcr) as [H1 H2].
    destruct Hsep as [-> | ->].
    + change (l +:+ String "010" "" +:+ String.concat (String "010" "") (l' :: ls))
        with (l +:+ String "010" (String.concat (String "010" "") (l' :: ls))).
      rewrite (proj1 (split_lines_line l _ Hlf Hcr)). f_equal. apply IH. discriminate.
    + change (l +:+ String "013" (String "010" "")
                +:+ String.concat (String "013" (String "010" "")) (l' :: ls))
        with (l +:+ String "013" (String "010"
                (String.concat (String "013" (String "010" "")) (l' :: ls)))).
      rewrite (proj2 (split_lines_line l _ Hlf Hcr)). f_equal. apply IH. discriminate.
Qed.

(** X23.  A file with Windows line ends parses like the same lines with
    Unix line ends. *)
Theorem ini_line_ends {N : Type} (to_number : string -> option N)
    (ls : list string) :
  Forall (fun l => has_char "010"%char l = false /\ has_char "013"%char l = false) ls ->
  Ini.parseIniFile to_number (String.concat (String "013" (String "010" "")) ls)
  = Ini.parseIniFile to_number (String.concat (String "010" "") ls).
Proof.
  intros Hall. destruct ls as [|l ls]; [reflexivity|].
  unfold Ini.parseIniFile.
  rewrite !split_lines_joined; try assumption; try discriminate; auto.
Qed.


Lemma ini_line_ends_witness :
  Ini.parseIniFile sample_number
    (String.concat (String "013" (String "010" "")) ["applyBlur = true"; "blurRadius = 1"])
  = Ini.parseIniFile sample_number
      (String.concat (String "010" "") ["applyBlur = true"; "blurRadius = 1"]).
Proof.
  apply (ini_line_ends sample_number ["applyBlur = true"; "blurRadius = 1"]).
  repeat constructor.
Defined.

(** ** The debug exclusion list, as parsed *)




(** ** No intermediate file is left behind *)

Lemma kf_ret {A} (a : A) : keeps_files (mret a).
Proof. intros w a' w' H. injection H as _ <-. reflexivity. Qed.

Lemma kf_bind {A B} (m : M A) (f : A -> M B) :
  keeps_files m -> (forall a, keeps_files (f a)) -> keeps_files (m ≫= f).
Proof.
  intros Hm Hf w b w'' H. apply bind_inv in H as (a & w' & H1 & H2).
  rewrite (Hf _ _ _ _ H2). exact (Hm _ _ _ H1).
Qed.

Lemma kf_throw {A} : keeps_files (@throw A).
Proof. intros w a w' H. discriminate H. Qed.

Lemma kf_for_loop {A} (body : Z -> A -> M A) :
  (forall i a, keeps_files (body i a)) ->
  forall n i a, keeps_files (for_loop n i body a).
Proof.
  intros Hb n. induction n as [|n IH]; intros i a; simpl.
  - apply kf_ret.
  - apply kf_bind; [apply Hb | intros a'; apply IH].
Qed.

Lemma kf_get_world : keeps_files get_world.
Proof. intros w a w' H. injection H as _ <-. reflexivity. Qed.

Lemma kf_ask {A} (f : host -> A) : keeps_files (ask f).
Proof. intros w a w' H. injection H as _ <-. reflexivity. Qed.

Lemma kf_date_now : keeps_files date_now.
Proof. intros w a w' H. injection H as _ <-. reflexivity. Qed.

Lemma kf_math_random : keeps_files math_random.
Proof. intros w a w' H. injection H as _ <-. reflexivity. Qed.

Lemma kf_emit e : keeps_files (emit e).
Proof. intros w a w' H. injection H as _ <-. reflexivity. Qed.

Lemma kf_read_image p : keeps_files (read_image p).
Proof.
  intros w a w' H. unfold read_image in H.
  destruct (files w !! p) as [[]|]; try discriminate. injection H as _ <-. reflexivity.
Qed.

Lemma kf_read_script p : keeps_files (read_script p).
Proof.
  intros w a w' H. unfold read_script in H.
  destruct (files w !! p) as [[]|]; try discriminate. injection H as _ <-. reflexivity.
Qed.

Create HintDb keepfiles.

#[local] Hint Resolve kf_ret kf_throw kf_get_world kf_ask kf_date_now kf_math_random
  kf_emit kf_read_image kf_read_script : keepfiles.

Ltac files_steps :=
  repeat (intros; cbv zeta; first
    [ solve [auto with keepfiles]
    | apply kf_bind
    | apply kf_for_loop
    | match goal with
      | |- keeps_files (if ?b then _ else _) => destruct b
      | |- keeps_files (match ?x with _ => _ end) => destruct x
      end ]).

Lemma kf_identify p : keeps_files (identify p).
Proof. unfold identify. files_steps. Qed.

Lemma kf_batch_skip p : keeps_files (batch_skip p).
Proof. unfold batch_skip. files_steps. Qed.

Lemma kf_bounding_box p : keeps_files (Engine.bounding_box p).
Proof. unfold Engine.bounding_box. files_steps. Qed.

Lemma kf_dbgLog stage : keeps_files (dbgLog stage).
Proof. unfold dbgLog. files_steps. Qed.

Lemma kf_scratch_mvg prefix : keeps_files (scratch_mvg prefix).
Proof. unfold scratch_mvg. files_steps. Qed.

Lemma kf_stage_gate a p : keeps_files (stage_gate a p).
Proof. unfold stage_gate. files_steps. Qed.

Lemma kf_vary d fixed lo hi : keeps_files (vary d fixed lo hi).
Proof. unfold vary. files_steps. Qed.

Lemma kf_draw_nonzero fuel : keeps_files (Stripes.draw_nonzero fuel).
Proof. induction fuel; simpl; files_steps. Qed.

#[local] Hint Resolve kf_identify kf_batch_skip kf_bounding_box kf_dbgLog
  kf_scratch_mvg kf_stage_gate kf_vary kf_draw_nonzero : keepfiles.

Lemma kf_randGaussian fuel : keeps_files (Stripes.randGaussian fuel).
Proof. unfold Stripes.randGaussian. files_steps. Qed.

Lemma kf_fill buf v o e : keeps_files (Buf.fill buf v o e).
Proof. unfold Buf.fill. files_steps. Qed.

#[local] Hint Resolve kf_randGaussian kf_fill : keepfiles.

Lemma kf_build_masks W H n tmin tmax smin smax dir ns dist :
  keeps_files (StripesW.build_masks W H n tmin tmax smin smax dir ns dist).
Proof.
  unfold StripesW.build_masks, StripesW.build_stripeMask, StripesW.stripe_step,
    StripesW.build_noiseRaw.
  files_steps.
Qed.

#[local] Hint Resolve kf_build_masks : keepfiles.

(** What the steps that write have written. *)
Lemma magick_files ins ops out w u w' :
  Engine.magick ins ops out w = Some (u, w') ->
  exists c, files w' = <[out := c]> (files w).
Proof.
  intros H. apply magick_inv in H as (imgs & ss & _ & _ & Hf). eexists. exact Hf.
Qed.

Lemma unlink_files p w u w' :
  unlinkSync p w = Some (u, w') -> files w' = delete p (files w).
Proof.
  intros H. unfold unlinkSync in H. destruct (files w !! p); [|discriminate].
  injection H as _ <-. reflexivity.
Qed.

Lemma write_files p c w u w' :
  writeFileSync p c w = Some (u, w') -> files w' = <[p := c]> (files w).
Proof. intros H. injection H as _ <-. reflexivity. Qed.

Lemma render_files dpi input out w u w' :
  Engine.render dpi input out w = Some (u, w') ->
  exists c, files w' = <[out := c]> (files w).
Proof.
  intros H. unfold Engine.render in H.
  destruct (files w !! input) as [[]|]; try discriminate.
  injection H as _ <-. eexists. reflexivity.
Qed.

(** Takes the first step off the run [H], recording what it did to the
    disk. *)
Ltac step H :=
  let a := fresh "a" in
  let w1 := fresh "w" in
  let H1 := fresh "Hstep" in
  apply bind_inv in H as (a & w1 & H1 & H);
  first
    [ apply magick_files in H1 as [? H1]
    | apply unlink_files in H1
    | apply write_files in H1
    | match type of H1 with
      | ?m _ = Some _ =>
          let K := fresh in
          assert (keeps_files m) as K by files_steps;
          apply K in H1; clear K
      end ].

(** Rewrites the disk of the final world down to the disk of the first. *)
Ltac unwind :=
  repeat match goal with
         | E : files ?x = _ |- context [files ?x] => rewrite E
         end.

(** Decides a lookup through the inserts and deletes on its way. *)
Ltac settle :=
  repeat match goal with
         | |- context [delete ?a _ !! ?a] => rewrite lookup_delete_eq
         | |- context [delete ?a _ !! ?p] =>
             destruct (decide (p = a)) as [->|?];
             [ rewrite lookup_delete_eq | rewrite lookup_delete_ne by congruence ]
         | |- context [<[?a := _]> _ !! ?p] =>
             destruct (decide (p = a)) as [->|?];
             [ exfalso; congruence | rewrite lookup_insert_ne by congruence ]
         end;
  try first [reflexivity | left; reflexivity | right; reflexivity].

Lemma ho_same cur w w' : files w' = files w -> hands_over cur cur w w'.
Proof.
  intros Hf. split; [left; reflexivity|]. intros p _ _. right. rewrite Hf. reflexivity.
Qed.

Lemma ho_trans a b c w w1 w2 :
  hands_over a b w w1 -> hands_over b c w1 w2 -> hands_over a c w w2.
Proof.
  intros [H1 F1] [H2 F2]. split.
  - destruct (decide (c = a)) as [->|Hca]; [left; reflexivity|]. right.
    destruct (decide (b = a)) as [->|Hba].
    + destruct H2 as [->|H2]; [contradiction | exact H2].
    + destruct H1 as [->|H1]; [contradiction|].
      destruct (F2 a ltac:(congruence) ltac:(congruence)) as [E|E]; [exact E|].
      rewrite E. exact H1.
  - intros p Hpc Hpa.
    destruct (decide (p = b)) as [->|Hpb].
    + destruct H2 as [->|H2]; [contradiction | left; exact H2].
    + destruct (F2 p Hpc Hpb) as [E|E]; [left; exact E|].
      destruct (F1 p Hpb Hpa) as [E1|E1]; [left | right]; congruence.
Qed.

Lemma quiet_debug_off {A} (m : M A) w a w' :
  keeps_quiet m -> currentDebug w = false -> m w = Some (a, w') ->
  currentDebug w' = false.
Proof. intros Hk Hd H. destruct (Hk _ _ _ H) as (_ & E & _). congruence. Qed.

Lemma tidy_rotate cur name tmp a p lo hi :
  tidy cur (applyRotateEffect cur name tmp a p lo hi).
Proof.
  intros w out w' Hd H.
  split; [|exact (quiet_debug_off _ _ _ _ (kq_applyRotateEffect _ _ _ _ _ _ _) Hd H)].
  unfold applyRotateEffect in H.
  destruct (negb a); [injection H as <- <-; apply ho_same; reflexivity|].
  step H. destruct (Js.gtb _ _); [injection H as <- <-; apply ho_same; assumption|].
  step H. destruct a1 as [W Hh]. step H. step H. step H. injection H as <- <-.
  split; [right; unwind; settle | intros q Hq1 Hq2; unwind; settle].
Qed.

Lemma tidy_warp cur name tmp a p off sc :
  tidy cur (applyWarpEffect cur name tmp a p off sc).
Proof.
  intros w out w' Hd H.
  split; [|exact (quiet_debug_off _ _ _ _ (kq_applyWarpEffect _ _ _ _ _ _ _) Hd H)].
  unfold applyWarpEffect in H.
  destruct (negb a); [injection H as <- <-; apply ho_same; reflexivity|].
  step H. destruct (Js.gtb _ _); [injection H as <- <-; apply ho_same; assumption|].
  step H. destruct a1 as [W Hh]. step H. cbv zeta in H. step H. step H.
  destruct (_ || _); [discriminate H|].
  step H. step H. step H. injection H as <- <-.
  split; [right; unwind; settle | intros q Hq1 Hq2; unwind; settle].
Qed.

Lemma createMVG_files W H amt sz w r w' :
  createMVG W H amt sz w = Some (r, w') ->
  match r with
  | Some mvg => exists c, files w' = <[mvg := c]> (files w)
  | None => files w' = files w
  end.
Proof.
  intros Hrun. unfold createMVG in Hrun. cbv zeta in Hrun.
  destruct (_ <? 1); [injection Hrun as <- <-; reflexivity|].
  apply bind_inv in Hrun as (lines & w1 & Hloop & Hrun).
  assert (keeps_files (for_loop (Z.to_nat (dropout_count W H amt sz)) 0
                         (dropout_block W H (dropout_blockSize sz))
                         (mvg_header W H "white"))) as K
    by (unfold dropout_block; files_steps).
  apply K in Hloop. step Hrun. step Hrun. injection Hrun as <- <-.
  eexists. unwind. reflexivity.
Qed.

Lemma createSpeckleMVG_files W H d color w r w' :
  createSpeckleMVG W H d color w = Some (r, w') ->
  match r with
  | Some mvg => exists c, files w' = <[mvg := c]> (files w)
  | None => files w' = files w
  end.
Proof.
  intros Hrun. unfold createSpeckleMVG in Hrun. cbv zeta in Hrun.
  destruct (_ <? 1); [injection Hrun as <- <-; reflexivity|].
  apply bind_inv in Hrun as (lines & w1 & Hloop & Hrun).
  assert (keeps_files (for_loop (Z.to_nat (speckle_count W H d)) 0
                         (speckle_point W H) (mvg_header W H color))) as K
    by (unfold speckle_point; files_steps).
  apply K in Hloop. step Hrun. step Hrun. injection Hrun as <- <-.
  eexists. unwind. reflexivity.
Qed.

Lemma tidy_dropout cur name tmp amt sz p :
  tidy cur (applyDropoutEffect cur name tmp amt sz p).
Proof.
  intros w out w' Hd H.
  split; [|exact (quiet_debug_off _ _ _ _ (kq_applyDropoutEffect _ _ _ _ _ _) Hd H)].
  unfold applyDropoutEffect in H.
  step H. destruct a; [injection H as <- <-; apply ho_same; assumption|].
  step H. destruct a as [W Hh].
  apply bind_inv in H as (r & w2 & Hmk & H). apply createMVG_files in Hmk.
  destruct r as [mvg|].
  - destruct Hmk as [c Hmk]. step H. step H. step H. injection H as <- <-.
    split; [right; unwind; settle | intros q Hq1 Hq2; unwind; settle].
  - injection H as <- <-. apply ho_same. unwind. reflexivity.
Qed.

Lemma tidy_noiseW cur name tmp p dens :
  tidy cur (applyNoiseWEffect cur name tmp p dens).
Proof.
  intros w out w' Hd H.
  split; [|exact (quiet_debug_off _ _ _ _ (kq_applyNoiseWEffect _ _ _ _ _) Hd H)].
  unfold applyNoiseWEffect in H.
  step H. destruct a; [injection H as <- <-; apply ho_same; assumption|].
  step H. destruct a as [W Hh].
  apply bind_inv in H as (r & w2 & Hmk & H). apply createSpeckleMVG_files in Hmk.
  destruct r as [mvg|].
  - destruct Hmk as [c Hmk]. step H. step H. step H. injection H as <- <-.
    split; [right; unwind; settle | intros q Hq1 Hq2; unwind; settle].
  - injection H as <- <-. apply ho_same. unwind. reflexivity.
Qed.

Lemma tidy_raster cur name tmp p map :
  tidy cur (applyRasterEffect cur name tmp p map).
Proof.
  intros w out w' Hd H.
  split; [|exact (quiet_debug_off _ _ _ _ (kq_applyRasterEffect _ _ _ _ _) Hd H)].
  unfold applyRasterEffect in H.
  step H. destruct a; [injection H as <- <-; apply ho_same; assumption|].
  cbv zeta in H. step H. step H. injection H as <- <-.
  split; [right; unwind; settle | intros q Hq1 Hq2; unwind; settle].
Qed.

Lemma tidy_tileshift cur name tmp p n ts tv ox oy ov :
  tidy cur (Tileshift.applyTileshiftEffect cur name tmp p n ts tv ox oy ov).
Proof.
  intros w out w' Hd H.
  split; [|exact (quiet_debug_off _ _ _ _
                    (kq_applyTileshiftEffect _ _ _ _ _ _ _ _ _ _) Hd H)].
  unfold Tileshift.applyTileshiftEffect in H.
  step H. destruct a; [injection H as <- <-; apply ho_same; assumption|].
  step H. destruct a as [W Hh].
  apply bind_inv in H as (targs & w2 & Hloop & H).
  assert (keeps_files (for_loop (Z.to_nat n) 0
                         (Tileshift.tile_step W Hh ts tv ox oy ov) [AlphaSet])) as K
    by (unfold Tileshift.tile_step, Tileshift.place_tile, Tileshift.randInt; files_steps).
  apply K in Hloop. cbv zeta in H. step H. step H. injection H as <- <-.
  split; [right; unwind; settle | intros q Hq1 Hq2; unwind; settle].
Qed.

Lemma tidy_stripesW cur name tmp p n tmin tmax smin smax dir ns dist :
  tidy cur (StripesW.applyStripesWEffect cur name tmp p n tmin tmax smin smax dir ns dist).
Proof.
  intros w out w' Hd H.
  split; [|exact (quiet_debug_off _ _ _ _
                    (kq_applyStripesWEffect _ _ _ _ _ _ _ _ _ _ _ _) Hd H)].
  unfold StripesW.applyStripesWEffect in H.
  step H. step H. cbv zeta in H. step H. step H. injection H as <- <-.
  split; [left; reflexivity | intros q Hq1 Hq2; unwind; settle].
Qed.

Lemma kf_stripes_randInt lo hi : keeps_files (Stripes.randInt lo hi).
Proof. unfold Stripes.randInt. files_steps. Qed.

#[local] Hint Resolve kf_stripes_randInt : keepfiles.

Lemma quiet_cd {A} (m : M A) w a w' :
  keeps_quiet m -> m w = Some (a, w') -> currentDebug w' = currentDebug w.
Proof. intros Hk H. destruct (Hk _ _ _ H) as (_ & E & _). exact E. Qed.

Lemma dbgSnap_off_inv stage cur name w u w' :
  currentDebug w = false -> dbgSnap stage cur name w = Some (u, w') -> w' = w.
Proof. intros Hd H. rewrite (dbgSnap_off _ _ _ _ Hd) in H. injection H as _ <-. reflexivity. Qed.

Lemma dbgLog_off_inv stage w u w' :
  currentDebug w = false -> dbgLog stage w = Some (u, w') -> w' = w.
Proof. intros Hd H. rewrite (dbgLog_off _ _ Hd) in H. injection H as _ <-. reflexivity. Qed.

Lemma ho_files a b w1 w2 w1' w2' :
  files w1' = files w1 -> files w2' = files w2 ->
  hands_over a b w1 w2 -> hands_over a b w1' w2'.
Proof.
  intros E1 E2 [H F]. split.
  - rewrite E2. exact H.
  - intros p Hp1 Hp2. rewrite E1, E2. apply F; assumption.
Qed.

Lemma tidy_cluster fuel name tmp W H maxDist aw ah dens sm lo hi dir ls col a composite :
  tidy composite
    (Stripes.cluster fuel name tmp W H maxDist aw ah dens sm lo hi dir ls col a composite).
Proof.
  intros w out w' Hd Hrun.
  assert (keeps_quiet (Stripes.cluster fuel name tmp W H maxDist aw ah dens sm lo hi
                         dir ls col a composite)) as Hq
    by (unfold Stripes.cluster, Stripes.speckle, Stripes.randInt; quiet_steps).
  split; [|exact (quiet_debug_off _ _ _ _ Hq Hd Hrun)].
  unfold Stripes.cluster in Hrun. cbv zeta in Hrun.
  step Hrun. step Hrun.
  destruct (_ <? 1); [injection Hrun as <- <-; apply ho_same; unwind; reflexivity|].
  apply bind_inv in Hrun as (lines & w2 & Hloop & Hrun).
  match type of Hloop with
  | ?m _ = Some _ =>
      assert (keeps_files m) as K by (unfold Stripes.speckle; files_steps);
      apply K in Hloop; clear K
  end.
  step Hrun. step Hrun. step Hrun. step Hrun. step Hrun.
  apply bind_inv in Hrun as (layer & w8 & Hlayer & Hrun).
  destruct sm.
  - step Hlayer. step Hlayer. step Hlayer. step Hlayer. injection Hlayer as <- <-.
    step Hrun. step Hrun. step Hrun. injection Hrun as <- <-.
    split; [right; unwind; settle | intros q Hq1 Hq2; unwind; settle].
  - injection Hlayer as <- <-.
    step Hrun. step Hrun. step Hrun. injection Hrun as <- <-.
    split; [right; unwind; settle | intros q Hq1 Hq2; unwind; settle].
Qed.

Lemma tidy_loop (body : Z -> string -> M string) :
  (forall i c, tidy c (body i c)) ->
  forall n i cur, tidy cur (for_loop n i body cur).
Proof.
  intros Hb n. induction n as [|n IH]; intros i cur w out w' Hd H; simpl in H.
  - injection H as <- <-. split; [apply ho_same; reflexivity | exact Hd].
  - apply bind_inv in H as (c1 & w1 & H1 & H).
    destruct (Hb i cur _ _ _ Hd H1) as [Ho1 Hd1].
    destruct (IH (i + 1) c1 _ _ _ Hd1 H) as [Ho2 Hd2].
    split; [eapply ho_trans; eassumption | exact Hd2].
Qed.

Lemma tidy_stripes fuel cur name tmp p n aw ah dens sm lo hi dir ls col :
  tidy cur
    (Stripes.applyStripesEffect fuel cur name tmp p n aw ah dens sm lo hi dir ls col).
Proof.
  intros w out w' Hd H.
  unfold Stripes.applyStripesEffect in H.
  apply bind_inv in H as (skip & w1 & Hskip & H).
  pose proof (quiet_cd _ _ _ _ (kq_batch_skip _) Hskip) as D1.
  apply kf_batch_skip in Hskip.
  destruct skip.
  { injection H as <- <-. split; [apply ho_same; assumption | congruence]. }
  apply bind_inv in H as ([W Hh] & w2 & Hid & H).
  pose proof (quiet_cd _ _ _ _ (kq_identify _) Hid) as D2.
  apply kf_identify in Hid.
  cbv zeta in H.
  apply bind_inv in H as (maxDist & w3 & Hask & H). injection Hask as _ <-.
  assert (currentDebug w2 = false) as D3 by congruence.
  destruct (tidy_loop _ (fun i c => tidy_cluster fuel name tmp W Hh maxDist aw ah dens
                                      sm lo hi dir ls col i c)
              _ _ _ _ _ _ D3 H) as [Ho Hd'].
  split; [|exact Hd'].
  eapply ho_files; [| |exact Ho]; [congruence | reflexivity].
Qed.

Lemma tidy_run_mirror cfg d cur : tidy cur (run_mirror cfg d cur).
Proof.
  intros w out w' Hd H.
  split; [|exact (quiet_debug_off _ _ _ _ (kq_run_mirror _ _ _) Hd H)].
  unfold run_mirror in H. cbv zeta in H.
  apply bind_inv in H as (go & w1 & Hgate & H).
  pose proof (quiet_cd _ _ _ _ (kq_stage_gate _ _) Hgate) as D1.
  apply kf_stage_gate in Hgate.
  destruct go; [|injection H as <- <-; apply ho_same; assumption].
  apply bind_inv in H as (r & w2 & Hr & H). injection Hr as _ <-.
  apply bind_inv in H as (u & w3 & Hlog & H).
  apply dbgLog_off_inv in Hlog; [subst w3 | simpl; congruence].
  apply bind_inv in H as (u1 & w4 & Hm & H).
  assert (currentDebug w4 = false /\ (files w4 = files w \/ exists c, files w4 = <[cur := c]> (files w)))
    as [D4 Hf4].
  { destruct (mirror_ops _).
    - pose proof (quiet_cd _ _ _ _ (kq_magick _ _ _) Hm) as D.
      apply magick_files in Hm as [c Hm]. simpl in D, Hm.
      split; [congruence | right; exists c; congruence].
    - injection Hm as _ <-. simpl. split; [congruence | left; exact Hgate]. }
  apply bind_inv in H as (u2 & w5 & Hsnap & H).
  apply dbgSnap_off_inv in Hsnap; [subst w5 | exact D4].
  injection H as <- <-.
  split; [left; reflexivity|]. intros q Hq _.
  destruct Hf4 as [E | [c E]]; rewrite E; settle.
Qed.

Lemma tidy_in_place d stage ops cur : tidy cur (in_place d stage ops cur).
Proof.
  intros w out w' Hd H.
  split; [|exact (quiet_debug_off _ _ _ _ (kq_in_place _ _ _ _) Hd H)].
  unfold in_place in H.
  apply bind_inv in H as (u & w1 & Hlog & H).
  apply dbgLog_off_inv in Hlog; [subst w1 | exact Hd].
  apply bind_inv in H as (u1 & w2 & Hm & H).
  pose proof (quiet_cd _ _ _ _ (kq_magick _ _ _) Hm) as D.
  apply magick_files in Hm as [c Hm].
  apply bind_inv in H as (u2 & w3 & Hsnap & H).
  apply dbgSnap_off_inv in Hsnap; [subst w3 | congruence].
  injection H as <- <-.
  split; [left; reflexivity|]. intros q Hq _. rewrite Hm. settle.
Qed.

(** A gate in front of a tidy computation. *)
Lemma tidy_gated (apply : bool) (perc : Q) (cur : string) (work : M string) :
  tidy cur work ->
  tidy cur (go ← stage_gate apply perc; if (go : bool) then work else mret cur).
Proof.
  intros Ht w out w' Hd H.
  apply bind_inv in H as (go & w1 & Hgate & H).
  pose proof (quiet_cd _ _ _ _ (kq_stage_gate _ _) Hgate) as D1.
  apply kf_stage_gate in Hgate.
  destruct go.
  - assert (currentDebug w1 = false) as D1' by congruence.
    destruct (Ht _ _ _ D1' H) as [Ho D2].
    split; [|exact D2]. eapply ho_files; [| |exact Ho]; [congruence | reflexivity].
  - injection H as <- <-. split; [apply ho_same; assumption | congruence].
Qed.

Lemma tidy_ret cur : tidy cur (mret cur).
Proof. intros w out w' Hd H. injection H as <- <-. split; [apply ho_same; reflexivity | exact Hd]. Qed.

Lemma tidy_seq (cur : string) (m : M string) (f : string -> M string) :
  tidy cur m -> (forall c, tidy c (f c)) -> tidy cur (m ≫= f).
Proof.
  intros Hm Hf w out w' Hd H.
  apply bind_inv in H as (c & w1 & H1 & H).
  destruct (Hm _ _ _ Hd H1) as [Ho1 D1].
  destruct (Hf c _ _ _ D1 H) as [Ho2 D2].
  split; [eapply ho_trans; eassumption | exact D2].
Qed.

Lemma tidy_pre {A} (cur : string) (pre : M A) (f : A -> M string) :
  keeps_files pre -> keeps_quiet pre ->
  (forall a, tidy cur (f a)) -> tidy cur (pre ≫= f).
Proof.
  intros Kf Kq Ht w out w' Hd H.
  apply bind_inv in H as (a & w1 & Hpre & H).
  pose proof (quiet_cd _ _ _ _ Kq Hpre) as D1. apply Kf in Hpre.
  assert (currentDebug w1 = false) as D1' by congruence.
  destruct (Ht a _ _ _ D1' H) as [Ho D2].
  split; [|exact D2]. eapply ho_files; [| |exact Ho]; [congruence | reflexivity].
Qed.

Lemma tidy_snap_then (stage cur snap name : string) (m : M string) :
  tidy cur m -> tidy cur (_ ← dbgSnap stage snap name; m).
Proof.
  intros Ht w out w' Hd H.
  apply bind_inv in H as (u & w1 & Hsnap & H).
  apply dbgSnap_off_inv in Hsnap; [subst w1 | exact Hd].
  exact (Ht _ _ _ Hd H).
Qed.

Lemma tidy_snap (stage name cur : string) (effect : M string) :
  tidy cur effect -> tidy cur (c ← effect; _ ← dbgSnap stage c name; mret c).
Proof.
  intros Ht. apply tidy_seq; [exact Ht|].
  intros c. apply tidy_snap_then, tidy_ret.
Qed.

Lemma tidy_if (b : bool) (cur : string) (m : M string) :
  tidy cur m -> tidy cur (if b then m else mret cur).
Proof. intros Ht. destruct b; [exact Ht | apply tidy_ret]. Qed.

Ltac tidy_pre_step :=
  apply tidy_pre; [solve [files_steps] | solve [quiet_steps] | intros ?].

Lemma tidy_run_block fuel cfg d b cur : tidy cur (run_block fuel cfg d b cur).
Proof.
  destruct b; cbn [run_block]; cbv zeta.
  - apply tidy_gated. do 3 tidy_pre_step. apply tidy_snap, tidy_warp.
  - apply tidy_gated. do 2 tidy_pre_step.
    apply tidy_seq; [apply tidy_rotate|].
    intros c. apply tidy_snap_then, tidy_run_mirror.
  - apply tidy_run_mirror.
  - apply tidy_gated. do 2 tidy_pre_step. apply tidy_snap, tidy_stripesW.
  - apply tidy_if, tidy_in_place.
  - apply tidy_if, tidy_in_place.
  - apply tidy_if. tidy_pre_step. apply tidy_in_place.
  - apply tidy_gated. do 3 tidy_pre_step. apply tidy_snap, tidy_stripes.
  - apply tidy_if, tidy_in_place.
  - apply tidy_if, tidy_in_place.
  - apply tidy_gated. do 3 tidy_pre_step. apply tidy_snap, tidy_noiseW.
  - apply tidy_if. do 2 tidy_pre_step. apply tidy_snap, tidy_raster.
  - apply tidy_if, tidy_in_place.
  - apply tidy_gated. do 3 tidy_pre_step. apply tidy_snap, tidy_dropout.
  - apply tidy_gated. do 3 tidy_pre_step. apply tidy_snap, tidy_tileshift.
Qed.

Lemma tidy_blocks fuel cfg d bs :
  forall cur, tidy cur (run_stages fuel cfg d (map SBlock bs) cur).
Proof.
  induction bs as [|b bs IH]; intros cur; cbn [map run_stages].
  - apply tidy_ret.
  - apply tidy_seq; [cbn [run_stage]; apply tidy_run_block | exact IH].
Qed.

(** X25.  Outside the debug run a document leaves nothing behind but its
    TIFF: when [process_pdf] has returned, every other path is either
    absent or holds exactly what it held before the document was
    started.  The rendered page, each effect's output and every script
    have been unlinked again. *)
Theorem no_intermediates_left (fuel : nat) (cfg : Cfg.t) (file : string)
    (w w' : world) :
  Cfg.debugPipeline cfg && isFirstPdf w = false ->
  process_pdf fuel cfg file w = Some (tt, w') ->
  forall p, p <> path_join dstDir (Text.parse_name file +:+ ".tif") ->
            files w' !! p = None \/ files w' !! p = files w !! p.
Proof.
  intros Hoff Hrun p Hp.
  unfold process_pdf in Hrun.
  apply bind_inv in Hrun as ([d cur] & w0 & Hb & H).
  apply bind_inv in H as (cur' & w3 & Hs & He).
  assert (currentDebug w0 = false) as D0.
  { injection Hb as _ _ <-. exact Hoff. }
  apply begin_doc_names in Hb as (_ & Hout & _ & Hf0).
  assert (files w' = files w3) as Hend.
  { unfold end_doc in He.
    apply bind_inv in He as (u & w4 & Hc & He). injection Hc as _ <-.
    apply bind_inv in He as (w5 & w6 & Hg & He). injection Hg as <- <-.
    match type of He with
    | context [isFirstPdf ?x] => destruct (isFirstPdf x)
    end; injection He as <-; reflexivity. }
  change pipeline with
    ([SRender] ++ map SBlock [BWarp; BRotate; BStripesW; BAlpha; BGray; BBlur; BStripes;
                              BRasterization; BDither; BNoiseW; BRasterEffect;
                              BFinalThreshold; BDropout; BTileshift]
               ++ [SCompress; SCleanup]) in Hs.
  rewrite run_stages_app in Hs. apply bind_inv in Hs as (c0 & wr & Hrender & Hs).
  rewrite run_stages_app in Hs. apply bind_inv in Hs as (c1 & wa & Hblocks & Hs).
  (* the render *)
  cbn [run_stages run_stage] in Hrender.
  apply bind_inv in Hrender as (c0' & wr' & Hrender & Hret). injection Hret as <- <-.
  apply bind_inv in Hrender as (u1 & w4 & Hl1 & Hrender).
  apply dbgLog_off_inv in Hl1; [subst w4 | exact D0].
  apply bind_inv in Hrender as (u2 & w5 & Hr & Hrender).
  pose proof (quiet_cd _ _ _ _ (kq_render _ _ _) Hr) as D5.
  apply render_files in Hr as [page Hr].
  apply bind_inv in Hrender as (u3 & w6 & Hsnap & Hrender).
  apply dbgSnap_off_inv in Hsnap; [subst w6 | congruence].
  injection Hrender as <- <-.
  (* the effects *)
  assert (currentDebug w5 = false) as D5' by congruence.
  destruct (tidy_blocks fuel cfg d _ cur _ _ _ D5' Hblocks) as [[Hfirst Hframe] Da].
  (* compression and clean-up *)
  cbn [run_stages] in Hs.
  apply bind_inv in Hs as (c2 & wb & Hcomp & Hs).
  apply bind_inv in Hs as (c3 & wc & Hclean & Hs). injection Hs as _ <-.
  cbn [run_stage] in Hcomp, Hclean.
  apply bind_inv in Hcomp as (u4 & w7 & Hl2 & Hcomp).
  apply dbgLog_off_inv in Hl2; [subst w7 | exact Da].
  apply bind_inv in Hcomp as (u5 & w8 & Hm & Hcomp).
  pose proof (quiet_cd _ _ _ _ (kq_magick _ _ _) Hm) as D8.
  apply magick_files in Hm as [tiff Hm].
  apply bind_inv in Hcomp as (w9 & w10 & Hg & Hcomp). injection Hg as <- <-.
  rewrite D8, Da in Hcomp.
  apply bind_inv in Hcomp as (u6 & w11 & Hnone & Hcomp). injection Hnone as _ <-.
  injection Hcomp as <- <-.
  apply bind_inv in Hclean as (u7 & w12 & Hl3 & Hclean).
  apply dbgLog_off_inv in Hl3; [subst w12 | congruence].
  apply bind_inv in Hclean as (u8 & w13 & Hun & Hclean).
  apply unlink_files in Hun. injection Hclean as _ <-.
  rewrite Hend, Hun, Hm, Hout.
  destruct (decide (p = c1)) as [->|Hp1]; [left; apply lookup_delete_eq|].
  rewrite lookup_delete_ne by congruence.
  rewrite lookup_insert_ne by congruence.
  destruct (decide (p = cur)) as [->|Hp0].
  - left. destruct Hfirst as [->|Hgone]; [contradiction | exact Hgone].
  - destruct (Hframe p Hp1 Hp0) as [Hgone|Hsame]; [left; exact Hgone|].
    right. rewrite Hsame, Hr, lookup_insert_ne by congruence. rewrite Hf0. reflexivity.
Qed.

Lemma no_intermediates_left_witness :
  match process_pdf 5 (Sample.ini false "" (fun _ => true) (2 # 10)) "doc.pdf"
          (set_rng (fun _ => 1 # 10) Sample.batch_world) with
  | Some (_, w') =>
      forall p, p <> path_join dstDir (Text.parse_name "doc.pdf" +:+ ".tif") ->
                files w' !! p = None
                \/ files w' !! p
                   = files (set_rng (fun _ => 1 # 10) Sample.batch_world) !! p
  | None => False
  end.
Proof.
  destruct (process_pdf 5 (Sample.ini false "" (fun _ => true) (2 # 10)) "doc.pdf"
              (set_rng (fun _ => 1 # 10) Sample.batch_world)) as [[[] w']|] eqn:E.
  - apply (no_intermediates_left 5 (Sample.ini false "" (fun _ => true) (2 # 10))
             "doc.pdf" (set_rng (fun _ => 1 # 10) Sample.batch_world) w');
      [reflexivity | exact E].
  - vm_compute in E. discriminate E.
Defined.
